(** * The C# generator of the Dropbox .NET SDK (generator/csharp.babelg.py)

    A shallow embedding of [CSharpGenerator]: the identifier engine
    ([_segment_name], [_public_name], [_arg_name]), the type mapper
    ([_typename]), the constraint compiler ([_check_constraints]) and the
    struct and union synthesizers, followed by the properties of the code
    they emit. *)

From Stdlib Require Import Ascii NArith ZArith Lia DecimalString.
From Stdlib Require DecimalPos DecimalZ.
From stdpp Require Import base option list strings gmap sorting.

(** ** Characters and strings as Python sees them

    Schema names are ASCII identifiers; [str.lower], [str.upper] and the
    character classes of [_CAMEL_CASE_RE] are modelled on ASCII. *)

Definition code_of (c : ascii) : N := N_of_ascii c.

Definition is_upper (c : ascii) : bool :=
  (65 <=? code_of c)%N && (code_of c <=? 90)%N.

Definition is_lower (c : ascii) : bool :=
  (97 <=? code_of c)%N && (code_of c <=? 122)%N.

Definition is_digit (c : ascii) : bool :=
  (48 <=? code_of c)%N && (code_of c <=? 57)%N.

Definition lower_char (c : ascii) : ascii :=
  if is_upper c then ascii_of_N (code_of c + 32) else c.

Definition upper_char (c : ascii) : ascii :=
  if is_lower c then ascii_of_N (code_of c - 32) else c.

Fixpoint map_chars (f : ascii -> ascii) (s : string) : string :=
  match s with
  | EmptyString => EmptyString
  | String c rest => String (f c) (map_chars f rest)
  end.

(** [s.lower()] *)
Definition lower (s : string) : string := map_chars lower_char s.

(** [s.capitalize()]: first character upper-cased, the rest lower-cased. *)
Definition capitalize (s : string) : string :=
  match s with
  | EmptyString => EmptyString
  | String c rest => String (upper_char c) (lower rest)
  end.

(** [s.replace(old, new)] for single characters. *)
Definition replace_char (old new : ascii) (s : string) : string :=
  map_chars (fun c => if Ascii.eqb c old then new else c) s.

(** [s.split(sep)] for a one-character separator: never an empty list. *)
Fixpoint split (sep : ascii) (s : string) : list string :=
  match s with
  | EmptyString => [EmptyString]
  | String c rest =>
      if Ascii.eqb c sep then EmptyString :: split sep rest
      else match split sep rest with
           | w :: ws => String c w :: ws
           | [] => [String c EmptyString]
           end
  end.

(** [sep.join(words)] *)
Fixpoint join (sep : string) (words : list string) : string :=
  match words with
  | [] => EmptyString
  | [w] => w
  | w :: ws => w +:+ sep +:+ join sep ws
  end.

Definition underscore : ascii := "_"%char.
Definition slash : ascii := "/"%char.

(** ** Identifier engine *)

(** [_CAMEL_CASE_RE = '((?<=[a-z0-9])[A-Z]|(?!^)[A-Z](?=[a-z]))']: the
    character [c], preceded by [prev] (None at position 0) and followed by
    [rest], is matched when it is an upper-case letter that either follows
    a lower-case letter or digit, or is not at the start of the string and
    precedes a lower-case letter. *)
Definition _CAMEL_CASE_RE (prev : option ascii) (c : ascii) (rest : string)
  : bool :=
  is_upper c &&
  (match prev with
   | Some p => is_lower p || is_digit p
   | None => false
   end
   || (match prev with Some _ => true | None => false end
       && match rest with
          | String n _ => is_lower n
          | EmptyString => false
          end)).

(** [_CAMEL_CASE_RE.sub(r'_\1', name)]: every match is one character wide
    and the lookarounds read the original string, so the substitution puts
    an underscore in front of each matched character. *)
Fixpoint camel_case_sub (prev : option ascii) (s : string) : string :=
  match s with
  | EmptyString => EmptyString
  | String c rest =>
      if _CAMEL_CASE_RE prev c rest
      then String underscore (String c (camel_case_sub (Some c) rest))
      else String c (camel_case_sub (Some c) rest)
  end.

(** [memo_one] caches the value per argument; the functions it wraps are
    pure and their results are never mutated, so the cache is invisible. *)
Definition _segment_name (name : string) : list string :=
  let name := replace_char slash underscore name in
  let name := lower (camel_case_sub None name) in
  split underscore name.

Definition _public_name (name : string) : string :=
  join EmptyString (map capitalize (_segment_name name)).

Definition _name_words (name : string) : string :=
  join " " (_segment_name name).

(** ** Segmentation is stable on its own output *)

Fixpoint has_char (p : ascii -> bool) (s : string) : bool :=
  match s with
  | EmptyString => false
  | String c rest => p c || has_char p rest
  end.

Lemma lower_char_not_upper c : is_upper (lower_char c) = false.
Proof. destruct c as [[] [] [] [] [] [] [] []]; reflexivity. Qed.

Lemma lower_char_fix c : is_upper c = false -> lower_char c = c.
Proof. unfold lower_char; intros ->; reflexivity. Qed.

Lemma lower_char_slash c :
  Ascii.eqb c slash = false -> Ascii.eqb (lower_char c) slash = false.
Proof. destruct c as [[] [] [] [] [] [] [] []]; intros H; try reflexivity; discriminate H. Qed.

Lemma has_upper_lower s : has_char is_upper (lower s) = false.
Proof.
  unfold lower; induction s as [|c s IH]; cbn; [reflexivity|].
  rewrite lower_char_not_upper, IH; reflexivity.
Qed.

Lemma lower_fix s : has_char is_upper s = false -> lower s = s.
Proof.
  unfold lower; induction s as [|c s IH]; cbn; [reflexivity|].
  intros H; apply orb_false_iff in H as [Hc Hs].
  rewrite lower_char_fix, IH by assumption; reflexivity.
Qed.

Lemma camel_case_sub_fix s :
  has_char is_upper s = false -> forall prev, camel_case_sub prev s = s.
Proof.
  induction s as [|c s IH]; cbn; [reflexivity|].
  intros H prev; apply orb_false_iff in H as [Hc Hs].
  unfold _CAMEL_CASE_RE; rewrite Hc; cbn.
  rewrite IH by assumption; reflexivity.
Qed.

Definition is_slash (c : ascii) : bool := Ascii.eqb c slash.

Lemma replace_char_fix s :
  has_char is_slash s = false -> replace_char slash underscore s = s.
Proof.
  unfold replace_char; induction s as [|c s IH]; cbn; [reflexivity|].
  intros H; apply orb_false_iff in H as [Hc Hs].
  unfold is_slash in Hc; rewrite Hc, IH by assumption; reflexivity.
Qed.

Lemma no_slash_replace s :
  has_char is_slash (replace_char slash underscore s) = false.
Proof.
  unfold replace_char; induction s as [|c s IH]; cbn; [reflexivity|].
  rewrite IH, orb_false_r.
  unfold is_slash; destruct (Ascii.eqb c slash) eqn:E; [reflexivity|exact E].
Qed.

Lemma no_slash_camel s :
  has_char is_slash s = false ->
  forall prev, has_char is_slash (camel_case_sub prev s) = false.
Proof.
  induction s as [|c s IH]; cbn; [reflexivity|].
  intros H prev; apply orb_false_iff in H as [Hc Hs].
  destruct (_CAMEL_CASE_RE prev c s); cbn; rewrite Hc, IH by assumption;
    reflexivity.
Qed.

Lemma no_slash_lower s :
  has_char is_slash s = false -> has_char is_slash (lower s) = false.
Proof.
  unfold lower; induction s as [|c s IH]; cbn; [reflexivity|].
  intros H; apply orb_false_iff in H as [Hc Hs].
  unfold is_slash in *; rewrite lower_char_slash by assumption.
  apply IH; assumption.
Qed.

Lemma split_nonempty sep s : split sep s <> [].
Proof.
  destruct s as [|c s]; simpl; [discriminate|].
  destruct (Ascii.eqb c sep); [discriminate|].
  destruct (split sep s); discriminate.
Qed.

Lemma join_cons sep w w' ws :
  join sep (w :: w' :: ws) = w +:+ sep +:+ join sep (w' :: ws).
Proof. reflexivity. Qed.

(** ["_".join(s.split("_")) == s] *)
Lemma join_split s : join "_" (split underscore s) = s.
Proof.
  induction s as [|c s IH]; simpl; [reflexivity|].
  destruct (Ascii.eqb c underscore) eqn:E.
  - apply Ascii.eqb_eq in E; subst c.
    destruct (split underscore s) as [|w ws] eqn:Es;
      [exfalso; exact (split_nonempty _ _ Es)|].
    rewrite join_cons, IH; reflexivity.
  - destruct (split underscore s) as [|w ws] eqn:Es;
      [exfalso; exact (split_nonempty _ _ Es)|].
    destruct ws as [|w' ws].
    + simpl in *; rewrite IH; reflexivity.
    + rewrite join_cons in *. rewrite <- IH. reflexivity.
Qed.

(** C9. For every identifier [x], segmenting the underscore-rejoin of the
    segmentation of [x] gives the segmentation of [x]:
    [segment("_".join(segment(x))) == segment(x)]. *)
Theorem segment_name_rejoin_idempotent (x : string) :
  _segment_name (join "_" (_segment_name x)) = _segment_name x.
Proof.
  unfold _segment_name at 2 3.
  rewrite join_split.
  set (y := lower (camel_case_sub None (replace_char slash underscore x))).
  assert (Hup : has_char is_upper y = false) by apply has_upper_lower.
  assert (Hsl : has_char is_slash y = false)
    by (apply no_slash_lower, no_slash_camel, no_slash_replace).
  unfold _segment_name.
  rewrite (replace_char_fix y Hsl), (camel_case_sub_fix y Hup), (lower_fix y Hup).
  reflexivity.
Qed.

(** ** Failure

    The generator aborts by raising: [IndexError] from indexing an empty
    string, [NotImplementedError] for a default on a struct-typed field
    and [AssertionError] from its [assert] statements. *)

Inductive exn := IndexError | NotImplementedError | AssertionError.

Inductive result (A : Type) : Type :=
| Ok (a : A)
| Raise (e : exn).
Arguments Ok {A} a.
Arguments Raise {A} e.

Definition bind {A B} (m : result A) (k : A -> result B) : result B :=
  match m with
  | Ok a => k a
  | Raise e => Raise e
  end.

Notation "'let*' x ':=' m 'in' k" := (bind m (fun x => k))
  (at level 10, x pattern, m at level 100, k at level 200).

(** [[f(x) for x in xs]] for a fallible [f]. *)
Fixpoint for_each {A B} (f : A -> result B) (xs : list A) : result (list B) :=
  match xs with
  | [] => Ok []
  | x :: rest =>
      let* y := f x in
      let* ys := for_each f rest in
      Ok (y :: ys)
  end.

(** ** The type model handed over by the schema loader (babelapi) *)

Inductive number :=
| Int (value : Z)
| Float (repr : string).

Inductive NumericKind := Int32 | UInt32 | Int64 | UInt64 | Float32 | Float64.

Inductive DataType :=
| Void
| Boolean
| Numeric (kind : NumericKind) (min_value max_value : option number)
| String_ (min_length max_length : option Z) (pattern : option string)
| Binary
| Timestamp
| List (data_type : DataType) (min_items max_items : option Z)
| Nullable (data_type : DataType)
| StructRef (name namespace : string)
| UnionRef (name namespace : string).

(** A declared default: a Python literal or a reference to a union tag.
    [repr] is what [str.format] prints for the tag reference object. *)
Inductive literal :=
| LNone
| LBool (b : bool)
| LNum (n : number)
| LStr (s : string)
| TagRef (union_data_type tag_name repr : string).

Record Field := {
  name : string;
  data_type : DataType;
  default : option literal;
  doc : option string;
}.

Definition has_default (field : Field) : bool :=
  match default field with Some _ => true | None => false end.

(** An entry of a struct's list of enumerated subtypes: the tag and the
    subtype, referred to by name. *)
Record Subtype := {
  subtype_name : string;
  subtype_data_type : DataType;
}.

#[warnings="-register-all"]
Inductive Struct := {
  struct_name : string;
  struct_namespace : string;
  struct_doc : option string;
  fields : list Field;
  parent_type : option Struct;
  enumerated_subtypes : list Subtype;
  is_catch_all : bool;
}.

(** [struct.has_enumerated_subtypes()]: the struct declares a closed
    family of subtypes, listed by [get_enumerated_subtypes]. *)
Definition has_enumerated_subtypes (struct : Struct) : bool :=
  match enumerated_subtypes struct with [] => false | _ => true end.

Definition get_enumerated_subtypes (struct : Struct) : list Subtype :=
  enumerated_subtypes struct.

(** [struct.all_fields]: the parent's [all_fields], then the own fields. *)
Fixpoint all_fields (struct : Struct) : list Field :=
  match parent_type struct with
  | Some parent => all_fields parent ++ fields struct
  | None => fields struct
  end.

Record UnionField := {
  union_field_name : string;
  union_field_data_type : DataType;
  union_field_doc : option string;
}.

Record Union := {
  union_name : string;
  union_namespace : string;
  union_doc : option string;
  union_fields : list UnionField;
  catch_all_field : option UnionField;
}.

Definition is_nullable_type (t : DataType) : bool :=
  match t with Nullable _ => true | _ => false end.
Definition is_list_type (t : DataType) : bool :=
  match t with List _ _ _ => true | _ => false end.
Definition is_string_type (t : DataType) : bool :=
  match t with String_ _ _ _ => true | _ => false end.
Definition is_binary_type (t : DataType) : bool :=
  match t with Binary => true | _ => false end.
Definition is_boolean_type (t : DataType) : bool :=
  match t with Boolean => true | _ => false end.
Definition is_numeric_type (t : DataType) : bool :=
  match t with Numeric _ _ _ => true | _ => false end.
Definition is_timestamp_type (t : DataType) : bool :=
  match t with Timestamp => true | _ => false end.
Definition is_void_type (t : DataType) : bool :=
  match t with Void => true | _ => false end.
Definition is_struct_type (t : DataType) : bool :=
  match t with StructRef _ _ => true | _ => false end.
Definition is_union_type (t : DataType) : bool :=
  match t with UnionRef _ _ => true | _ => false end.
Definition is_composite_type (t : DataType) : bool :=
  is_struct_type t || is_union_type t.
Definition is_tag_ref (l : option literal) : bool :=
  match l with Some (TagRef _ _ _) => true | _ => false end.

(** [t.data_type] of a nullable or list type. *)
Definition inner_type (t : DataType) : DataType :=
  match t with
  | Nullable t' => t'
  | List t' _ _ => t'
  | _ => t
  end.

(** The object identity [subtype.data_type is struct]: names are unique
    within a namespace. *)
Definition is_struct (t : DataType) (struct : Struct) : bool :=
  match t with
  | StructRef n ns =>
      bool_decide (n = struct_name struct)
      && bool_decide (ns = struct_namespace struct)
  | _ => false
  end.

(** [union.catch_all_field == field]: field names are unique in a union. *)
Definition is_catch_all_field (union : Union) (field : UnionField) : bool :=
  match catch_all_field union with
  | Some f => bool_decide (union_field_name f = union_field_name field)
  | None => false
  end.

(** ** Text formatting *)

Definition dquote : string := String "034"%char EmptyString.

Definition quoted (s : string) : string := dquote +:+ s +:+ dquote.

Definition format_int (z : Z) : string :=
  NilZero.string_of_int (Z.to_int z).

Definition format_number (n : number) : string :=
  match n with
  | Int z => format_int z
  | Float repr => repr
  end.

(** ['{0}'.format(literal)] *)
Definition format_literal (l : literal) : string :=
  match l with
  | LNone => "None"
  | LBool true => "True"
  | LBool false => "False"
  | LNum n => format_number n
  | LStr s => s
  | TagRef _ _ repr => repr
  end.

(** [s.replace(old, new)] for a one-character [old]. *)
Fixpoint replace (old : ascii) (new : string) (s : string) : string :=
  match s with
  | EmptyString => EmptyString
  | String c rest =>
      if Ascii.eqb c old then new +:+ replace old new rest
      else String c (replace old new rest)
  end.

Definition startswith (s : string) (c : ascii) : bool :=
  match s with
  | String c' _ => Ascii.eqb c' c
  | EmptyString => false
  end.

(** ** Emitted code

    The text writer of babelapi's [CodeGenerator] is an external
    collaborator.  The emitted unit is recorded as the tree of the writer
    calls the generator makes: each constructor is one method of the
    generator's emission interface, holding the arguments it was called
    with and, for a context manager, what was emitted inside it. *)

#[warnings="-register-all"]
Inductive code :=
| Emit (text : string)                       (* self.emit(text) *)
| EmitWrappedText (text : string)            (* self.emit_wrapped_text(text) *)
| EmitSummary (text : string)                (* self.emit_summary(text) *)
| EmitXml (text : option string) (tag : string)
    (attrs : list (string * string))         (* self.emit_xml(doc, tag, **attrs) *)
| GenerateMultilineList (items : list string) (before : string)
    (* self.generate_multiline_list(items, before=.., skip_last_sep=True) *)
| CsBlock (before : option string) (body : list code)
| Indent (body : list code)
| If_ (condition : string) (body : list code)
| ElseIf (condition : string) (body : list code)
| Else_ (body : list code)
| Using (declaration : string) (body : list code)
| Class_ (class_name : string) (inherits : list string) (access : string)
    (body : list code)
| Region (label : string) (body : list code)
| DocComment (body : list code)
| Switch (expression : string) (body : list code)
| Case (constant : option string) (needs_break : bool) (body : list code).

(** The [before] text each block-shaped context manager hands to
    [cs_block]. *)
Definition before_text (c : code) : option string :=
  match c with
  | CsBlock before _ => before
  | If_ condition _ => Some ("if (" +:+ condition +:+ ")")
  | ElseIf condition _ => Some ("else if (" +:+ condition +:+ ")")
  | Else_ _ => Some "else"
  | Using declaration _ => Some ("using (" +:+ declaration +:+ ")")
  | Class_ class_name inherits access _ =>
      Some (join " "
              ((if bool_decide (access = EmptyString) then [] else [access])
               ++ ["class"; class_name]
               ++ match inherits with
                  | [] => []
                  | _ => [":"; join ", " inherits]
                  end))
  | _ => None
  end.

(** [self.emit()] *)
Definition emit_blank : code := Emit EmptyString.

(** [self.emit_ctor_summary(class_name)] *)
Definition emit_ctor_summary (class_name : string) : code :=
  EmitSummary ("Initializes a new instance of the <see cref=" +:+
               quoted class_name +:+ " /> class.").

(** ** Generator state *)

Record CSharpGenerator := {
  _ns : string;
  _name_list : list (list string);
  _prevent_collisions : gset string;
  _related_types : gmap string (gset string);
}.

Definition DEFAULT_NAMESPACE : string := "Dropbox.Api.".

Definition _CSHARP_KEYWORDS : gset string := list_to_set [
  "abstract"; "add"; "alias"; "as"; "ascending"; "async"; "await";
  "base"; "bool"; "break"; "byte"; "case"; "catch"; "char"; "checked";
  "class"; "const"; "continue"; "decimal"; "default"; "delegate";
  "descending"; "do"; "double"; "dynamic"; "else"; "enum"; "event";
  "explicit"; "extern"; "false"; "finally"; "fixed"; "float"; "for";
  "foreach"; "from"; "get"; "global"; "goto"; "group"; "if"; "implicit";
  "in"; "int"; "interface"; "internal"; "into"; "is"; "join"; "let";
  "lock"; "long"; "namespace"; "new"; "null"; "object"; "operator";
  "orderby"; "out"; "override"; "params"; "partial"; "private";
  "protected"; "public"; "readonly"; "ref"; "remove"; "return"; "sbyte";
  "sealed"; "select"; "set"; "short"; "sizeof"; "stackalloc"; "static";
  "string"; "struct"; "switch"; "this"; "throw"; "true"; "try"; "typeof";
  "uint"; "ulong"; "unchecked"; "unsafe"; "ushort"; "using"; "value";
  "var"; "virtual"; "void"; "volatile"; "where"; "while"; "yield"
].

(** [public[0].lower() + public[1:]] raises [IndexError] on an empty
    public name. *)
Definition _arg_name (name : string) : result string :=
  match _public_name name with
  | EmptyString => Raise IndexError
  | String c rest =>
      let arg_name := String (lower_char c) rest in
      if bool_decide (arg_name ∈ _CSHARP_KEYWORDS)
      then Ok ("@" +:+ arg_name)
      else Ok arg_name
  end.

(** The scope manager [_local_names]: the names are pushed, the body runs
    with the collision set recomputed, and on normal exit the names are
    popped and the set recomputed again.  An exception in the body leaves
    the manager without restoring (there is no [try]/[finally]). *)
Definition chain_names (name_list : list (list string)) : gset string :=
  list_to_set (concat name_list).

Definition push_names (self : CSharpGenerator) (names : list string)
  : CSharpGenerator :=
  let name_list := _name_list self ++ [names] in
  {| _ns := _ns self;
     _name_list := name_list;
     _prevent_collisions := chain_names name_list;
     _related_types := _related_types self |}.

Definition pop_names (self : CSharpGenerator) : CSharpGenerator :=
  let name_list := removelast (_name_list self) in
  {| _ns := _ns self;
     _name_list := name_list;
     _prevent_collisions := chain_names name_list;
     _related_types := _related_types self |}.

Definition _local_names {A} (names : list string)
    (body : CSharpGenerator -> result (A * CSharpGenerator))
    (self : CSharpGenerator) : result (A * CSharpGenerator) :=
  let* (a, self') := body (push_names self names) in
  Ok (a, pop_names self').

(** ** Type mapper *)

(** The branches of [_typename] once the nullable layer is taken off;
    [typename] is [self._typename] for the element type of a list. *)
Definition typename_of (self : CSharpGenerator)
    (typename : DataType -> result string)
    (nullable : bool) (data_type : DataType)
    (void : option string) (is_property : bool) : result string :=
  match data_type with
  | StructRef name namespace | UnionRef name namespace =>
      let public := _public_name name in
      let type_ns := _public_name namespace in
      let public :=
        if bool_decide (type_ns <> _ns self)
        then type_ns +:+ "." +:+ public else public in
      if bool_decide (public ∈ _prevent_collisions self)
      then Ok (DEFAULT_NAMESPACE +:+ _ns self +:+ "." +:+ public)
      else Ok public
  | List element _ _ =>
      let* element_type := typename element in
      if is_property
      then Ok ("col.IList<" +:+ element_type +:+ ">")
      else Ok ("col.IEnumerable<" +:+ element_type +:+ ">")
  | String_ _ _ _ => Ok "string"
  | Binary => Ok "byte[]"
  | _ =>
      let suffix := if nullable then "?" else EmptyString in
      match data_type with
      | Boolean => Ok ("bool" +:+ suffix)
      | Numeric Int32 _ _ => Ok ("int" +:+ suffix)
      | Numeric UInt32 _ _ => Ok ("uint" +:+ suffix)
      | Numeric Int64 _ _ => Ok ("long" +:+ suffix)
      | Numeric UInt64 _ _ => Ok ("ulong" +:+ suffix)
      | Numeric Float32 _ _ => Ok ("float" +:+ suffix)
      | Numeric Float64 _ _ => Ok ("double" +:+ suffix)
      | Timestamp => Ok ("sys.DateTime" +:+ suffix)
      | Void =>
          match void with
          | Some v => if bool_decide (v = EmptyString) then Ok "void" else Ok v
          | None => Ok "void"
          end
      | _ => Raise AssertionError
      end
  end.

Fixpoint _typename_full (self : CSharpGenerator) (data_type : DataType)
    (void : option string) (is_property : bool) : result string :=
  match data_type with
  | Nullable inner =>
      typename_of self (fun t => _typename_full self t None false)
        true inner void is_property
  | _ =>
      typename_of self (fun t => _typename_full self t None false)
        false data_type void is_property
  end.

(** [self._typename(data_type)] with the keyword arguments defaulted. *)
Definition _typename (self : CSharpGenerator) (data_type : DataType)
  : result string :=
  _typename_full self data_type None false.

(** ** Constraint and default compiler *)

Definition _process_literal (l : literal) : literal :=
  match l with
  | LBool b => LStr (if b then "true" else "false")
  | _ => l
  end.

Definition _type_literal_suffix (data_type : DataType) : string :=
  match data_type with
  | Numeric Int32 _ _ => EmptyString
  | Numeric UInt32 _ _ => "U"
  | Numeric Int64 _ _ => "L"
  | Numeric UInt64 _ _ => "UL"
  | Numeric Float32 _ _ => "F"
  | Numeric Float64 _ _ => "D"
  | _ => EmptyString
  end.

Definition _could_be_null (data_type : DataType) : bool :=
  is_composite_type data_type || is_string_type data_type
  || is_list_type data_type.

Definition _verbatim_string (s : string) : string :=
  "@" +:+ dquote +:+ replace "034"%char (dquote +:+ dquote) s +:+ dquote.

Definition throw_null (name : string) : code :=
  Emit ("throw new sys.ArgumentNullException(" +:+ quoted name +:+ ");").

Definition throw_out_of_range (name : string) : code :=
  Emit ("throw new sys.ArgumentOutOfRangeException(" +:+ quoted name +:+ ");").

Definition throw_invalid_operation : code :=
  Emit "throw new sys.InvalidOperationException();".

Definition _process_union_default (self : CSharpGenerator) (field : Field)
    (include_null_check : bool) : result (list code) :=
  match default field with
  | Some (TagRef union default _) =>
      let* arg_name :=
        if include_null_check then _arg_name (name field)
        else Ok ("this." +:+ _public_name (name field)) in
      let assign_default :=
        arg_name +:+ " = " +:+ _public_name union +:+ "." +:+
        _public_name default +:+ ".Instance;" in
      if include_null_check
      then Ok [If_ (arg_name +:+ " == null") [Emit assign_default]]
      else Ok [Emit assign_default]
  | _ => Raise AssertionError
  end.

Definition _process_composite_default (self : CSharpGenerator)
    (field : Field) (include_null_check : bool) : result (list code) :=
  if is_struct_type (data_type field) then Raise NotImplementedError
  else if is_union_type (data_type field)
  then _process_union_default self field include_null_check
  else Raise AssertionError.

Definition optional_check (bound : option string) (check : string -> string)
  : list string :=
  match bound with
  | Some b => [check b]
  | None => []
  end.

Definition _check_constraints (self : CSharpGenerator) (name : string)
    (data_type : DataType) (has_null_check : bool) : result (list code) :=
  let nullable := is_nullable_type data_type in
  let data_type := if nullable then inner_type data_type else data_type in
  let* (declared, checks) :=
    match data_type with
    | Numeric _ min_value max_value =>
        let suffix := _type_literal_suffix data_type in
        Ok ([],
            optional_check (format_number <$> min_value)
              (fun v => name +:+ " < " +:+ v +:+ suffix)
            ++ optional_check (format_number <$> max_value)
              (fun v => name +:+ " > " +:+ v +:+ suffix))
    | String_ min_length max_length pattern =>
        Ok ([],
            optional_check (format_int <$> min_length)
              (fun v => name +:+ ".Length < " +:+ v)
            ++ optional_check (format_int <$> max_length)
              (fun v => name +:+ ".Length > " +:+ v)
            ++ optional_check (_verbatim_string <$> pattern)
              (fun v => "!re.Regex.IsMatch(" +:+ name +:+ ", " +:+ v +:+ ")"))
    | List element min_items max_items =>
        let listName := name +:+ "List" in
        let* element_type := _typename self element in
        Ok ([Emit ("var " +:+ listName +:+ " = new col.List<" +:+
                   element_type +:+ ">(" +:+ name +:+ " ?? new " +:+
                   element_type +:+ "[0]);");
             emit_blank],
            optional_check (format_int <$> min_items)
              (fun v => listName +:+ ".Count < " +:+ v)
            ++ optional_check (format_int <$> max_items)
              (fun v => listName +:+ ".Count > " +:+ v))
    | _ => Ok ([], [])
    end in
  let pre_check :=
    if nullable then name +:+ " != null && (" else EmptyString in
  let post_check := if nullable then ")" else EmptyString in
  let reference := negb nullable && _could_be_null data_type in
  let null_check :=
    if reference && negb has_null_check
    then [If_ (name +:+ " == null") [throw_null name]]
    else [] in
  let control := if reference then ElseIf else If_ in
  let range_check :=
    match checks with
    | [] => []
    | _ => [control (pre_check +:+ join " || " checks +:+ post_check)
              [throw_out_of_range name]]
    end in
  let need_emit :=
    reference || match checks with [] => false | _ => true end in
  Ok (declared ++ null_check ++ range_check
      ++ if need_emit then [emit_blank] else []).

(** ** Field encoders and decoders *)

Definition _emit_encoder (self : CSharpGenerator) (field : Field)
  : result (list code) :=
  let field_public_name := _public_name (name field) in
  let nullable := is_nullable_type (data_type field) in
  let data_type' :=
    if nullable then inner_type (data_type field) else data_type field in
  let null_block (body : list code) : list code :=
    if nullable
    then if is_list_type data_type'
         then [If_ ("this." +:+ field_public_name +:+ ".Count > 0") body]
         else [If_ ("this." +:+ field_public_name +:+ " != null") body]
    else body in
  let* field_type := _typename self data_type' in
  let* body :=
    if is_composite_type data_type'
    then Ok [Emit ("obj.AddFieldObject<" +:+ field_type +:+ ">(" +:+
                   quoted (name field) +:+ ", this." +:+
                   field_public_name +:+ ");")]
    else if is_list_type data_type'
    then
      let* element_type := _typename self (inner_type data_type') in
      if is_composite_type (inner_type data_type')
      then Ok [Emit ("obj.AddFieldObjectList<" +:+ element_type +:+ ">(" +:+
                     quoted (name field) +:+ ", this." +:+
                     field_public_name +:+ ");")]
      else Ok [Emit ("obj.AddFieldList<" +:+ element_type +:+ ">(" +:+
                     quoted (name field) +:+ ", this." +:+
                     field_public_name +:+ ");")]
    else if nullable && negb (is_string_type (inner_type (data_type field)))
    then Ok [Emit ("obj.AddField<" +:+ field_type +:+ ">(" +:+
                   quoted (name field) +:+ ", this." +:+
                   _public_name (name field) +:+ ".Value);")]
    else Ok [Emit ("obj.AddField<" +:+ field_type +:+ ">(" +:+
                   quoted (name field) +:+ ", this." +:+
                   _public_name (name field) +:+ ");")] in
  Ok (null_block body).

(** [_get_decoder_method] reads only the name and type of its argument,
    so it serves struct fields and union fields alike. *)
Definition _get_decoder_method (self : CSharpGenerator)
    (field_name : string) (field_data_type : DataType) : result string :=
  let data_type :=
    if is_nullable_type field_data_type
    then inner_type field_data_type else field_data_type in
  let* generic_type := _typename self data_type in
  let* (generic_type, method) :=
    if is_composite_type data_type then Ok (generic_type, "GetFieldObject")
    else if is_list_type data_type
    then
      let* generic_type := _typename self (inner_type data_type) in
      if is_composite_type (inner_type data_type)
      then Ok (generic_type, "GetFieldObjectList")
      else Ok (generic_type, "GetFieldList")
    else Ok (generic_type, "GetField") in
  if is_list_type data_type
  then Ok ("new col.List<" +:+ generic_type +:+ ">(obj." +:+ method +:+ "<" +:+
           generic_type +:+ ">(" +:+ quoted field_name +:+ "))")
  else Ok ("obj." +:+ method +:+ "<" +:+ generic_type +:+ ">(" +:+
           quoted field_name +:+ ")").

Definition _emit_decoder (self : CSharpGenerator) (field : Field)
  : result (list code) :=
  let field_public_name := _public_name (name field) in
  let nullable := is_nullable_type (data_type field) in
  let guarded := nullable || has_default field in
  let data_type' :=
    if guarded
    then if nullable then inner_type (data_type field) else data_type field
    else data_type field in
  let* method := _get_decoder_method self (name field) (data_type field) in
  let assign := Emit ("this." +:+ field_public_name +:+ " = " +:+ method +:+ ";") in
  if guarded
  then
    let* otherwise :=
      if is_list_type data_type'
      then
        let* element_type := _typename self (inner_type data_type') in
        Ok [Else_ [Emit ("this." +:+ field_public_name +:+
                         " = new col.List<" +:+ element_type +:+ ">();")]]
      else Ok [] in
    Ok (If_ ("obj.HasField(" +:+ quoted (name field) +:+ ")") [assign]
        :: otherwise)
  else Ok [assign].

(** ** Struct synthesizer *)

Record ConstructorArg := {
  arg_type : string;
  arg_name : string;
  arg : string;
  arg_doc : string;
}.

(** [text or alternative] on an optional documentation string. *)
Definition or_else (text : option string) (alternative : string) : string :=
  match text with
  | Some (String c rest) => String c rest
  | _ => alternative
  end.

(** [enumerate(xs)] *)
Definition enumerate {A} (xs : list A) : list (nat * A) := imap pair xs.

(** The documentation text of an argument goes through the external
    [process_doc]; the text recorded here is the one handed to it. *)
Definition _make_struct_constructor_args (self : CSharpGenerator)
    (struct : Struct) : result (list ConstructorArg) :=
  for_each (fun field =>
    let* fieldtype := _typename self (data_type field) in
    let* arg_name := _arg_name (name field) in
    let doc_name :=
      if startswith arg_name "@"
      then match arg_name with String _ rest => rest | _ => arg_name end
      else arg_name in
    let arg :=
      match default field with
      | Some literal =>
          if is_composite_type (data_type field)
          then fieldtype +:+ " " +:+ arg_name +:+ " = null"
          else fieldtype +:+ " " +:+ arg_name +:+ " = " +:+
               format_literal (_process_literal literal)
      | None =>
          if is_nullable_type (data_type field)
          then fieldtype +:+ " " +:+ arg_name +:+ " = null"
          else fieldtype +:+ " " +:+ arg_name
      end in
    let doc := or_else (doc field) ("The " +:+ _name_words (name field)) in
    let doc :=
      "<param name=" +:+ quoted doc_name +:+ ">" +:+ doc +:+ "</param>" in
    Ok {| arg_type := fieldtype; arg_name := arg_name; arg := arg;
          arg_doc := doc |})
    (all_fields struct).

Definition is_empty {A} (xs : list A) : bool :=
  match xs with [] => true | _ => false end.

(** The access modifier chosen for the initializing constructor. *)
Definition ctor_access (struct : Struct) (ctor_args : list ConstructorArg)
  : string :=
  if has_enumerated_subtypes struct && negb (is_empty ctor_args)
  then "protected" else "public".

(** First loop of the constructor body: defaults and constraints of one
    field. *)
Definition init_ctor_field_checks (self : CSharpGenerator)
    (parent_type_fields : gset string) (field : Field)
  : result (list code) :=
  if bool_decide (name field ∈ parent_type_fields) then Ok []
  else
    let* (defaulting, has_null_check) :=
      if has_default field && is_composite_type (data_type field)
      then
        let* emitted := _process_composite_default self field true in
        Ok (emitted, true)
      else Ok ([], false) in
    let* arg_name := _arg_name (name field) in
    let* checks :=
      _check_constraints self arg_name (data_type field) has_null_check in
    Ok (defaulting ++ checks).

(** Second loop of the constructor body: the assignment of one field. *)
Definition init_ctor_field_assign (parent_type_fields : gset string)
    (field : Field) : result (list code) :=
  if bool_decide (name field ∈ parent_type_fields) then Ok []
  else
    let field_public_name := _public_name (name field) in
    let* field_arg_name := _arg_name (name field) in
    if is_list_type (data_type field)
       || (is_nullable_type (data_type field)
           && is_list_type (inner_type (data_type field)))
    then Ok [Emit ("this." +:+ field_public_name +:+ " = " +:+
                   field_arg_name +:+ "List;")]
    else Ok [Emit ("this." +:+ field_public_name +:+ " = " +:+
                   field_arg_name +:+ ";")].

Definition init_ctor_body (self : CSharpGenerator) (struct : Struct)
    (parent_type_fields : gset string) : result (list code) :=
  let* checks :=
    for_each (init_ctor_field_checks self parent_type_fields)
      (all_fields struct) in
  let* assigns :=
    for_each (init_ctor_field_assign parent_type_fields)
      (all_fields struct) in
  Ok (concat checks ++ concat assigns).

Definition _generate_struct_init_ctor (self : CSharpGenerator)
    (struct : Struct) (class_name : string) (parent_type : option Struct)
    (parent_type_fields : gset string) : result (list code) :=
  let* ctor_args := _make_struct_constructor_args self struct in
  let* super_args :=
    match parent_type with
    | Some parent => _make_struct_constructor_args self parent
    | None => Ok []
    end in
  let* body := init_ctor_body self struct parent_type_fields in
  Ok ([DocComment (emit_ctor_summary class_name
                   :: map (fun item => EmitWrappedText (arg_doc item))
                        ctor_args);
       GenerateMultilineList (map arg ctor_args)
         (ctor_access struct ctor_args +:+ " " +:+ class_name)]
      ++ (if is_empty super_args then []
          else [Indent [Emit (": base(" +:+
                              join ", " (map arg_name super_args) +:+ ")")]])
      ++ [CsBlock None body]).

(** What the zero-argument constructor emits for one field. *)
Definition default_ctor_field (self : CSharpGenerator)
    (parent_type_fields : gset string) (field : Field)
  : result (list code) :=
  if bool_decide (name field ∈ parent_type_fields) then Ok []
  else
    match default field with
    | Some literal =>
        if is_composite_type (data_type field)
        then _process_composite_default self field false
        else Ok [Emit ("this." +:+ _public_name (name field) +:+ " = " +:+
                       format_literal (_process_literal literal) +:+ ";")]
    | None => Ok []
    end.

Definition default_ctor_body (self : CSharpGenerator) (struct : Struct)
    (parent_type_fields : gset string) : result (list code) :=
  let* emitted :=
    for_each (default_ctor_field self parent_type_fields)
      (all_fields struct) in
  Ok (concat emitted).

Definition _generate_struct_default_ctor (self : CSharpGenerator)
    (struct : Struct) (class_name : string)
    (parent_type_fields : gset string) : result (list code) :=
  if is_empty (all_fields struct) then Raise AssertionError
  else
    let* body := default_ctor_body self struct parent_type_fields in
    Ok [emit_blank;
        DocComment [emit_ctor_summary class_name;
                    EmitXml (Some ("This is to construct an instance of " +:+
                                   "the object when deserializing."))
                      "remarks" []];
        CsBlock (Some ("public " +:+ class_name +:+ "()")) body].

Definition _generate_struct_strunion_is_as (self : CSharpGenerator)
    (struct : Struct) : result (list code) :=
  if negb (has_enumerated_subtypes struct) then Raise AssertionError
  else
    let* emitted :=
      for_each (fun subtype =>
        let* subtype_type := _typename self (subtype_data_type subtype) in
        let subtype_name := _public_name (subtype_name subtype) in
        Ok [emit_blank;
            DocComment [EmitSummary ("Gets a value indicating whether " +:+
                                     "this instance is " +:+ subtype_name)];
            CsBlock (Some ("public bool Is" +:+ subtype_name))
              [CsBlock (Some "get")
                 [Emit ("return this is " +:+ subtype_type +:+ ";")]];
            emit_blank;
            DocComment [EmitSummary ("Gets this instance as a <see cref=" +:+
                                     quoted subtype_type +:+
                                     " />, or <c>null</c>.")];
            CsBlock (Some ("public " +:+ subtype_type +:+ " As" +:+
                           subtype_name))
              [CsBlock (Some "get")
                 [Emit ("return this as " +:+ subtype_type +:+ ";")]]])
        (get_enumerated_subtypes struct) in
    Ok (concat emitted).

Definition _generate_struct_properties (self : CSharpGenerator)
    (struct : Struct) (parent_type_fields : gset string)
  : result (list code) :=
  let* emitted :=
    for_each (fun field =>
      if bool_decide (name field ∈ parent_type_fields) then Ok []
      else
        let doc :=
          or_else (doc field)
            ("Gets the " +:+ _name_words (name field) +:+ " of the " +:+
             _name_words (struct_name struct)) in
        let* fieldtype := _typename_full self (data_type field) None true in
        let setter_access :=
          if has_enumerated_subtypes struct then "protected" else "private" in
        Ok [emit_blank;
            DocComment [EmitSummary doc];
            Emit ("public " +:+ fieldtype +:+ " " +:+
                  _public_name (name field) +:+ " { get; " +:+
                  setter_access +:+ " set; }")])
      (all_fields struct) in
  Ok (concat emitted).

Definition _get_struct_tag (struct : Struct) : option string :=
  match parent_type struct with
  | Some parent =>
      if has_enumerated_subtypes parent
      then subtype_name <$>
           List.find (fun subtype =>
                        is_struct (subtype_data_type subtype) struct)
             (get_enumerated_subtypes parent)
      else None
  | None => None
  end.

Definition emit_encode_doc_comment : code :=
  DocComment [EmitSummary "Encodes the object using the supplied encoder.";
              EmitXml (Some "The encoder being used to serialize the object.")
                "param" [("name", "encoder")]].

Definition emit_decode_doc_comment : code :=
  DocComment [EmitSummary "Decodes on object using the supplied decoder.";
              EmitXml (Some "The decoder used to deserialize the object.")
                "param" [("name", "decoder")];
              EmitXml (Some ("The deserialized object. Note: this is not " +:+
                             "necessarily the current instance."))
                "returns" []].

Definition emit_explicit_interface_suppress : code :=
  Emit ("[System.Diagnostics.CodeAnalysis.SuppressMessage(" +:+
        quoted "Microsoft.Design" +:+ ", " +:+
        quoted "CA1033:InterfaceMethodsShouldBeCallableByChildTypes" +:+ ")]").

Definition add_tag_field (tag : string) : code :=
  Emit ("obj.AddField<string>(" +:+ quoted ".tag" +:+ ", " +:+ quoted tag +:+ ");").

Definition encode_fields (self : CSharpGenerator) (fields : list Field)
  : result (list code) :=
  let* emitted := for_each (_emit_encoder self) fields in
  Ok (concat emitted).

Definition decode_fields (self : CSharpGenerator) (fields : list Field)
  : result (list code) :=
  let* emitted := for_each (_emit_decoder self) fields in
  Ok (concat emitted).

(** The branch of the root's Encode that hands over to one subtype. *)
Definition struct_encode_branch (self : CSharpGenerator)
    (indexed : nat * Subtype) : result code :=
  let (index, subtype) := indexed in
  let cond := match index with O => If_ | _ => ElseIf end in
  let subtype_public_name := _public_name (subtype_name subtype) in
  let* subtype_typename := _typename self (subtype_data_type subtype) in
  Ok (cond ("this.Is" +:+ subtype_public_name)
        [Emit ("((enc.IEncodable<" +:+ subtype_typename +:+ ">)this.As" +:+
               subtype_public_name +:+ ").Encode(encoder);")]).

(** Body of the generated [Encode] of a struct. *)
Definition struct_encode_body (self : CSharpGenerator) (struct : Struct)
    (parent_type_fields : gset string) : result (list code) :=
  if has_enumerated_subtypes struct
  then
    let* branches :=
      for_each (struct_encode_branch self)
        (enumerate (get_enumerated_subtypes struct)) in
    let* otherwise :=
      if negb (is_catch_all struct) then Ok [throw_invalid_operation]
      else
        let tag := _get_struct_tag struct in
        let* encoders := encode_fields self (all_fields struct) in
        Ok [Using "var obj = encoder.AddObject()"
              (add_tag_field (from_option id EmptyString tag) :: encoders)] in
    Ok (branches ++ [Else_ otherwise])
  else if match parent_type struct with
          | Some parent => has_enumerated_subtypes parent
          | None => false
          end
  then
    match _get_struct_tag struct with
    | None => Raise AssertionError
    | Some tag =>
        let* encoders := encode_fields self (all_fields struct) in
        Ok [Using "var obj = encoder.AddObject()"
              (add_tag_field tag :: encoders)]
    end
  else
    let* encoders :=
      encode_fields self
        (filter (fun field => name field ∉ parent_type_fields)
           (all_fields struct)) in
    Ok [Using "var obj = encoder.AddObject()" encoders].

(** The [case] of the root's Decode that hands over to one subtype. *)
Definition struct_decode_case (self : CSharpGenerator) (subtype : Subtype)
  : result code :=
  let* subtype_arg_name := _arg_name (subtype_name subtype) in
  let* subtype_typename := _typename self (subtype_data_type subtype) in
  Ok (Case (Some (quoted (subtype_name subtype))) false
        [Emit ("var " +:+ subtype_arg_name +:+ " = new " +:+
               subtype_typename +:+ "();");
         Emit ("return ((enc.IEncodable<" +:+ subtype_typename +:+ ">)" +:+
               subtype_arg_name +:+ ").Decode(decoder);")]).

(** Body of the generated [Decode] of a struct. *)
Definition struct_decode_body (self : CSharpGenerator) (struct : Struct)
  : result (list code) :=
  if has_enumerated_subtypes struct
  then
    let* cases :=
      for_each (struct_decode_case self) (get_enumerated_subtypes struct) in
    let* fallback :=
      if is_catch_all struct
      then
        let* decoders := decode_fields self (all_fields struct) in
        Ok (Case None false
              [Using "var obj = decoder.GetObject()" decoders;
               emit_blank;
               Emit "return this;"])
      else Ok (Case None false [throw_invalid_operation]) in
    Ok [Emit "var tag = string.Empty;";
        Using "var obj = decoder.GetObject()"
          [Emit ("tag = obj.GetField<string>(" +:+ quoted ".tag" +:+ ");")];
        emit_blank;
        Switch "tag" (cases ++ [fallback])]
  else
    let* decoders := decode_fields self (all_fields struct) in
    Ok [Using "var obj = decoder.GetObject()" decoders;
        emit_blank;
        Emit "return this;"].

Definition _generate_struct_encodable_methods (self : CSharpGenerator)
    (struct : Struct) (class_name : string)
    (parent_type_fields : gset string) : result (list code) :=
  let* encode := struct_encode_body self struct parent_type_fields in
  let* decode := struct_decode_body self struct in
  Ok [emit_blank;
      Region ("IEncodable<" +:+ class_name +:+ "> methods")
        [emit_encode_doc_comment;
         emit_explicit_interface_suppress;
         CsBlock (Some ("void enc.IEncodable<" +:+ class_name +:+
                        ">.Encode(enc.IEncoder encoder)")) encode;
         emit_blank;
         emit_decode_doc_comment;
         emit_explicit_interface_suppress;
         CsBlock (Some (class_name +:+ " enc.IEncodable<" +:+ class_name +:+
                        ">.Decode(enc.IDecoder decoder)")) decode]].

(** [sorted(names)] *)
Definition sorted (names : gset string) : list string :=
  merge_sort String.le (elements names).

(** The parent the class derives from: [struct.parent_type] when it
    enumerates its subtypes, otherwise none. *)
Definition enumerating_parent (struct : Struct) : option Struct :=
  match parent_type struct with
  | Some parent => if has_enumerated_subtypes parent then Some parent else None
  | None => None
  end.

(** [parent_type_fields]: the names of the fields implemented by the
    parent class. *)
Definition parent_type_fields (struct : Struct) : gset string :=
  match enumerating_parent struct with
  | Some parent => list_to_set (name <$> all_fields parent)
  | None => ∅
  end.

Definition _generate_struct (self : CSharpGenerator) (struct : Struct)
  : result (list code) :=
  let related :=
    from_option id ∅ (_related_types self !! struct_name struct) in
  let documentation :=
    DocComment
      (EmitSummary (or_else (struct_doc struct)
                      ("The " +:+ _name_words (struct_name struct) +:+
                       " object"))
       :: map (fun related =>
                 EmitXml None "seealso" [("cref", _public_name related)])
            (sorted related)) in
  let class_name := _public_name (struct_name struct) in
  let parent_type := enumerating_parent struct in
  let inherits :=
    match parent_type with
    | Some parent => [_public_name (struct_name parent)]
    | None => []
    end in
  let parent_type_fields := parent_type_fields struct in
  let inherits := inherits ++ ["enc.IEncodable<" +:+ class_name +:+ ">"] in
  let access :=
    if has_enumerated_subtypes struct then "public" else "public sealed" in
  let* init_ctor :=
    _generate_struct_init_ctor self struct class_name parent_type
      parent_type_fields in
  let* default_ctor :=
    if negb (is_empty (all_fields struct))
    then _generate_struct_default_ctor self struct class_name
           parent_type_fields
    else Ok [] in
  let* is_as :=
    if has_enumerated_subtypes struct
    then _generate_struct_strunion_is_as self struct
    else Ok [] in
  let* properties :=
    _generate_struct_properties self struct parent_type_fields in
  let* encodable :=
    _generate_struct_encodable_methods self struct class_name
      parent_type_fields in
  Ok [documentation;
      Class_ class_name inherits access
        (init_ctor ++ default_ctor ++ is_as ++ properties ++ encodable)].

(** ** Union synthesizer *)

Definition _generate_union_is_as_properties (union : Union) : list code :=
  concat (map (fun field =>
    let field_type := _public_name (union_field_name field) in
    [emit_blank;
     DocComment [EmitSummary ("Gets a value indicating whether this " +:+
                              "instance is " +:+ field_type)];
     CsBlock (Some ("public bool Is" +:+ field_type))
       [CsBlock (Some "get") [Emit ("return this is " +:+ field_type +:+ ";")]];
     emit_blank;
     DocComment [EmitSummary ("Gets this instance as a " +:+ field_type +:+
                              ", or <c>null</c>.")];
     CsBlock (Some ("public " +:+ field_type +:+ " As" +:+ field_type))
       [CsBlock (Some "get") [Emit ("return this as " +:+ field_type +:+ ";")]]])
    (union_fields union)).

(** The statement by which the union's Encode hands over to a variant. *)
Definition union_delegate (public_field_name : string) : code :=
  Emit ("((enc.IEncodable<" +:+ public_field_name +:+
        ">)this).Encode(encoder);").

(** One turn of the loop over [enumerate(union.fields)] in the encoder:
    the emitted branch and whether it set [has_catch_all]. *)
Definition union_encode_branch (union : Union) (indexed : nat * UnionField)
  : code * bool :=
  let (index, field) := indexed in
  let public_field_name := _public_name (union_field_name field) in
  let condition := "this.Is" +:+ public_field_name in
  match index with
  | O => (If_ condition [union_delegate public_field_name], false)
  | _ =>
      if is_catch_all_field union field
      then (Else_ [union_delegate public_field_name], true)
      else (ElseIf condition [union_delegate public_field_name], false)
  end.

(** Body of the generated [Encode] of a union. *)
Definition union_encode_body (union : Union) : list code :=
  let branches :=
    map (union_encode_branch union) (enumerate (union_fields union)) in
  let has_catch_all := existsb snd branches in
  map fst branches
  ++ if negb has_catch_all then [Else_ [throw_invalid_operation]] else [].

(** The [case] of the union's Decode for one variant. *)
Definition union_decode_case (self : CSharpGenerator) (union : Union)
    (field : UnionField) : result code :=
  let constant :=
    if is_catch_all_field union field then None
    else Some (quoted (union_field_name field)) in
  let public_field_name := _public_name (union_field_name field) in
  let* body :=
    if is_void_type (union_field_data_type field)
    then Ok [Emit ("return " +:+ public_field_name +:+ ".Instance;")]
    else if is_composite_type (union_field_data_type field)
    then
      let* arg_name := _arg_name (union_field_name field) in
      let* type_name := _typename self (union_field_data_type field) in
      Ok [Emit ("var " +:+ arg_name +:+ " = new " +:+ type_name +:+ "();");
          Emit ("return new " +:+ public_field_name +:+
                "(((enc.IEncodable<" +:+ type_name +:+ ">)" +:+ arg_name +:+
                ").Decode(decoder));")]
    else
      let* method :=
        _get_decoder_method self (union_field_name field)
          (union_field_data_type field) in
      Ok [Using "var obj = decoder.GetObject()"
            [Emit ("return new " +:+ public_field_name +:+ "(" +:+ method +:+
                   ");")]] in
  Ok (Case constant false body).

(** Body of the generated [Decode] of a union. *)
Definition union_decode_body (self : CSharpGenerator) (union : Union)
  : result (list code) :=
  let* cases := for_each (union_decode_case self union) (union_fields union) in
  Ok [Switch "decoder.GetUnionName()"
        (cases
         ++ match catch_all_field union with
            | None => [Emit "default:"; Indent [throw_invalid_operation]]
            | Some _ => []
            end)].

Definition _generate_union_encodable_methods (self : CSharpGenerator)
    (union : Union) (class_name : string) : result (list code) :=
  let* decode := union_decode_body self union in
  Ok [emit_blank;
      Region ("IEncodable<" +:+ class_name +:+ "> methods")
        [emit_encode_doc_comment;
         emit_explicit_interface_suppress;
         CsBlock (Some ("void enc.IEncodable<" +:+ class_name +:+
                        ">.Encode(enc.IEncoder encoder)"))
           (union_encode_body union);
         emit_blank;
         emit_decode_doc_comment;
         emit_explicit_interface_suppress;
         CsBlock (Some (class_name +:+ " enc.IEncodable<" +:+ class_name +:+
                        ">.Decode(enc.IDecoder decoder)")) decode]].

Definition _generate_union_field_decoder (field_type : string) : list code :=
  [emit_blank;
   emit_decode_doc_comment;
   emit_explicit_interface_suppress;
   CsBlock (Some (field_type +:+ " enc.IEncodable<" +:+ field_type +:+
                  ">.Decode(enc.IDecoder decoder)"))
     [Emit ("throw new sys.InvalidOperationException(" +:+
            quoted "Decoding happens through the base class" +:+ ");")]].

(** Body of the [Encode] of a void variant's inner type. *)
Definition void_variant_encode_body (field : UnionField) : list code :=
  [Using "var obj = encoder.AddObject()"
     [Emit ("obj.AddField(" +:+ quoted ".tag" +:+ ", " +:+
            quoted (union_field_name field) +:+ ");")]].

(** Body of the [Encode] of a value-carrying variant's inner type. *)
Definition value_variant_encode_body (field : UnionField) : list code :=
  [Using "var obj = encoder.AddObject()"
     [Emit ("obj.AddField(" +:+ quoted ".tag" +:+ ", " +:+
            quoted (union_field_name field) +:+ ");");
      Emit ("obj.AddField(" +:+ quoted (union_field_name field) +:+
            ", this.Value);")]].

Definition _generate_union_field_void_type (field : UnionField)
    (field_type : string) : list code :=
  [DocComment [emit_ctor_summary field_type];
   CsBlock (Some ("private " +:+ field_type +:+ "()")) [];
   emit_blank;
   DocComment [EmitSummary ("A singleton instance of " +:+ field_type)];
   Emit ("public static readonly " +:+ field_type +:+ " Instance = new " +:+
         field_type +:+ "();");
   emit_blank;
   emit_encode_doc_comment;
   emit_explicit_interface_suppress;
   CsBlock (Some ("void enc.IEncodable<" +:+ field_type +:+
                  ">.Encode(enc.IEncoder encoder)"))
     (void_variant_encode_body field)]
  ++ _generate_union_field_decoder field_type.

Definition _generate_union_field_value_type (self : CSharpGenerator)
    (field : UnionField) (field_type : string) : result (list code) :=
  let* value_type := _typename self (union_field_data_type field) in
  let* ctor_body :=
    if is_list_type (union_field_data_type field)
    then
      let* element_type :=
        _typename self (inner_type (union_field_data_type field)) in
      Ok [Emit ("this.Value = new col.List<" +:+ element_type +:+ ">(value);")]
    else Ok [Emit "this.Value = value;"] in
  let* property_type :=
    _typename_full self (union_field_data_type field) None true in
  Ok ([DocComment [emit_ctor_summary field_type;
                   Emit ("<param name=" +:+ quoted "value" +:+
                         ">The value</param>")];
       CsBlock (Some ("public " +:+ field_type +:+ "(" +:+ value_type +:+
                      " value)")) ctor_body;
       emit_blank;
       DocComment [EmitSummary "Gets the value of this instance."];
       Emit ("public " +:+ property_type +:+ " Value { get; private set; }");
       emit_blank;
       emit_encode_doc_comment;
       CsBlock (Some ("void enc.IEncodable<" +:+ field_type +:+
                      ">.Encode(enc.IEncoder encoder)"))
         (value_variant_encode_body field)]
      ++ _generate_union_field_decoder field_type).

Definition _generate_union_field_type (self : CSharpGenerator)
    (field : UnionField) (class_name : string) : result (list code) :=
  let field_type := _public_name (union_field_name field) in
  let inherits := [class_name; "enc.IEncodable<" +:+ field_type +:+ ">"] in
  let* body :=
    if is_void_type (union_field_data_type field)
    then Ok (_generate_union_field_void_type field field_type)
    else _generate_union_field_value_type self field field_type in
  Ok [emit_blank;
      DocComment [EmitSummary
                    (or_else (union_field_doc field)
                       ("The " +:+ _name_words (union_field_name field) +:+
                        " object"))];
      Class_ field_type inherits "public sealed" body].

(** What [_generate_union] emits inside its [_local_names] scope. *)
Definition union_class (self : CSharpGenerator) (union : Union)
  : result (list code) :=
  let class_name := _public_name (union_name union) in
  let* encodable := _generate_union_encodable_methods self union class_name in
  let* field_types :=
    for_each (fun field => _generate_union_field_type self field class_name)
      (union_fields union) in
  Ok [DocComment [EmitSummary
                    (or_else (union_doc union)
                       ("The " +:+ _name_words (union_name union) +:+
                        " object"))];
      Class_ class_name ["enc.IEncodable<" +:+ class_name +:+ ">"] "public"
        ([DocComment [emit_ctor_summary class_name];
          CsBlock (Some ("public " +:+ class_name +:+ "()")) []]
         ++ _generate_union_is_as_properties union
         ++ encodable
         ++ concat field_types)].

Definition _generate_union (union : Union) (self : CSharpGenerator)
  : result (list code * CSharpGenerator) :=
  let union_field_names :=
    map (fun f => _public_name (union_field_name f)) (union_fields union) in
  _local_names union_field_names
    (fun self =>
       let* emitted := union_class self union in
       Ok (emitted, self))
    self.

(** ** Control flow of the emitted method bodies

    The emitted statements are C# text.  Their control flow is fixed by
    the block structure alone: an [if]/[else if]/[else] chain runs the
    first branch whose condition holds, a [switch] runs the [case] whose
    constant equals the switched value and otherwise its [default], and a
    [throw] or [return] statement ends the method.  [run] follows that
    flow for given truth values of the condition texts and values of the
    switched expressions, and lists the statements that are executed. *)

Record environment := {
  holds : string -> bool;        (* truth of a condition text *)
  value_of : string -> string;   (* the string a switched expression has *)
}.

Inductive status := Running | Returned | Thrown.

Record execution := {
  executed : list string;   (* statements executed so far, in order *)
  state : status;
  chain_open : bool;        (* an if-chain precedes, none of its branches ran *)
}.

Definition start : execution :=
  {| executed := []; state := Running; chain_open := false |}.

Definition is_running (x : execution) : bool :=
  match state x with Running => true | _ => false end.

(** [text.startswith(prefix)] *)
Fixpoint starts_with (prefix text : string) : bool :=
  match prefix, text with
  | EmptyString, _ => true
  | String a prefix', String b text' =>
      Ascii.eqb a b && starts_with prefix' text'
  | String _ _, EmptyString => false
  end.

Definition statement (text : string) (x : execution) : execution :=
  if bool_decide (text = EmptyString) then x
  else
    {| executed := executed x ++ [text];
       state := if starts_with "throw " text then Thrown
                else if starts_with "return" text then Returned
                else Running;
       chain_open := false |}.

Definition close_chain (x : execution) : execution :=
  {| executed := executed x; state := state x; chain_open := false |}.

Definition open_chain (x : execution) : execution :=
  {| executed := executed x; state := state x; chain_open := true |}.

Fixpoint run (env : environment) (c : code) (x : execution) : execution :=
  let run_all :=
    fix run_all (cs : list code) (x : execution) : execution :=
      match cs with
      | [] => x
      | c :: rest => run_all rest (run env c x)
      end in
  let run_case :=
    fix run_case (value : string) (cs : list code) : option execution :=
      match cs with
      | [] => None
      | Case (Some constant) _ body :: rest =>
          if bool_decide (constant = quoted value)
          then Some (run_all body (close_chain x))
          else run_case value rest
      | _ :: rest => run_case value rest
      end in
  let run_default :=
    fix run_default (cs : list code) : option execution :=
      match cs with
      | [] => None
      | Case None _ body :: _ => Some (run_all body (close_chain x))
      | Emit label :: rest =>
          if bool_decide (label = "default:")
          then match rest with
               | Indent body :: _ => Some (run_all body (close_chain x))
               | _ => run_default rest
               end
          else run_default rest
      | _ :: rest => run_default rest
      end in
  if negb (is_running x) then x
  else
    match c with
    | Emit text => statement text x
    | If_ condition body =>
        if holds env condition
        then close_chain (run_all body (close_chain x))
        else open_chain x
    | ElseIf condition body =>
        if chain_open x
        then if holds env condition
             then close_chain (run_all body (close_chain x))
             else open_chain x
        else x
    | Else_ body =>
        if chain_open x
        then close_chain (run_all body (close_chain x))
        else x
    | Using declaration body =>
        close_chain (run_all body (statement declaration x))
    | CsBlock _ body | Indent body | Region _ body =>
        close_chain (run_all body (close_chain x))
    | Switch expression body =>
        match run_case (value_of env expression) body with
        | Some x' => close_chain x'
        | None =>
            match run_default body with
            | Some x' => close_chain x'
            | None => close_chain x
            end
        end
    | Case _ _ _ | Class_ _ _ _ _ | DocComment _ | EmitWrappedText _
    | EmitSummary _ | EmitXml _ _ _ | GenerateMultilineList _ _ => x
    end.

(** Running a method body from its first statement. *)
Definition run_body (env : environment) (body : list code) : execution :=
  fold_left (fun x c => run env c x) body start.

(** *** Equations of [run] *)

Definition run_list (env : environment) (cs : list code) (x : execution)
  : execution :=
  fold_left (fun x c => run env c x) cs x.

Fixpoint run_case (env : environment) (x : execution) (value : string)
    (cs : list code) : option execution :=
  match cs with
  | [] => None
  | Case (Some constant) _ body :: rest =>
      if bool_decide (constant = quoted value)
      then Some (run_list env body (close_chain x))
      else run_case env x value rest
  | _ :: rest => run_case env x value rest
  end.

Fixpoint run_default (env : environment) (x : execution) (cs : list code)
  : option execution :=
  match cs with
  | [] => None
  | Case None _ body :: _ => Some (run_list env body (close_chain x))
  | Emit label :: rest =>
      if bool_decide (label = "default:")
      then match rest with
           | Indent body :: _ => Some (run_list env body (close_chain x))
           | _ => run_default env x rest
           end
      else run_default env x rest
  | _ :: rest => run_default env x rest
  end.

Lemma run_body_eq env body : run_body env body = run_list env body start.
Proof. reflexivity. Qed.

Lemma run_list_nil env x : run_list env [] x = x.
Proof. reflexivity. Qed.

Lemma run_list_cons env c cs x :
  run_list env (c :: cs) x = run_list env cs (run env c x).
Proof. reflexivity. Qed.

Lemma run_list_app env cs1 cs2 x :
  run_list env (cs1 ++ cs2) x = run_list env cs2 (run_list env cs1 x).
Proof. unfold run_list; apply fold_left_app. Qed.

Lemma run_all_eq env cs : forall x,
  (fix run_all (cs : list code) (x : execution) : execution :=
     match cs with
     | [] => x
     | c :: rest => run_all rest (run env c x)
     end) cs x = run_list env cs x.
Proof. induction cs as [|c cs IH]; intros x; [reflexivity|]. apply IH. Qed.

Lemma run_stopped env c x : is_running x = false -> run env c x = x.
Proof. intros H; destruct c; simpl; rewrite H; reflexivity. Qed.

Lemma run_list_stopped env cs x :
  is_running x = false -> run_list env cs x = x.
Proof.
  induction cs as [|c cs IH]; [reflexivity|]; intros H.
  rewrite run_list_cons, run_stopped by exact H. apply IH, H.
Qed.

Lemma run_Emit env text x :
  is_running x = true -> run env (Emit text) x = statement text x.
Proof. intros H; simpl; rewrite H; reflexivity. Qed.

Lemma run_If env condition body x :
  is_running x = true ->
  run env (If_ condition body) x =
  if holds env condition
  then close_chain (run_list env body (close_chain x))
  else open_chain x.
Proof. intros H; simpl; rewrite H; simpl. rewrite run_all_eq. reflexivity. Qed.

Lemma run_ElseIf env condition body x :
  is_running x = true ->
  run env (ElseIf condition body) x =
  if chain_open x
  then if holds env condition
       then close_chain (run_list env body (close_chain x))
       else open_chain x
  else x.
Proof. intros H; simpl; rewrite H; simpl. rewrite run_all_eq. reflexivity. Qed.

Lemma run_Else env body x :
  is_running x = true ->
  run env (Else_ body) x =
  if chain_open x
  then close_chain (run_list env body (close_chain x))
  else x.
Proof. intros H; simpl; rewrite H; simpl. rewrite run_all_eq. reflexivity. Qed.

Lemma run_Using env declaration body x :
  is_running x = true ->
  run env (Using declaration body) x =
  close_chain (run_list env body (statement declaration x)).
Proof. intros H; simpl; rewrite H; simpl. rewrite run_all_eq. reflexivity. Qed.

Lemma run_case_eq env x value cs :
  (fix run_case (value : string) (cs : list code) : option execution :=
     match cs with
     | [] => None
     | Case (Some constant) _ body :: rest =>
         if bool_decide (constant = quoted value)
         then Some
                ((fix run_all (cs : list code) (x : execution) : execution :=
                    match cs with
                    | [] => x
                    | c :: rest => run_all rest (run env c x)
                    end) body (close_chain x))
         else run_case value rest
     | _ :: rest => run_case value rest
     end) value cs = run_case env x value cs.
Proof.
  induction cs as [|c cs IH]; [reflexivity|].
  destruct c; try exact IH.
  destruct constant; [|exact IH].
  simpl. rewrite run_all_eq, IH. reflexivity.
Qed.

Lemma run_default_eq env x cs :
  (fix run_default (cs : list code) : option execution :=
     match cs with
     | [] => None
     | Case None _ body :: _ =>
         Some
           ((fix run_all (cs : list code) (x : execution) : execution :=
               match cs with
               | [] => x
               | c :: rest => run_all rest (run env c x)
               end) body (close_chain x))
     | Emit label :: rest =>
         if bool_decide (label = "default:")
         then match rest with
              | Indent body :: _ =>
                  Some
                    ((fix run_all (cs : list code) (x : execution)
                        : execution :=
                        match cs with
                        | [] => x
                        | c :: rest => run_all rest (run env c x)
                        end) body (close_chain x))
              | _ => run_default rest
              end
         else run_default rest
     | _ :: rest => run_default rest
     end) cs = run_default env x cs.
Proof.
  induction cs as [|c cs IH]; [reflexivity|].
  destruct c; try exact IH.
  - simpl. rewrite IH. destruct (bool_decide (text = "default:")); [|reflexivity].
    destruct cs as [|[] ?]; try reflexivity;
      try (rewrite run_all_eq; reflexivity).
  - destruct constant; [exact IH|].
    simpl. rewrite run_all_eq. reflexivity.
Qed.

Lemma run_Switch env expression body x :
  is_running x = true ->
  run env (Switch expression body) x =
  match run_case env x (value_of env expression) body with
  | Some x' => close_chain x'
  | None =>
      match run_default env x body with
      | Some x' => close_chain x'
      | None => close_chain x
      end
  end.
Proof.
  intros H; simpl; rewrite H; simpl.
  rewrite run_case_eq, run_default_eq. reflexivity.
Qed.

(** ** Facts about strings and statements *)

Lemma append_nil (t : string) : EmptyString +:+ t = t.
Proof. reflexivity. Qed.

Lemma append_cons (c : ascii) (s t : string) :
  String c s +:+ t = String c (s +:+ t).
Proof. reflexivity. Qed.

Lemma append_assoc (s t u : string) : (s +:+ t) +:+ u = s +:+ (t +:+ u).
Proof.
  induction s as [|c s IH]; [reflexivity|].
  rewrite !append_cons, IH. reflexivity.
Qed.

Lemma append_last_inj (c : ascii) (s s' : string) :
  s +:+ String c EmptyString = s' +:+ String c EmptyString -> s = s'.
Proof.
  revert s'; induction s as [|a s IH]; intros [|a' s'] H;
    rewrite ?append_nil, ?append_cons in H.
  - reflexivity.
  - injection H as _ H. destruct s'; discriminate H.
  - injection H as _ H. destruct s; discriminate H.
  - injection H as -> H. f_equal. apply IH, H.
Qed.

Lemma quoted_inj (a b : string) : quoted a = quoted b -> a = b.
Proof.
  unfold quoted, dquote; rewrite !append_cons, !append_nil.
  intros H; injection H as H. apply (append_last_inj _ _ _ H).
Qed.

(** A statement that is neither blank nor a [throw] or [return]. *)
Definition plain (text : string) : Prop :=
  text <> EmptyString /\ starts_with "throw " text = false
  /\ starts_with "return" text = false.

Lemma statement_plain text x :
  plain text ->
  statement text x =
  {| executed := executed x ++ [text]; state := Running;
     chain_open := false |}.
Proof.
  intros (Hne & Ht & Hr). unfold statement.
  rewrite bool_decide_eq_false_2 by exact Hne. rewrite Ht, Hr. reflexivity.
Qed.

Lemma statement_throw text x :
  starts_with "throw " text = true ->
  statement text x =
  {| executed := executed x ++ [text]; state := Thrown;
     chain_open := false |}.
Proof.
  intros Ht. unfold statement.
  rewrite bool_decide_eq_false_2 by (intros ->; discriminate Ht).
  rewrite Ht. reflexivity.
Qed.

Lemma statement_return text x :
  starts_with "return" text = true ->
  statement text x =
  {| executed := executed x ++ [text]; state := Returned;
     chain_open := false |}.
Proof.
  intros Hr. unfold statement.
  rewrite bool_decide_eq_false_2 by (intros ->; discriminate Hr).
  destruct (starts_with "throw " text) eqn:Ht.
  - exfalso. destruct text as [|c text]; [discriminate Hr|].
    destruct (Ascii.eqb "r" c) eqn:E.
    + apply Ascii.eqb_eq in E; subst c. discriminate Ht.
    + change (("r" =? c)%char && starts_with "eturn" text = true) in Hr.
      rewrite E in Hr. discriminate Hr.
  - rewrite Hr. reflexivity.
Qed.

(** Exposes the leading characters of a concatenation. *)
Ltac expose := rewrite ?append_cons, ?append_nil.

Ltac plain_text :=
  unfold plain; expose; split; [discriminate|split; reflexivity].

(** ** Results of loops *)

Lemma for_each_Forall2 {A B} (f : A -> result B) xs ys :
  for_each f xs = Ok ys -> Forall2 (fun x y => f x = Ok y) xs ys.
Proof.
  revert ys; induction xs as [|x xs IH]; intros ys H; simpl in H.
  - injection H as <-. constructor.
  - destruct (f x) as [y|] eqn:Hy; [|discriminate H]. simpl in H.
    destruct (for_each f xs) as [ys'|] eqn:Hys; [|discriminate H].
    injection H as <-. constructor; [exact Hy|apply IH; reflexivity].
Qed.

Lemma bind_Ok {A B} (m : result A) (k : A -> result B) b :
  bind m k = Ok b -> exists a, m = Ok a /\ k a = Ok b.
Proof. destruct m as [a|]; [eauto|discriminate]. Qed.

Ltac inv_ok H :=
  repeat (cbv beta in H;
    match type of H with
    | bind ?m ?k = Ok _ =>
        let v := fresh "v" in
        let Hv := fresh "Hv" in
        apply bind_Ok in H as (v & Hv & H)
    | Ok _ = Ok _ => injection H as H
    | Raise _ = Ok _ => discriminate H
    end).

Lemma run_Emit_plain env text x :
  is_running x = true -> plain text ->
  run env (Emit text) x =
  {| executed := executed x ++ [text]; state := Running;
     chain_open := false |}.
Proof. intros Hx Hp. rewrite run_Emit by exact Hx. apply statement_plain, Hp. Qed.

Lemma run_Emit_return env text x :
  is_running x = true -> starts_with "return" text = true ->
  run env (Emit text) x =
  {| executed := executed x ++ [text]; state := Returned;
     chain_open := false |}.
Proof. intros Hx Hp. rewrite run_Emit by exact Hx. apply statement_return, Hp. Qed.

Lemma run_Emit_throw env text x :
  is_running x = true -> starts_with "throw " text = true ->
  run env (Emit text) x =
  {| executed := executed x ++ [text]; state := Thrown;
     chain_open := false |}.
Proof. intros Hx Hp. rewrite run_Emit by exact Hx. apply statement_throw, Hp. Qed.

Lemma run_Emit_blank env x : run env emit_blank x = x.
Proof.
  destruct (is_running x) eqn:Hx; [|apply run_stopped, Hx].
  unfold emit_blank. rewrite run_Emit by exact Hx. reflexivity.
Qed.

(** ** Decoding an unrecognized tag *)

Section UnrecognizedTag.
Variable env : environment.
Variable self : CSharpGenerator.

(** The field decoders assign and test, they neither throw nor return. *)
Lemma emit_decoder_keeps_running field emitted x :
  _emit_decoder self field = Ok emitted ->
  is_running x = true ->
  is_running (run_list env emitted x) = true.
Proof.
  unfold _emit_decoder. intros H Hx. inv_ok H.
  destruct (is_nullable_type (data_type field) || has_default field).
  - inv_ok H. subst emitted.
    rewrite run_list_cons, run_If by exact Hx.
    assert (Hotherwise : v0 = [] \/ exists text,
               v0 = [Else_ [Emit ("this." +:+ text)]]).
    { destruct (is_list_type _).
      - inv_ok Hv0. subst v0. right. eexists. reflexivity.
      - inv_ok Hv0. subst v0. left. reflexivity. }
    destruct (holds env _).
    + rewrite run_list_cons, run_list_nil, run_Emit_plain
        by (try exact Hx; plain_text).
      destruct Hotherwise as [->|(text & ->)]; [reflexivity|].
      rewrite run_list_cons, run_Else, run_list_nil by reflexivity.
      reflexivity.
    + destruct Hotherwise as [->|(text & ->)]; [exact Hx|].
      rewrite run_list_cons, run_Else, run_list_nil by exact Hx.
      change (chain_open (open_chain x)) with true; cbv iota.
      rewrite run_list_cons, run_list_nil, run_Emit_plain
        by (try exact Hx; plain_text).
      reflexivity.
  - inv_ok H. subst emitted.
    rewrite run_list_cons, run_list_nil, run_Emit_plain
      by (try exact Hx; plain_text).
    reflexivity.
Qed.

Lemma decode_fields_keep_running fields emitted x :
  decode_fields self fields = Ok emitted ->
  is_running x = true ->
  is_running (run_list env emitted x) = true.
Proof.
  unfold decode_fields. intros H. inv_ok H. subst emitted.
  apply for_each_Forall2 in Hv. revert x.
  induction Hv as [|field code fields codes Hcode _ IH]; intros x Hx.
  - exact Hx.
  - simpl. rewrite run_list_app. apply IH.
    eapply emit_decoder_keeps_running; eassumption.
Qed.
End UnrecognizedTag.

Lemma run_case_default env x value needs_break body rest :
  run_case env x value (Case None needs_break body :: rest)
  = run_case env x value rest.
Proof. reflexivity. Qed.

Lemma run_case_nil env x value : run_case env x value [] = None.
Proof. reflexivity. Qed.

Lemma run_default_case env x needs_break body rest :
  run_default env x (Case None needs_break body :: rest)
  = Some (run_list env body (close_chain x)).
Proof. reflexivity. Qed.

Section TagDispatch.
Variable env : environment.
Variable self : CSharpGenerator.

(** Cases of subtypes whose tag differs from the switched value are
    passed over, by the search for a matching case and by the search for
    the default. *)
Lemma struct_cases_skipped x value subtypes cases rest :
  Forall2 (fun s c => struct_decode_case self s = Ok c) subtypes cases ->
  (forall s, s ∈ subtypes -> subtype_name s <> value) ->
  run_case env x value (cases ++ rest) = run_case env x value rest
  /\ run_default env x (cases ++ rest) = run_default env x rest.
Proof.
  induction 1 as [|s c subtypes cases Hc _ IH]; intros Hne; [easy|].
  destruct IH as [IH1 IH2].
  { intros s' Hs'. apply Hne. right. exact Hs'. }
  unfold struct_decode_case in Hc. inv_ok Hc. subst c. simpl.
  rewrite bool_decide_eq_false_2.
  - split; assumption.
  - intros Heq. apply quoted_inj in Heq. apply (Hne s); [left|exact Heq].
Qed.

Definition after_tag_read : execution :=
  {| executed := ["var tag = string.Empty;";
                  "var obj = decoder.GetObject()";
                  "tag = obj.GetField<string>(" +:+ quoted ".tag" +:+ ");"];
     state := Running;
     chain_open := false |}.

Lemma struct_decode_unrecognized struct body :
  has_enumerated_subtypes struct = true ->
  struct_decode_body self struct = Ok body ->
  (forall subtype, subtype ∈ get_enumerated_subtypes struct ->
                   subtype_name subtype <> value_of env "tag") ->
  (is_catch_all struct = false ->
   run_body env body =
   {| executed := executed after_tag_read
                  ++ ["throw new sys.InvalidOperationException();"];
      state := Thrown; chain_open := false |})
  /\ (is_catch_all struct = true ->
      exists decoders,
        decode_fields self (all_fields struct) = Ok decoders
        /\ run_body env body =
           close_chain
             (run_list env
                [Using "var obj = decoder.GetObject()" decoders;
                 emit_blank; Emit "return this;"] after_tag_read)
        /\ state (run_body env body) = Returned).
Proof.
  intros Hsub Hbody Hne. unfold struct_decode_body in Hbody.
  rewrite Hsub in Hbody. inv_ok Hbody. subst body.
  apply for_each_Forall2 in Hv.
  destruct (struct_cases_skipped after_tag_read (value_of env "tag")
              _ _ [v0] Hv Hne) as [Hcase Hdefault].
  assert (Hprelude : forall switch,
    run_body env
      [Emit "var tag = string.Empty;";
       Using "var obj = decoder.GetObject()"
         [Emit ("tag = obj.GetField<string>(" +:+ quoted ".tag" +:+ ");")];
       emit_blank; switch] = run env switch after_tag_read).
  { intros switch. rewrite run_body_eq, !run_list_cons, run_list_nil.
    rewrite run_Emit_plain by (try reflexivity; plain_text).
    rewrite run_Using by reflexivity.
    rewrite statement_plain by plain_text.
    rewrite run_list_cons, run_list_nil.
    rewrite run_Emit_plain by (try reflexivity; plain_text).
    rewrite run_Emit_blank. reflexivity. }
  rewrite Hprelude, run_Switch by reflexivity.
  rewrite Hcase, Hdefault.
  destruct (is_catch_all struct); inv_ok Hv0; subst v0;
    rewrite run_case_default, run_case_nil, run_default_case;
    split; try discriminate; intros _.
  - exists v1. split; [exact Hv1|]. split; [reflexivity|].
    rewrite !run_list_cons, run_list_nil, run_Using by reflexivity.
    rewrite statement_plain by plain_text.
    rewrite run_Emit_blank.
    pose proof (decode_fields_keep_running env self (all_fields struct) v1
                  {| executed := executed (close_chain after_tag_read)
                                 ++ ["var obj = decoder.GetObject()"];
                     state := Running; chain_open := false |}
                  Hv1 eq_refl) as Hrunning.
    rewrite run_Emit_return; [reflexivity| |reflexivity].
    exact Hrunning.
  - rewrite run_list_cons, run_list_nil.
    unfold throw_invalid_operation.
    rewrite run_Emit_throw by reflexivity. reflexivity.
Qed.
End TagDispatch.

Section UnionDispatch.
Variable env : environment.
Variable self : CSharpGenerator.
Variable union : Union.

(** The case of a variant: its label, and a body that ends by returning
    the decoded variant. *)
Lemma union_decode_case_shape field emitted :
  union_decode_case self union field = Ok emitted ->
  exists body,
    emitted =
      Case (if is_catch_all_field union field then None
            else Some (quoted (union_field_name field))) false body
    /\ forall x, is_running x = true ->
                 state (run_list env body x) = Returned.
Proof.
  unfold union_decode_case. intros H. inv_ok H. subst emitted.
  exists v. split; [reflexivity|]. intros x Hx.
  destruct (is_void_type _).
  - inv_ok Hv. subst v.
    rewrite run_list_cons, run_list_nil, run_Emit_return
      by (try exact Hx; reflexivity).
    reflexivity.
  - destruct (is_composite_type _).
    + inv_ok Hv. subst v.
      rewrite !run_list_cons, run_list_nil.
      rewrite (run_Emit_plain env _ x) by (try exact Hx; plain_text).
      rewrite run_Emit_return by reflexivity. reflexivity.
    + inv_ok Hv. subst v.
      rewrite run_list_cons, run_list_nil, run_Using by exact Hx.
      rewrite statement_plain by plain_text.
      rewrite run_list_cons, run_list_nil.
      rewrite run_Emit_return by reflexivity. reflexivity.
Qed.

Lemma union_cases_no_match x value fields cases rest :
  Forall2 (fun f c => union_decode_case self union f = Ok c) fields cases ->
  (forall f, f ∈ fields -> is_catch_all_field union f = false ->
             union_field_name f <> value) ->
  run_case env x value (cases ++ rest) = run_case env x value rest.
Proof.
  induction 1 as [|f c fields cases Hc _ IH]; intros Hne; [reflexivity|].
  apply union_decode_case_shape in Hc as (body & -> & _).
  simpl app. destruct (is_catch_all_field union f) eqn:Hf.
  - rewrite run_case_default. apply IH.
    intros f' Hf'. apply Hne. right. exact Hf'.
  - simpl. rewrite bool_decide_eq_false_2.
    + apply IH. intros f' Hf'. apply Hne. right. exact Hf'.
    + intros Heq. apply quoted_inj in Heq.
      apply (Hne f); [left|exact Hf|exact Heq].
Qed.

Lemma union_cases_no_default x fields cases rest :
  Forall2 (fun f c => union_decode_case self union f = Ok c) fields cases ->
  (forall f, f ∈ fields -> is_catch_all_field union f = false) ->
  run_default env x (cases ++ rest) = run_default env x rest.
Proof.
  induction 1 as [|f c fields cases Hc _ IH]; intros Hnone; [reflexivity|].
  apply union_decode_case_shape in Hc as (body & -> & _).
  rewrite (Hnone f) by left. simpl.
  apply IH. intros f' Hf'. apply Hnone. right. exact Hf'.
Qed.

Lemma union_cases_default x fields cases rest g :
  Forall2 (fun f c => union_decode_case self union f = Ok c) fields cases ->
  g ∈ fields -> is_catch_all_field union g = true ->
  exists field body,
    field ∈ fields /\ is_catch_all_field union field = true
    /\ union_decode_case self union field = Ok (Case None false body)
    /\ run_default env x (cases ++ rest)
       = Some (run_list env body (close_chain x)).
Proof.
  induction 1 as [|f c fields cases Hc _ IH]; intros Hg Hcatch.
  - inversion Hg.
  - pose proof Hc as Hc'.
    apply union_decode_case_shape in Hc as (body & -> & _).
    destruct (is_catch_all_field union f) eqn:Hf.
    + exists f, body. split; [left|]. split; [exact Hf|].
      split; [exact Hc'|]. reflexivity.
    + assert (Hg' : g ∈ fields).
      { apply elem_of_cons in Hg as [->|Hg]; [congruence|exact Hg]. }
      destruct (IH Hg' Hcatch) as (field & body' & Hin & Hfield & Hcase & Hrun).
      exists field, body'. split; [right; exact Hin|].
      split; [exact Hfield|]. split; [exact Hcase|]. exact Hrun.
Qed.

Lemma union_decode_unrecognized body :
  union_decode_body self union = Ok body ->
  (forall field, field ∈ union_fields union ->
                 is_catch_all_field union field = false ->
                 union_field_name field
                 <> value_of env "decoder.GetUnionName()") ->
  match catch_all_field union with
  | None =>
      run_body env body =
      {| executed := ["throw new sys.InvalidOperationException();"];
         state := Thrown; chain_open := false |}
  | Some catch_all =>
      (exists field, field ∈ union_fields union
                     /\ union_field_name field = union_field_name catch_all) ->
      state (run_body env body) = Returned
      /\ exists field case_body,
           field ∈ union_fields union
           /\ union_field_name field = union_field_name catch_all
           /\ union_decode_case self union field
              = Ok (Case None false case_body)
           /\ run_body env body = close_chain (run_list env case_body start)
  end.
Proof.
  intros Hbody Hne. unfold union_decode_body in Hbody. inv_ok Hbody.
  subst body. apply for_each_Forall2 in Hv.
  rewrite run_body_eq, run_list_cons, run_list_nil, run_Switch by reflexivity.
  rewrite (union_cases_no_match _ _ _ _ _ Hv Hne).
  destruct (catch_all_field union) as [catch_all|] eqn:Hcatch.
  - intros (g & Hg & Hname).
    assert (Hgc : is_catch_all_field union g = true).
    { unfold is_catch_all_field. rewrite Hcatch.
      apply bool_decide_eq_true_2. symmetry. exact Hname. }
    destruct (union_cases_default start _ _ [] g Hv Hg Hgc)
      as (field & case_body & Hin & Hfield & Hcase & Hrun).
    rewrite run_case_nil, Hrun.
    split.
    + apply union_decode_case_shape in Hcase as (body' & Heq & Hret).
      injection Heq as _ <-. apply Hret. reflexivity.
    + exists field, case_body. split; [exact Hin|].
      split; [|split; [exact Hcase|reflexivity]].
      unfold is_catch_all_field in Hfield. rewrite Hcatch in Hfield.
      apply bool_decide_eq_true_1 in Hfield. symmetry. exact Hfield.
  - rewrite (union_cases_no_default start _ _ _ Hv).
    + change (run_case env start (value_of env "decoder.GetUnionName()")
                [Emit "default:"; Indent [throw_invalid_operation]])
        with (@None execution).
      change (run_default env start
                [Emit "default:"; Indent [throw_invalid_operation]])
        with (Some (run_list env [throw_invalid_operation]
                      (close_chain start))).
      rewrite run_list_cons, run_list_nil. unfold throw_invalid_operation.
      rewrite run_Emit_throw by reflexivity. reflexivity.
    + intros f _. unfold is_catch_all_field. rewrite Hcatch. reflexivity.
Qed.
End UnionDispatch.

(** C2. In every tagged family the generated [Decode] switches on the tag
    it reads.  For a tag that names no declared subtype (no declared
    variant other than the catch-all), the method throws the invalid-state
    error when the family has no catch-all, and otherwise runs the
    catch-all's decode (the root's own field decoders for a struct, the
    catch-all variant's case for a union) and returns. *)
Theorem unrecognized_tag_decoding (env : environment) (self : CSharpGenerator) :
  (forall struct body,
     has_enumerated_subtypes struct = true ->
     struct_decode_body self struct = Ok body ->
     (forall subtype, subtype ∈ get_enumerated_subtypes struct ->
                      subtype_name subtype <> value_of env "tag") ->
     (is_catch_all struct = false ->
      run_body env body =
      {| executed := executed after_tag_read
                     ++ ["throw new sys.InvalidOperationException();"];
         state := Thrown; chain_open := false |})
     /\ (is_catch_all struct = true ->
         exists decoders,
           decode_fields self (all_fields struct) = Ok decoders
           /\ run_body env body =
              close_chain
                (run_list env
                   [Using "var obj = decoder.GetObject()" decoders;
                    emit_blank; Emit "return this;"] after_tag_read)
           /\ state (run_body env body) = Returned))
  /\ (forall union body,
        union_decode_body self union = Ok body ->
        (forall field, field ∈ union_fields union ->
                       is_catch_all_field union field = false ->
                       union_field_name field
                       <> value_of env "decoder.GetUnionName()") ->
        match catch_all_field union with
        | None =>
            run_body env body =
            {| executed := ["throw new sys.InvalidOperationException();"];
               state := Thrown; chain_open := false |}
        | Some catch_all =>
            (exists field,
               field ∈ union_fields union
               /\ union_field_name field = union_field_name catch_all) ->
            state (run_body env body) = Returned
            /\ exists field case_body,
                 field ∈ union_fields union
                 /\ union_field_name field = union_field_name catch_all
                 /\ union_decode_case self union field
                    = Ok (Case None false case_body)
                 /\ run_body env body
                    = close_chain (run_list env case_body start)
        end).
Proof.
  split.
  - intros struct body. apply struct_decode_unrecognized.
  - intros union body. apply union_decode_unrecognized.
Qed.

(** ** Dispatch of the union's Encode *)

Definition is_accessor (field : UnionField) : string :=
  "this.Is" +:+ _public_name (union_field_name field).

Definition delegate_text (field : UnionField) : string :=
  "((enc.IEncodable<" +:+ _public_name (union_field_name field) +:+
  ">)this).Encode(encoder);".

(** Branch of a variant that is not the first one. *)
Definition later_branch (union : Union) (field : UnionField) : code :=
  if is_catch_all_field union field
  then Else_ [Emit (delegate_text field)]
  else ElseIf (is_accessor field) [Emit (delegate_text field)].

Lemma later_branches union (g : nat -> nat) fields :
  map (union_encode_branch union) (imap (fun i => pair (S (g i))) fields)
  = map (fun field => (later_branch union field,
                       is_catch_all_field union field)) fields.
Proof.
  revert g; induction fields as [|f fields IH]; intros g; [reflexivity|].
  simpl. f_equal.
  - unfold later_branch. destruct (is_catch_all_field union f); reflexivity.
  - apply (IH (fun i => g (S i))).
Qed.

Lemma later_branches_fst union fields :
  map fst (map (fun field => (later_branch union field,
                              is_catch_all_field union field)) fields)
  = map (later_branch union) fields.
Proof. induction fields as [|f fields IH]; simpl; [|rewrite IH]; reflexivity. Qed.

Lemma later_branches_snd union fields :
  existsb snd (map (fun field => (later_branch union field,
                                  is_catch_all_field union field)) fields)
  = existsb (is_catch_all_field union) fields.
Proof. induction fields as [|f fields IH]; simpl; [|rewrite IH]; reflexivity. Qed.

Lemma union_encode_body_cons union first rest :
  union_fields union = first :: rest ->
  union_encode_body union =
  If_ (is_accessor first) [Emit (delegate_text first)]
  :: map (later_branch union) rest
  ++ if existsb (is_catch_all_field union) rest then []
     else [Else_ [throw_invalid_operation]].
Proof.
  intros Hfields. unfold union_encode_body, enumerate. rewrite Hfields.
  rewrite imap_cons. unfold compose.
  rewrite map_cons, (later_branches union (fun i => i)).
  cbn [union_encode_branch map fst snd existsb orb].
  rewrite later_branches_fst, later_branches_snd.
  destruct (existsb (is_catch_all_field union) rest); reflexivity.
Qed.

Section UnionEncode.
Variable env : environment.
Variable union : Union.

Lemma delegate_plain field : plain (delegate_text field).
Proof. unfold delegate_text. plain_text. Qed.

(** Once a branch has run the chain is closed: later branches are
    passed over. *)
Lemma later_branch_closed field x :
  chain_open x = false -> run env (later_branch union field) x = x.
Proof.
  intros Hclosed. destruct (is_running x) eqn:Hx;
    [|apply run_stopped, Hx].
  unfold later_branch. destruct (is_catch_all_field union field).
  - rewrite run_Else, Hclosed by exact Hx. reflexivity.
  - rewrite run_ElseIf, Hclosed by exact Hx. reflexivity.
Qed.

Lemma later_branches_closed fields x :
  chain_open x = false ->
  run_list env (map (later_branch union) fields) x = x.
Proof.
  intros Hclosed. induction fields as [|f fields IH]; [reflexivity|].
  rewrite map_cons, run_list_cons, later_branch_closed by exact Hclosed.
  exact IH.
Qed.

Lemma run_delegate field x :
  is_running x = true ->
  close_chain (run_list env [Emit (delegate_text field)] (close_chain x))
  = {| executed := executed x ++ [delegate_text field];
       state := Running; chain_open := false |}.
Proof.
  intros Hx. rewrite run_list_cons, run_list_nil.
  rewrite run_Emit_plain by (try exact Hx; apply delegate_plain).
  reflexivity.
Qed.

(** Later branches while the chain is open: tests that fail keep it
    open. *)
Lemma later_branches_fail fields x :
  is_running x = true -> chain_open x = true ->
  (forall g, g ∈ fields -> is_catch_all_field union g = false) ->
  (forall g, g ∈ fields -> holds env (is_accessor g) = false) ->
  run_list env (map (later_branch union) fields) x = x.
Proof.
  intros Hx Hopen. induction fields as [|f fields IH]; intros Hc Hh;
    [reflexivity|].
  rewrite map_cons, run_list_cons.
  assert (Hfail : run env (later_branch union f) x = x).
  { unfold later_branch. rewrite (Hc f) by left.
    rewrite run_ElseIf, Hopen, (Hh f) by (exact Hx || left).
    destruct x; simpl in *; subst; reflexivity. }
  rewrite Hfail.
  apply IH; intros g Hg; [apply Hc|apply Hh]; right; exact Hg.
Qed.

Lemma later_branches_taken before field after x :
  is_running x = true -> chain_open x = true ->
  (forall g, g ∈ before -> is_catch_all_field union g = false) ->
  (forall g, g ∈ before -> holds env (is_accessor g) = false) ->
  is_catch_all_field union field = true
  \/ holds env (is_accessor field) = true ->
  forall rest,
  run_list env (map (later_branch union) (before ++ field :: after) ++ rest)
    x
  = run_list env rest
      {| executed := executed x ++ [delegate_text field];
         state := Running; chain_open := false |}.
Proof.
  intros Hx Hopen Hc Hh Hfield rest.
  rewrite run_list_app, map_app, run_list_app.
  rewrite (later_branches_fail before x Hx Hopen Hc Hh).
  rewrite map_cons, run_list_cons.
  assert (Htaken : run env (later_branch union field) x
                   = {| executed := executed x ++ [delegate_text field];
                        state := Running; chain_open := false |}).
  { unfold later_branch. destruct (is_catch_all_field union field).
    - rewrite run_Else, Hopen by exact Hx. apply run_delegate, Hx.
    - destruct Hfield as [Hfield|Hfield]; [discriminate Hfield|].
      rewrite run_ElseIf, Hopen, Hfield by exact Hx.
      apply run_delegate, Hx. }
  rewrite Htaken, later_branches_closed by reflexivity. reflexivity.
Qed.
End UnionEncode.

(** Body of the [Encode] of the inner type generated for a variant. *)
Definition variant_encode_body (field : UnionField) : list code :=
  if is_void_type (union_field_data_type field)
  then void_variant_encode_body field
  else value_variant_encode_body field.

Definition tag_entry (field : UnionField) : string :=
  "obj.AddField(" +:+ quoted ".tag" +:+ ", " +:+
  quoted (union_field_name field) +:+ ");".

Definition value_entry (field : UnionField) : string :=
  "obj.AddField(" +:+ quoted (union_field_name field) +:+ ", this.Value);".

Lemma variant_encode_runs env field :
  run_body env (variant_encode_body field) =
  {| executed := "var obj = encoder.AddObject()" :: tag_entry field
                 :: if is_void_type (union_field_data_type field) then []
                    else [value_entry field];
     state := Running; chain_open := false |}.
Proof.
  unfold variant_encode_body, void_variant_encode_body,
    value_variant_encode_body.
  destruct (is_void_type _);
    rewrite run_body_eq, run_list_cons, run_list_nil, run_Using by reflexivity;
    rewrite statement_plain by plain_text;
    rewrite ?run_list_cons, run_list_nil;
    rewrite (run_Emit_plain env _ {| executed := _ |})
      by (try reflexivity; plain_text).
  - reflexivity.
  - rewrite run_Emit_plain by (try reflexivity; plain_text). reflexivity.
Qed.

Ltac in_list :=
  cbn [app];
  repeat first [apply list_elem_of_here | apply list_elem_of_further].

Lemma variant_class_has_encode self field class_name emitted :
  _generate_union_field_type self field class_name = Ok emitted ->
  exists members,
    Class_ (_public_name (union_field_name field))
      [class_name;
       "enc.IEncodable<" +:+ _public_name (union_field_name field) +:+ ">"]
      "public sealed" members ∈ emitted
    /\ CsBlock (Some ("void enc.IEncodable<" +:+
                      _public_name (union_field_name field) +:+
                      ">.Encode(enc.IEncoder encoder)"))
         (variant_encode_body field) ∈ members.
Proof.
  unfold _generate_union_field_type, variant_encode_body. intros H.
  inv_ok H. subst emitted. exists v. split.
  - in_list.
  - destruct (is_void_type _).
    + inv_ok Hv. subst v. unfold _generate_union_field_void_type.
      in_list.
    + unfold _generate_union_field_value_type in Hv. inv_ok Hv. subst v.
      in_list.
Qed.

Section UnionEncodeDispatch.
Variable env : environment.
Variable union : Union.

Lemma final_else_closed (has_catch_all : bool) x :
  chain_open x = false ->
  run_list env (if has_catch_all then []
                else [Else_ [throw_invalid_operation]]) x = x.
Proof.
  intros Hclosed. destruct has_catch_all; [reflexivity|].
  rewrite run_list_cons, run_list_nil.
  destruct (is_running x) eqn:Hx; [|apply run_stopped, Hx].
  rewrite run_Else, Hclosed by exact Hx. reflexivity.
Qed.

Lemma union_encode_taken before field after :
  union_fields union = before ++ field :: after ->
  (forall g, g ∈ before -> holds env (is_accessor g) = false) ->
  (forall g, g ∈ tail before -> is_catch_all_field union g = false) ->
  match before with
  | [] => holds env (is_accessor field) = true
  | _ => is_catch_all_field union field = true
         \/ holds env (is_accessor field) = true
  end ->
  run_body env (union_encode_body union) =
  {| executed := [delegate_text field]; state := Running;
     chain_open := false |}.
Proof.
  intros Hfields Hh Hc Hfield. destruct before as [|first before].
  - rewrite (union_encode_body_cons union field after Hfields).
    rewrite run_body_eq, run_list_cons, run_If, Hfield by reflexivity.
    rewrite (run_delegate env field start eq_refl).
    rewrite run_list_app, later_branches_closed by reflexivity.
    apply final_else_closed. reflexivity.
  - rewrite (union_encode_body_cons union first
               (before ++ field :: after) Hfields).
    rewrite run_body_eq, run_list_cons, run_If, (Hh first)
      by (reflexivity || left).
    rewrite (later_branches_taken env union before field after
               (open_chain start) eq_refl eq_refl Hc).
    + apply final_else_closed. reflexivity.
    + intros g Hg. apply Hh. right. exact Hg.
    + exact Hfield.
Qed.

Lemma union_encode_none_matches :
  catch_all_field union = None ->
  union_fields union <> [] ->
  (forall g, g ∈ union_fields union -> holds env (is_accessor g) = false) ->
  run_body env (union_encode_body union) =
  {| executed := ["throw new sys.InvalidOperationException();"];
     state := Thrown; chain_open := false |}.
Proof.
  intros Hnone Hfields Hh.
  assert (Hc : forall g, is_catch_all_field union g = false).
  { intros g. unfold is_catch_all_field. rewrite Hnone. reflexivity. }
  destruct (union_fields union) as [|first rest] eqn:Hu; [easy|].
  rewrite (union_encode_body_cons union first rest Hu).
  replace (existsb (is_catch_all_field union) rest) with false.
  2:{ clear -Hc. induction rest as [|f rest IH]; [reflexivity|].
      simpl. rewrite Hc. exact IH. }
  rewrite run_body_eq, run_list_cons, run_If, (Hh first)
    by (reflexivity || left).
  rewrite run_list_app, later_branches_fail; try reflexivity.
  - intros g _. apply Hc.
  - intros g Hg. apply Hh. right. exact Hg.
Qed.
End UnionEncodeDispatch.

(** ** Sample type models *)

(** The generator while it works on namespace [files]. *)
Definition files_generator : CSharpGenerator :=
  {| _ns := "Files"; _name_list := []; _prevent_collisions := ∅;
     _related_types := ∅ |}.

Definition variant (name : string) (data_type : DataType) : UnionField :=
  {| union_field_name := name; union_field_data_type := data_type;
     union_field_doc := None |}.

(** A closed union: [red], [green], [blue], no catch-all. *)
Definition color : Union :=
  {| union_name := "color"; union_namespace := "files"; union_doc := None;
     union_fields := [variant "red" Void; variant "green" Void;
                      variant "blue" Void];
     catch_all_field := None |}.

(** An open union whose catch-all [other] is declared last. *)
Definition access_level : Union :=
  {| union_name := "access_level"; union_namespace := "files";
     union_doc := None;
     union_fields := [variant "owner" Void;
                      variant "editor" (String_ None None None);
                      variant "other" Void];
     catch_all_field := Some (variant "other" Void) |}.

(** No identity test holds; the switched expressions have value [tag]. *)
Definition unknown_instance (tag : string) : environment :=
  {| holds := fun _ => false; value_of := fun _ => tag |}.

(** Exactly the given condition holds. *)
Definition instance_with (condition : string) : environment :=
  {| holds := fun c => bool_decide (c = condition);
     value_of := fun _ => EmptyString |}.

(** ** The union's Encode, variant by variant *)

(** The variant has a branch of the chain guarded by its Is-accessor. *)
Definition identity_checked (union : Union) (field : UnionField) : Prop :=
  exists body,
    If_ (is_accessor field) body ∈ union_encode_body union
    \/ ElseIf (is_accessor field) body ∈ union_encode_body union.

Lemma first_or_plain_variant_checked union before field after :
  union_fields union = before ++ field :: after ->
  before = [] \/ is_catch_all_field union field = false ->
  identity_checked union field.
Proof.
  intros Hfields Hfield. exists [Emit (delegate_text field)].
  destruct before as [|first before].
  - left. rewrite (union_encode_body_cons union field after Hfields). left.
  - right. destruct Hfield as [Hnil|Hplain]; [discriminate Hnil|].
    rewrite (union_encode_body_cons union first _ Hfields).
    right. apply elem_of_app. left. apply list_elem_of_fmap.
    exists field. split.
    + unfold later_branch. rewrite Hplain. reflexivity.
    + apply elem_of_app. right. left.
Qed.

(** C3, as stated, fails: in [access_level] the catch-all [other], declared
    last, has no branch guarded by its Is-accessor; it is the [else]. *)
Lemma catch_all_variant_not_identity_checked :
  ~ (forall field, field ∈ union_fields access_level ->
                   identity_checked access_level field).
Proof.
  intros Hall.
  destruct (Hall (variant "other" Void)) as (body & H).
  { right. right. left. }
  assert (Hbody : union_encode_body access_level =
                  [If_ "this.IsOwner" [Emit (delegate_text (variant "owner" Void))];
                   ElseIf "this.IsEditor"
                     [Emit (delegate_text (variant "editor" (String_ None None None)))];
                   Else_ [Emit (delegate_text (variant "other" Void))]])
    by (vm_compute; reflexivity).
  rewrite Hbody in H.
  assert (Hacc : is_accessor (variant "other" Void) = "this.IsOther")
    by (vm_compute; reflexivity).
  rewrite Hacc in H.
  destruct H as [H|H];
    repeat (apply elem_of_cons in H as [H|H]; [discriminate H|]);
    inversion H.
Qed.

(** C3 (amended). The union's [Encode] tests the variants in declared
    order: the first variant and every later variant other than the
    catch-all by its Is-accessor, while a catch-all declared after the first
    variant is the unconditional [else] branch.  The first variant whose
    branch is taken (no [else] of a catch-all before it) gets the instance
    handed to its own encode, which writes the tag and, for a
    value-carrying variant, one value entry.  With no catch-all configured,
    an instance that passes no test raises the invalid-state error. *)
Theorem union_encode_dispatch (env : environment) (union : Union) :
  (forall before field after,
     union_fields union = before ++ field :: after ->
     before = [] \/ is_catch_all_field union field = false ->
     identity_checked union field)
  /\ (forall before field after,
        union_fields union = before ++ field :: after ->
        (forall g, g ∈ before -> holds env (is_accessor g) = false) ->
        (forall g, g ∈ tail before -> is_catch_all_field union g = false) ->
        match before with
        | [] => holds env (is_accessor field) = true
        | _ => is_catch_all_field union field = true
               \/ holds env (is_accessor field) = true
        end ->
        run_body env (union_encode_body union) =
        {| executed := [delegate_text field]; state := Running;
           chain_open := false |})
  /\ (catch_all_field union = None ->
      union_fields union <> [] ->
      (forall g, g ∈ union_fields union ->
                 holds env (is_accessor g) = false) ->
      run_body env (union_encode_body union) =
      {| executed := ["throw new sys.InvalidOperationException();"];
         state := Thrown; chain_open := false |})
  /\ (forall self field class_name emitted,
        _generate_union_field_type self field class_name = Ok emitted ->
        (exists members,
           Class_ (_public_name (union_field_name field))
             [class_name;
              "enc.IEncodable<" +:+ _public_name (union_field_name field)
              +:+ ">"]
             "public sealed" members ∈ emitted
           /\ CsBlock (Some ("void enc.IEncodable<" +:+
                             _public_name (union_field_name field) +:+
                             ">.Encode(enc.IEncoder encoder)"))
                (variant_encode_body field) ∈ members)
        /\ run_body env (variant_encode_body field) =
           {| executed :=
                "var obj = encoder.AddObject()" :: tag_entry field
                :: (if is_void_type (union_field_data_type field) then []
                    else [value_entry field]);
              state := Running; chain_open := false |}).
Proof.
  split; [|split; [|split]].
  - apply first_or_plain_variant_checked.
  - apply union_encode_taken.
  - apply union_encode_none_matches.
  - intros self field class_name emitted H. split.
    + eapply variant_class_has_encode, H.
    + apply variant_encode_runs.
Qed.

(** An [access_level] instance that is an [editor] goes to the editor's
    encode; one that passes no test goes to the catch-all's. *)
Lemma union_encode_dispatch_witness :
  run_body (instance_with "this.IsEditor") (union_encode_body access_level)
  = {| executed := [delegate_text (variant "editor" (String_ None None None))];
       state := Running; chain_open := false |}
  /\ run_body (unknown_instance "x") (union_encode_body access_level)
     = {| executed := [delegate_text (variant "other" Void)];
          state := Running; chain_open := false |}
  /\ run_body (unknown_instance "x") (union_encode_body color)
     = {| executed := ["throw new sys.InvalidOperationException();"];
          state := Thrown; chain_open := false |}.
Proof.
  split; [|split].
  - apply (proj1 (proj2 (union_encode_dispatch
                           (instance_with "this.IsEditor") access_level))
             [variant "owner" Void] (variant "editor" (String_ None None None))
             [variant "other" Void]).
    + reflexivity.
    + intros g Hg. apply list_elem_of_singleton in Hg as ->. reflexivity.
    + intros g Hg. inversion Hg.
    + right. reflexivity.
  - apply (proj1 (proj2 (union_encode_dispatch
                           (unknown_instance "x") access_level))
             [variant "owner" Void; variant "editor" (String_ None None None)]
             (variant "other" Void) []).
    + reflexivity.
    + intros g _. reflexivity.
    + intros g Hg. apply list_elem_of_singleton in Hg as ->. reflexivity.
    + left. reflexivity.
  - apply (proj1 (proj2 (proj2 (union_encode_dispatch
                                  (unknown_instance "x") color)))).
    + reflexivity.
    + discriminate.
    + intros g _. reflexivity.
Defined.

(** ** Sample structs *)

Definition field (name : string) (data_type : DataType)
    (default : option literal) : Field :=
  {| name := name; data_type := data_type; default := default; doc := None |}.

Definition plain_struct (name : string) (fields : list Field) : Struct :=
  {| struct_name := name; struct_namespace := "files"; struct_doc := None;
     fields := fields; parent_type := None; enumerated_subtypes := [];
     is_catch_all := false |}.

(** A struct whose only field is a required list of strings. *)
Definition tagged_file : Struct :=
  plain_struct "tagged_file" [field "tags" (List (String_ None None None) None None) None].

(** Required list, optional list, defaulted string, optional number. *)
Definition file_info : Struct :=
  plain_struct "file_info"
    [field "tags" (List (String_ None None None) None None) None;
     field "opt_tags" (Nullable (List (String_ None None None) None None)) None;
     field "display_name"
       (String_ (Some 1%Z) (Some 10%Z) (Some "^[a-z]+$")) (Some (LStr "abc"));
     field "count" (Nullable (Numeric UInt64 (Some (Int 0)) None)) None].

(** The root of a closed family with one field and the subtype [circle]. *)
Definition shape : Struct :=
  {| struct_name := "shape"; struct_namespace := "files"; struct_doc := None;
     fields := [field "label" (String_ None None None) None];
     parent_type := None;
     enumerated_subtypes :=
       [{| subtype_name := "circle";
           subtype_data_type := StructRef "circle" "files" |}];
     is_catch_all := false |}.

Definition circle : Struct :=
  {| struct_name := "circle"; struct_namespace := "files"; struct_doc := None;
     fields := [field "radius" (Numeric Float64 None None) None];
     parent_type := Some shape;
     enumerated_subtypes := [];
     is_catch_all := false |}.

(** ** Access of the initializing constructor *)

Lemma for_each_length {A B} (f : A -> result B) xs ys :
  for_each f xs = Ok ys -> length ys = length xs.
Proof.
  intros H. apply for_each_Forall2 in H.
  symmetry. eapply Forall2_length, H.
Qed.

(** C10. The initializing constructor takes one argument per field of
    [all_fields]; it is declared [protected] when the struct enumerates
    subtypes and has at least one argument, and [public] otherwise. *)
Theorem init_ctor_access (self : CSharpGenerator) (struct : Struct)
    (class_name : string) (parent : option Struct)
    (inherited : gset string) (emitted : list code) :
  _generate_struct_init_ctor self struct class_name parent inherited
  = Ok emitted ->
  exists documentation arguments rest,
    emitted =
      documentation
      :: GenerateMultilineList arguments
           ((if has_enumerated_subtypes struct
                && negb (is_empty (all_fields struct))
             then "protected" else "public") +:+ " " +:+ class_name)
      :: rest
    /\ length arguments = length (all_fields struct).
Proof.
  unfold _generate_struct_init_ctor. intros H. inv_ok H. subst emitted.
  unfold _make_struct_constructor_args in Hv.
  pose proof (for_each_length _ _ _ Hv) as Hlen.
  eexists _, (map arg v), _. split.
  - cbn [app]. unfold ctor_access.
    replace (is_empty v) with (is_empty (all_fields struct))
      by (destruct v, (all_fields struct); simpl in *; congruence).
    reflexivity.
  - rewrite length_map. exact Hlen.
Qed.

Lemma init_ctor_access_witness :
  exists emitted documentation arguments rest,
    _generate_struct_init_ctor files_generator shape "Shape" None ∅
    = Ok emitted
    /\ emitted = documentation
                 :: GenerateMultilineList arguments "protected Shape" :: rest
    /\ length arguments = 1.
Proof.
  assert (H : {emitted |
               _generate_struct_init_ctor files_generator shape "Shape" None ∅
               = Ok emitted}) by (eexists; vm_compute; reflexivity).
  destruct H as [emitted H].
  destruct (init_ctor_access _ _ _ _ _ _ H)
    as (documentation & arguments & rest & Heq & Hlen).
  exists emitted, documentation, arguments, rest.
  split; [exact H|]. split; [exact Heq|exact Hlen].
Defined.

(** ** The zero-argument constructor *)

(** The constructor body assigns to the property of the field. *)
Definition populated (body : list code) (field : Field) : Prop :=
  exists value,
    Emit ("this." +:+ _public_name (name field) +:+ " = " +:+ value +:+ ";")
    ∈ body.

(** C7, as stated, fails: the zero-argument constructor of [tagged_file]
    is empty, it assigns no empty sequence (nor anything else) to the
    list-typed field [tags]. *)
Lemma list_field_not_prepopulated :
  ~ (forall field,
       field ∈ all_fields tagged_file ->
       exists body,
         default_ctor_body files_generator tagged_file
           (parent_type_fields tagged_file) = Ok body
         /\ populated body field).
Proof.
  intros Hall.
  destruct (Hall (field "tags" (List (String_ None None None) None None) None))
    as (body & Hbody & value & Hin).
  { left. }
  vm_compute in Hbody. injection Hbody as <-. inversion Hin.
Qed.

Lemma default_ctor_generated self struct emitted :
  all_fields struct <> [] ->
  _generate_struct self struct = Ok emitted ->
  exists inherits access members body,
    Class_ (_public_name (struct_name struct)) inherits access members
    ∈ emitted
    /\ CsBlock (Some ("public " +:+ _public_name (struct_name struct) +:+
                      "()")) body ∈ members
    /\ default_ctor_body self struct (parent_type_fields struct) = Ok body.
Proof.
  intros Hfields H. unfold _generate_struct in H. inv_ok H. subst emitted.
  destruct (all_fields struct) as [|first rest] eqn:Hall; [easy|].
  cbn [is_empty negb] in Hv0.
  unfold _generate_struct_default_ctor in Hv0. rewrite Hall in Hv0.
  cbn [is_empty] in Hv0. inv_ok Hv0. subst v0.
  eexists _, _, _, v4. split; [in_list|]. split; [|exact Hv4].
  apply elem_of_app. right. in_list.
Qed.

Lemma default_ctor_body_fields self struct inherited body :
  default_ctor_body self struct inherited = Ok body ->
  exists per_field,
    Forall2 (fun field emitted =>
               default_ctor_field self inherited field = Ok emitted)
      (all_fields struct) per_field
    /\ body = concat per_field.
Proof.
  unfold default_ctor_body. intros H. inv_ok H. subst body.
  exists v. split; [apply for_each_Forall2, Hv|reflexivity].
Qed.

(** The value that a C# literal of the emitted code denotes: a decimal
    integer, [true] or [false]. *)
Definition read_literal (text : string) : option literal :=
  match NilZero.int_of_string text with
  | Some d => Some (LNum (Int (Z.of_int d)))
  | None =>
      if bool_decide (text = "true") then Some (LBool true)
      else if bool_decide (text = "false") then Some (LBool false)
      else None
  end.

Lemma read_format_int (z : Z) :
  read_literal (format_int z) = Some (LNum (Int z)).
Proof.
  unfold read_literal, format_int. rewrite NilZero.isi.
  - rewrite DecimalZ.of_to. reflexivity.
  - destruct z as [|p|p]; cbn; [discriminate| |discriminate].
    intros H. injection H as H.
    exact (DecimalPos.Unsigned.to_uint_nonnil p H).
  - destruct z as [|p|p]; cbn; [discriminate|discriminate|].
    intros H. injection H as H.
    exact (DecimalPos.Unsigned.to_uint_nonnil p H).
Qed.

(** The assignment of a declared boolean or integer default denotes that
    default. *)
Lemma default_literal_read (literal : literal) :
  match literal with
  | LBool _ | LNum (Int _) =>
      read_literal (format_literal (_process_literal literal)) = Some literal
  | _ => True
  end.
Proof.
  destruct literal as [|[]|[z|repr]|s|union tag repr]; try exact I;
    try reflexivity.
  apply read_format_int.
Qed.

(** The fields that the parent class implements are fields of the parent,
    which therefore has fields of its own. *)
Lemma inherited_field struct field :
  name field ∈ parent_type_fields struct ->
  exists parent inherited,
    enumerating_parent struct = Some parent
    /\ inherited ∈ all_fields parent
    /\ name inherited = name field
    /\ all_fields parent <> [].
Proof.
  unfold parent_type_fields.
  destruct (enumerating_parent struct) as [parent|];
    [|intros H; apply not_elem_of_empty in H; contradiction].
  intros H. apply elem_of_list_to_set, list_elem_of_fmap in H
    as (inherited & Hname & Hin).
  exists parent, inherited. split; [reflexivity|]. split; [exact Hin|].
  split; [symmetry; exact Hname|].
  intros Hnil. rewrite Hnil in Hin. inversion Hin.
Qed.

(** C7 (amended). Whenever the struct has a field, a zero-argument
    constructor is generated.  Its body holds, in declaration order, what
    is emitted for each field.  For a field that the class implements
    itself and that has a declared default this is one assignment to the
    field's property: of the singleton of the default tag for a union-typed
    field, and of the C# literal that denotes the default for a boolean or
    integer default.  Nothing is emitted for a field without a declared
    default, list-typed or not: such a field is not populated by this
    constructor.  Nothing is emitted either for a field that the parent
    class implements; it is a field of the parent, whose class has its own
    zero-argument constructor. *)
Theorem default_ctor_prepopulates (self : CSharpGenerator) (struct : Struct) :
  (all_fields struct <> [] ->
   forall emitted,
     _generate_struct self struct = Ok emitted ->
     exists inherits access members body,
       Class_ (_public_name (struct_name struct)) inherits access members
       ∈ emitted
       /\ CsBlock (Some ("public " +:+ _public_name (struct_name struct) +:+
                         "()")) body ∈ members
       /\ default_ctor_body self struct (parent_type_fields struct) = Ok body)
  /\ (forall inherited body,
        default_ctor_body self struct inherited = Ok body ->
        exists per_field,
          Forall2 (fun field emitted =>
                     default_ctor_field self inherited field = Ok emitted)
            (all_fields struct) per_field
          /\ body = concat per_field)
  /\ (forall inherited field,
        name field ∉ inherited ->
        match default field with
        | None => default_ctor_field self inherited field = Ok []
        | Some literal =>
            if is_composite_type (data_type field)
            then forall union tag repr,
                   literal = TagRef union tag repr ->
                   is_union_type (data_type field) = true ->
                   default_ctor_field self inherited field =
                   Ok [Emit ("this." +:+ _public_name (name field) +:+
                             " = " +:+ _public_name union +:+ "." +:+
                             _public_name tag +:+ ".Instance;")]
            else exists value,
                   default_ctor_field self inherited field =
                   Ok [Emit ("this." +:+ _public_name (name field) +:+
                             " = " +:+ value +:+ ";")]
                   /\ match literal with
                      | LBool _ | LNum (Int _) =>
                          read_literal value = Some literal
                      | _ => True
                      end
        end)
  /\ (forall inherited field,
        name field ∈ inherited ->
        default_ctor_field self inherited field = Ok [])
  /\ (forall field,
        name field ∈ parent_type_fields struct ->
        exists parent inherited,
          enumerating_parent struct = Some parent
          /\ inherited ∈ all_fields parent
          /\ name inherited = name field
          /\ all_fields parent <> []).
Proof.
  split; [|split; [|split; [|split]]].
  - intros Hfields emitted. apply default_ctor_generated, Hfields.
  - intros inherited body. apply default_ctor_body_fields.
  - intros inherited field Hown. unfold default_ctor_field.
    rewrite bool_decide_eq_false_2 by exact Hown.
    destruct (default field) as [literal|] eqn:Hdefault; [|reflexivity].
    destruct (is_composite_type (data_type field)) eqn:Hcomposite.
    + intros union tag repr -> Hunion.
      unfold _process_composite_default, _process_union_default.
      rewrite Hunion, Hdefault.
      destruct (is_struct_type (data_type field)) eqn:Hstruct; [|reflexivity].
      destruct (data_type field); discriminate.
    + exists (format_literal (_process_literal literal)).
      split; [reflexivity|]. apply default_literal_read.
  - intros inherited field Hin. unfold default_ctor_field.
    rewrite bool_decide_eq_true_2 by exact Hin. reflexivity.
  - intros field. apply inherited_field.
Qed.

(** A struct with a boolean and an integer default and a list without. *)
Definition listing : Struct :=
  plain_struct "listing"
    [field "recursive" Boolean (Some (LBool false));
     field "limit" (Numeric UInt32 None None) (Some (LNum (Int 25)));
     field "tags" (List (String_ None None None) None None) None].

(** The zero-argument constructor of [listing] assigns [false] and [25]
    and leaves [tags] alone. *)
Lemma default_ctor_prepopulates_witness :
  all_fields listing <> []
  /\ (exists emitted inherits access members,
        _generate_struct files_generator listing = Ok emitted
        /\ Class_ "Listing" inherits access members ∈ emitted
        /\ CsBlock (Some "public Listing()")
             [Emit "this.Recursive = false;"; Emit "this.Limit = 25;"]
           ∈ members)
  /\ default_ctor_field files_generator ∅
       (field "tags" (List (String_ None None None) None None) None) = Ok [].
Proof.
  split; [discriminate|]. split.
  - assert (H : {emitted |
                 _generate_struct files_generator listing = Ok emitted})
      by (eexists; vm_compute; reflexivity).
    destruct H as [emitted H].
    destruct (proj1 (default_ctor_prepopulates files_generator listing)
                ltac:(discriminate) emitted H)
      as (inherits & access & members & body & Hclass & Hctor & Hbody).
    vm_compute in Hbody. injection Hbody as <-.
    exists emitted, inherits, access, members.
    split; [exact H|]. split; [exact Hclass|exact Hctor].
  - apply (proj1 (proj2 (proj2 (default_ctor_prepopulates files_generator
                                  listing)))
             ∅ (field "tags" (List (String_ None None None) None None) None)).
    apply not_elem_of_empty.
Defined.

(** ** Null rejection in the initializing constructor *)

(** The check that rejects a missing argument. *)
Definition null_rejection (argument : string) : code :=
  If_ (argument +:+ " == null") [throw_null argument].

(** Composite, string or list once the nullable layer is taken off. *)
Definition reference_like (data_type : DataType) : bool :=
  _could_be_null (if is_nullable_type data_type then inner_type data_type
                  else data_type).

Fixpoint chars (s : string) : list ascii :=
  match s with
  | EmptyString => []
  | String c rest => c :: chars rest
  end.

Lemma chars_app s t : chars (s +:+ t) = chars s ++ chars t.
Proof. induction s as [|c s IH]; [reflexivity|]. rewrite append_cons. simpl. rewrite IH. reflexivity. Qed.

(** Refutes an equation between two texts that end differently. *)
Ltac by_last_chars H :=
  apply (f_equal (fun s => rev (chars s))) in H;
  repeat rewrite ?chars_app, ?rev_app_distr in H;
  simpl in H; discriminate H.

Lemma throw_null_not_assignment argument target union tag :
  throw_null argument
  <> Emit (target +:+ " = " +:+ union +:+ "." +:+ tag +:+ ".Instance;").
Proof.
  unfold throw_null. intros H.
  assert (Htext : "throw new sys.ArgumentNullException(" +:+
                  quoted argument +:+ ");"
                  = target +:+ " = " +:+ union +:+ "." +:+ tag +:+
                    ".Instance;")
    by congruence.
  by_last_chars Htext.
Qed.

Lemma throw_null_not_out_of_range a b : throw_null a <> throw_out_of_range b.
Proof.
  unfold throw_null, throw_out_of_range. intros H.
  assert (Htext : "throw new sys.ArgumentNullException(" +:+
                  quoted a +:+ ");"
                  = "throw new sys.ArgumentOutOfRangeException(" +:+
                    quoted b +:+ ");") by congruence.
  revert Htext. expose. discriminate.
Qed.

Lemma check_constraints_null_rejection self argument data_type has_null_check
    emitted :
  _check_constraints self argument data_type has_null_check = Ok emitted ->
  (null_rejection argument ∈ emitted
   <-> is_nullable_type data_type = false
       /\ _could_be_null data_type = true
       /\ has_null_check = false).
Proof.
  unfold _check_constraints. intros H. inv_ok H.
  destruct v as [declared checks]. inv_ok H. subst emitted.
  assert (Hdeclared : null_rejection argument ∉ declared).
  { intros Hin.
    destruct (if is_nullable_type data_type then inner_type data_type
              else data_type); inv_ok Hv; subst declared;
      repeat (apply elem_of_cons in Hin as [Hin|Hin]; [discriminate Hin|]);
      inversion Hin. }
  assert (Hrange : forall control pre post,
            (control = If_ \/ control = ElseIf) ->
            null_rejection argument ∉
              match checks with
              | [] => []
              | _ => [control (pre +:+ join " || " checks +:+ post)
                        [throw_out_of_range argument]]
              end).
  { intros control pre post Hcontrol Hin. destruct checks; [inversion Hin|].
    apply list_elem_of_singleton in Hin.
    destruct Hcontrol as [-> | ->]; [|discriminate Hin].
    apply (throw_null_not_out_of_range argument argument).
    unfold null_rejection in Hin. congruence. }
  assert (Hblank : forall need_emit : bool,
            null_rejection argument ∉ if need_emit then [emit_blank] else []).
  { intros [] Hin; [apply list_elem_of_singleton in Hin; discriminate Hin
                   |inversion Hin]. }
  rewrite !elem_of_app.
  destruct (is_nullable_type data_type) eqn:Hnullable.
  - cbn [negb andb]. split.
    + intros [Hin|[Hin|[Hin|Hin]]].
      * contradiction.
      * inversion Hin.
      * exfalso. eapply Hrange; [left; reflexivity|exact Hin].
      * exfalso. eapply Hblank, Hin.
    + intros [Hfalse _]. discriminate Hfalse.
  - cbn [negb andb]. destruct (_could_be_null data_type) eqn:Hnull.
    + destruct has_null_check; cbn [negb andb].
      * split.
        -- intros [Hin|[Hin|[Hin|Hin]]].
           ++ contradiction.
           ++ inversion Hin.
           ++ exfalso. eapply Hrange; [right; reflexivity|exact Hin].
           ++ exfalso. eapply Hblank, Hin.
        -- intros (_ & _ & Hfalse). discriminate Hfalse.
      * split; [auto|]. intros _. right. left. left.
    + split.
      * intros [Hin|[Hin|[Hin|Hin]]].
        -- contradiction.
        -- inversion Hin.
        -- exfalso. eapply Hrange; [left; reflexivity|exact Hin].
        -- exfalso. eapply Hblank, Hin.
      * intros (_ & Hfalse & _). discriminate Hfalse.
Qed.

Lemma composite_default_shape self field emitted :
  _process_composite_default self field true = Ok emitted ->
  exists argument union tag,
    emitted = [If_ (argument +:+ " == null")
                 [Emit (argument +:+ " = " +:+ union +:+ "." +:+ tag +:+
                        ".Instance;")]].
Proof.
  unfold _process_composite_default, _process_union_default. intros H.
  destruct (is_struct_type _); [discriminate H|].
  destruct (is_union_type _); [|discriminate H].
  destruct (default field) as [[| | | |union tag repr]|]; try discriminate H.
  inv_ok H. subst emitted. eauto.
Qed.

(** C4, as stated, fails: [display_name] of [file_info] is a string with a
    declared default, and its null-rejection check is emitted all the
    same. *)
Lemma defaulted_string_still_null_checked :
  ~ (forall field argument checks,
       field ∈ all_fields file_info ->
       reference_like (data_type field) = true ->
       _arg_name (name field) = Ok argument ->
       init_ctor_field_checks files_generator (parent_type_fields file_info)
         field = Ok checks ->
       (null_rejection argument ∈ checks
        <-> has_default field = false
            /\ is_nullable_type (data_type field) = false)).
Proof.
  intros Hall.
  destruct (Hall (field "display_name"
                    (String_ (Some 1%Z) (Some 10%Z) (Some "^[a-z]+$"))
                    (Some (LStr "abc")))
              "displayName"
              [null_rejection "displayName";
               ElseIf ("displayName.Length < 1 || displayName.Length > 10 || "
                       +:+ "!re.Regex.IsMatch(displayName, @" +:+
                       quoted "^[a-z]+$" +:+ ")")
                 [throw_out_of_range "displayName"];
               emit_blank]) as [Hchecked _].
  - right. right. left.
  - reflexivity.
  - vm_compute. reflexivity.
  - vm_compute. reflexivity.
  - destruct Hchecked as [Hdefault _]; [left|discriminate Hdefault].
Qed.

Lemma field_checks_null_rejection (self : CSharpGenerator)
    (inherited : gset string) (field : Field) (argument : string)
    (checks : list code) :
  name field ∉ inherited ->
  reference_like (data_type field) = true ->
  _arg_name (name field) = Ok argument ->
  init_ctor_field_checks self inherited field = Ok checks ->
  (null_rejection argument ∈ checks
   <-> is_nullable_type (data_type field) = false
       /\ (has_default field && is_composite_type (data_type field)) = false).
Proof.
  intros Hown Href Harg H. unfold init_ctor_field_checks in H.
  rewrite bool_decide_eq_false_2 in H by exact Hown.
  inv_ok H. destruct v as [defaulting has_null_check]. inv_ok H.
  rewrite Harg in Hv0. injection Hv0 as <-. subst checks.
  pose proof (check_constraints_null_rejection _ _ _ _ _ Hv1) as Hcheck.
  rewrite elem_of_app, Hcheck.
  destruct (has_default field && is_composite_type (data_type field))
    eqn:Hdefaulted.
  - inv_ok Hv. subst.
    match goal with
    | Hshape : _process_composite_default _ _ _ = Ok _ |- _ =>
        apply composite_default_shape in Hshape as (a & union & tag & ->)
    end.
    split; [|intros [_ Hfalse]; discriminate Hfalse].
    intros [Hin|(_ & _ & Hfalse)]; [|discriminate Hfalse].
    apply list_elem_of_singleton in Hin. exfalso.
    apply (throw_null_not_assignment argument a union tag).
    unfold null_rejection in Hin. congruence.
  - inv_ok Hv. subst.
    split.
    + intros [Hin|(Hnullable & _ & _)]; [inversion Hin|].
      split; [exact Hnullable|reflexivity].
    + intros [Hnullable _]. right. split; [exact Hnullable|].
      split; [|reflexivity].
      unfold reference_like in Href. rewrite Hnullable in Href. exact Href.
Qed.

Lemma for_each_elem {A B} (f : A -> result B) xs ys x :
  for_each f xs = Ok ys -> x ∈ xs -> exists y, f x = Ok y /\ y ∈ ys.
Proof.
  intros H. apply for_each_Forall2 in H.
  induction H as [|x' y' xs ys Hy _ IH]; intros Hin; [inversion Hin|].
  apply elem_of_cons in Hin as [->|Hin].
  - exists y'. split; [exact Hy|left].
  - destruct (IH Hin) as (y & Hfy & Hys). exists y. split; [exact Hfy|].
    right. exact Hys.
Qed.

Lemma elem_of_concat {A} (x : A) (l : list A) (ls : list (list A)) :
  x ∈ l -> l ∈ ls -> x ∈ concat ls.
Proof.
  intros Hx Hl. induction Hl as [l ls|l l' ls _ IH]; simpl;
    apply elem_of_app; [left; exact Hx|right; exact (IH Hx)].
Qed.

(** The body of the initializing constructor holds the checks of every
    field. *)
Lemma init_ctor_body_checks self struct inherited body field :
  init_ctor_body self struct inherited = Ok body ->
  field ∈ all_fields struct ->
  exists checks,
    init_ctor_field_checks self inherited field = Ok checks
    /\ forall c, c ∈ checks -> c ∈ body.
Proof.
  unfold init_ctor_body. intros H Hin. inv_ok H. subst body.
  destruct (for_each_elem _ _ _ _ Hv Hin) as (checks & Hchecks & Hpart).
  exists checks. split; [exact Hchecks|].
  intros c Hc. apply elem_of_app. left.
  exact (elem_of_concat c checks v Hc Hpart).
Qed.

Lemma init_ctor_block self struct class_name parent inherited emitted :
  _generate_struct_init_ctor self struct class_name parent inherited
  = Ok emitted ->
  exists body,
    init_ctor_body self struct inherited = Ok body
    /\ CsBlock None body ∈ emitted.
Proof.
  unfold _generate_struct_init_ctor. intros H. inv_ok H. subst emitted.
  exists v1. split; [exact Hv1|].
  do 2 apply list_elem_of_further. apply elem_of_app. right. left.
Qed.

(** C4 (amended). For a reference-like field that the constructor handles
    itself (not one implemented by the parent class), the body of the
    initializing constructor holds the checks emitted for the field, and
    these contain the null-rejection check naming the field exactly when
    the field is not nullable and is not a composite-typed field with a
    declared default; a string or list field with a declared default keeps
    the check. *)
Theorem null_rejection_emitted (self : CSharpGenerator) (struct : Struct)
    (class_name : string) (parent : option Struct) (inherited : gset string)
    (emitted : list code) (field : Field) (argument : string) :
  _generate_struct_init_ctor self struct class_name parent inherited
  = Ok emitted ->
  field ∈ all_fields struct ->
  name field ∉ inherited ->
  reference_like (data_type field) = true ->
  _arg_name (name field) = Ok argument ->
  exists body checks,
    CsBlock None body ∈ emitted
    /\ init_ctor_field_checks self inherited field = Ok checks
    /\ (forall c, c ∈ checks -> c ∈ body)
    /\ (null_rejection argument ∈ checks
        <-> is_nullable_type (data_type field) = false
            /\ (has_default field && is_composite_type (data_type field))
               = false).
Proof.
  intros Hemitted Hin Hown Href Harg.
  destruct (init_ctor_block _ _ _ _ _ _ Hemitted) as (body & Hbody & Hblock).
  destruct (init_ctor_body_checks _ _ _ _ _ Hbody Hin)
    as (checks & Hchecks & Hpart).
  exists body, checks. split; [exact Hblock|]. split; [exact Hchecks|].
  split; [exact Hpart|].
  exact (field_checks_null_rejection _ _ _ _ _ Hown Href Harg Hchecks).
Qed.

(** The constructor of [tagged_file] rejects a missing [tags]. *)
Lemma null_rejection_emitted_witness :
  exists emitted body,
    _generate_struct_init_ctor files_generator tagged_file "TaggedFile"
      None ∅ = Ok emitted
    /\ CsBlock None body ∈ emitted
    /\ null_rejection "tags" ∈ body.
Proof.
  assert (H : {emitted |
               _generate_struct_init_ctor files_generator tagged_file
                 "TaggedFile" None ∅ = Ok emitted})
    by (eexists; vm_compute; reflexivity).
  destruct H as [emitted H].
  destruct (null_rejection_emitted files_generator tagged_file "TaggedFile"
              None ∅ emitted
              (field "tags" (List (String_ None None None) None None) None)
              "tags" H)
    as (body & checks & Hblock & _ & Hpart & Hcheck).
  - left.
  - apply not_elem_of_empty.
  - reflexivity.
  - vm_compute. reflexivity.
  - exists emitted, body. split; [exact H|]. split; [exact Hblock|].
    apply Hpart, Hcheck. split; reflexivity.
Defined.

(** ** Fields on the wire *)

(** The type once the nullable layer is taken off. *)
Definition unwrap (data_type : DataType) : DataType :=
  if is_nullable_type data_type then inner_type data_type else data_type.

(** The test that guards the encoding of a nullable field. *)
Definition presence_test (field : Field) : string :=
  if is_list_type (inner_type (data_type field))
  then "this." +:+ _public_name (name field) +:+ ".Count > 0"
  else "this." +:+ _public_name (name field) +:+ " != null".

(** What the encoder emits around the statement that adds the field. *)
Definition guarded (field : Field) (entry : string) : list code :=
  if is_nullable_type (data_type field)
  then [If_ (presence_test field) [Emit entry]]
  else [Emit entry].

(** The statement that adds the field to the wire object under its name. *)
Definition adds_field (field : Field) (entry : string) : Prop :=
  exists method type_name suffix,
    entry = "obj." +:+ method +:+ "<" +:+ type_name +:+ ">(" +:+
            quoted (name field) +:+ ", this." +:+ _public_name (name field)
            +:+ suffix +:+ ");".

(** The field is left out of the wire object. *)
Definition omitted (env : environment) (field : Field) : bool :=
  is_nullable_type (data_type field) && negb (holds env (presence_test field)).

Lemma adds_field_plain field entry : adds_field field entry -> plain entry.
Proof. intros (method & type_name & suffix & ->). plain_text. Qed.

Lemma emit_encoder_shape self field emitted :
  _emit_encoder self field = Ok emitted ->
  exists entry, adds_field field entry /\ emitted = guarded field entry.
Proof.
  unfold _emit_encoder, guarded, presence_test. intros H. inv_ok H.
  subst emitted.
  assert (Hentry : exists entry, adds_field field entry /\ v0 = [Emit entry]).
  { destruct (is_composite_type _).
    - inv_ok Hv0. subst v0. eexists. split; [|reflexivity].
      exists "AddFieldObject", v, EmptyString. reflexivity.
    - destruct (is_list_type
                  (if is_nullable_type (data_type field)
                   then inner_type (data_type field) else data_type field)).
      + inv_ok Hv0. destruct (is_composite_type _); inv_ok Hv0; subst v0;
          (eexists; split; [|reflexivity]).
        * exists "AddFieldObjectList", v1, EmptyString. reflexivity.
        * exists "AddFieldList", v1, EmptyString. reflexivity.
      + destruct (is_nullable_type (data_type field)
                  && negb (is_string_type (inner_type (data_type field))));
          inv_ok Hv0; subst v0; (eexists; split; [|reflexivity]).
        * exists "AddField", v, ".Value". reflexivity.
        * exists "AddField", v, EmptyString. reflexivity. }
  destruct Hentry as (entry & Hadds & ->). exists entry.
  split; [exact Hadds|].
  destruct (is_nullable_type (data_type field)); [|reflexivity].
  destruct (is_list_type (inner_type (data_type field))); reflexivity.
Qed.

Section FieldsOnTheWire.
Variable env : environment.
Variable self : CSharpGenerator.

(** The statements an encoder fragment executes. *)
Lemma guarded_runs field entry x :
  plain entry -> is_running x = true ->
  executed (run_list env (guarded field entry) x)
  = executed x ++ (if omitted env field then [] else [entry])
  /\ is_running (run_list env (guarded field entry) x) = true.
Proof.
  intros Hplain Hx. unfold guarded, omitted.
  destruct (is_nullable_type (data_type field)); cbn [andb].
  - rewrite run_list_cons, run_list_nil, run_If by exact Hx.
    destruct (holds env (presence_test field)); cbn [negb].
    + rewrite run_list_cons, run_list_nil, run_Emit_plain
        by (exact Hx || exact Hplain).
      split; reflexivity.
    + split; [symmetry; apply app_nil_r|exact Hx].
  - rewrite run_list_cons, run_list_nil, run_Emit_plain
      by (exact Hx || exact Hplain).
    split; reflexivity.
Qed.

(** The statements the encoders of a list of fields execute: those of the
    fields that are not omitted, in the order of the fields. *)
Lemma encode_fields_run fields encoders :
  encode_fields self fields = Ok encoders ->
  exists entries,
    Forall2 (fun field entry =>
               adds_field field entry
               /\ _emit_encoder self field = Ok (guarded field entry))
      fields entries
    /\ encoders = concat (zip_with guarded fields entries)
    /\ forall x, is_running x = true ->
         executed (run_list env encoders x)
         = executed x
           ++ concat (zip_with (fun field entry =>
                                  if omitted env field then [] else [entry])
                        fields entries)
         /\ is_running (run_list env encoders x) = true.
Proof.
  unfold encode_fields. intros H. inv_ok H. subst encoders.
  apply for_each_Forall2 in Hv.
  induction Hv as [|field emitted fields fragments Hemitted _ IH].
  - exists []. split; [constructor|]. split; [reflexivity|].
    intros x Hx. split; [symmetry; apply app_nil_r|exact Hx].
  - destruct IH as (entries & Hentries & Hconcat & Hrun).
    pose proof Hemitted as Hshape.
    apply emit_encoder_shape in Hshape as (entry & Hadds & ->).
    exists (entry :: entries). split.
    + constructor; [split; assumption|exact Hentries].
    + split; [simpl; rewrite Hconcat; reflexivity|].
      intros x Hx. simpl concat. rewrite run_list_app.
      destruct (guarded_runs field entry x (adds_field_plain _ _ Hadds) Hx)
        as [Hexecuted Hrunning].
      destruct (Hrun _ Hrunning) as [Hrest Hrunning'].
      split; [|exact Hrunning'].
      rewrite Hrest, Hexecuted, <- app_assoc. reflexivity.
Qed.
End FieldsOnTheWire.

(** The tag statement of a declared subtype. *)
Definition struct_tag_entry (struct : Struct) : list string :=
  match enumerating_parent struct, _get_struct_tag struct with
  | Some _, Some tag =>
      ["obj.AddField<string>(" +:+ quoted ".tag" +:+ ", " +:+ quoted tag +:+
       ");"]
  | _, _ => []
  end.

(** C6, as stated, fails: the encoder of the required list [tags] of
    [tagged_file] adds the field also when the sequence has no element. *)
Lemma empty_required_list_still_encoded :
  ~ (forall field emitted,
       field ∈ all_fields tagged_file ->
       is_list_type (unwrap (data_type field)) = true ->
       _emit_encoder files_generator field = Ok emitted ->
       forall env,
         holds env ("this." +:+ _public_name (name field) +:+ ".Count > 0")
         = false ->
         executed (run_body env emitted) = []).
Proof.
  intros Hall.
  specialize (Hall (field "tags" (List (String_ None None None) None None) None)
                [Emit ("obj.AddFieldList<string>(" +:+ quoted "tags" +:+
                       ", this.Tags);")]).
  specialize (Hall ltac:(left) eq_refl ltac:(vm_compute; reflexivity)
                (unknown_instance EmptyString) eq_refl).
  vm_compute in Hall. discriminate Hall.
Qed.

Lemma filter_all {A} (P : A -> Prop) `{forall x, Decision (P x)}
    (xs : list A) :
  (forall x, P x) -> filter P xs = xs.
Proof.
  intros HP. induction xs as [|x xs IH]; [reflexivity|].
  rewrite filter_cons_True by apply HP. rewrite IH. reflexivity.
Qed.

(** C6 (amended). The [Encode] of a struct that does not enumerate
    subtypes opens the wire object, writes the tag first when the struct is
    a declared subtype, and then goes through [all_fields] in declaration
    order with one statement per field that adds it under its name.  A
    nullable field is guarded: a nullable list is left out when its
    sequence has no element, any other nullable field when it is null.  A
    field that is not nullable is always added, a list with no element
    included. *)
Theorem struct_encode_omits (env : environment) (self : CSharpGenerator)
    (struct : Struct) (body : list code) :
  has_enumerated_subtypes struct = false ->
  struct_encode_body self struct (parent_type_fields struct) = Ok body ->
  exists entries,
    Forall2 (fun field entry =>
               adds_field field entry
               /\ _emit_encoder self field = Ok (guarded field entry))
      (all_fields struct) entries
    /\ executed (run_body env body)
       = "var obj = encoder.AddObject()"
         :: struct_tag_entry struct
         ++ concat (zip_with (fun field entry =>
                                if is_nullable_type (data_type field)
                                   && negb (holds env (presence_test field))
                                then [] else [entry])
                      (all_fields struct) entries).
Proof.
  intros Hplain H. unfold struct_encode_body in H. rewrite Hplain in H.
  unfold struct_tag_entry, parent_type_fields, enumerating_parent in *.
  destruct (match parent_type struct with
            | Some parent => has_enumerated_subtypes parent
            | None => false
            end) eqn:Hparent.
  - destruct (_get_struct_tag struct) as [tag|]; [|discriminate H].
    inv_ok H. subst body.
    destruct (encode_fields_run env self _ _ Hv)
      as (entries & Hentries & _ & Hrun).
    exists entries. split; [exact Hentries|].
    destruct (parent_type struct) as [parent|]; [|discriminate Hparent].
    rewrite Hparent.
    rewrite run_body_eq, run_list_cons, run_list_nil, run_Using by reflexivity.
    rewrite statement_plain by plain_text.
    rewrite run_list_cons.
    unfold add_tag_field.
    rewrite run_Emit_plain by (try reflexivity; plain_text).
    match goal with
    | |- executed (close_chain (run_list env v ?x)) = _ =>
        destruct (Hrun x eq_refl) as [Hexecuted _]
    end.
    etransitivity; [exact Hexecuted|]. reflexivity.
  - assert (Hnone : match parent_type struct with
                    | Some parent =>
                        if has_enumerated_subtypes parent then Some parent
                        else None
                    | None => None
                    end = None).
    { destruct (parent_type struct) as [parent|]; [|reflexivity].
      rewrite Hparent. reflexivity. }
    rewrite Hnone in *.
    rewrite filter_all in H by (intros f; apply not_elem_of_empty).
    inv_ok H. subst body.
    destruct (encode_fields_run env self _ _ Hv)
      as (entries & Hentries & _ & Hrun).
    exists entries. split; [exact Hentries|].
    rewrite run_body_eq, run_list_cons, run_list_nil, run_Using by reflexivity.
    rewrite statement_plain by plain_text.
    match goal with
    | |- executed (close_chain (run_list env v ?x)) = _ =>
        destruct (Hrun x eq_refl) as [Hexecuted _]
    end.
    etransitivity; [exact Hexecuted|]. reflexivity.
Qed.

(** [file_info] with an empty optional list and no count: the required
    list and the string are written, the two nullable fields are not. *)
Example file_info_encoded :
  exists body,
    struct_encode_body files_generator file_info
      (parent_type_fields file_info) = Ok body
    /\ executed (run_body (unknown_instance EmptyString) body)
       = ["var obj = encoder.AddObject()";
          "obj.AddFieldList<string>(" +:+ quoted "tags" +:+ ", this.Tags);";
          "obj.AddField<string>(" +:+ quoted "display_name" +:+
          ", this.DisplayName);"].
Proof. eexists. split; vm_compute; reflexivity. Qed.

Lemma struct_encode_omits_witness :
  exists body entries,
    struct_encode_body files_generator file_info
      (parent_type_fields file_info) = Ok body
    /\ length entries = 4
    /\ executed (run_body (unknown_instance EmptyString) body)
       = "var obj = encoder.AddObject()"
         :: concat (zip_with (fun field entry =>
                                if is_nullable_type (data_type field)
                                then [] else [entry])
                      (all_fields file_info) entries).
Proof.
  assert (H : {body |
               struct_encode_body files_generator file_info
                 (parent_type_fields file_info) = Ok body})
    by (eexists; vm_compute; reflexivity).
  destruct H as [body H].
  destruct (struct_encode_omits (unknown_instance EmptyString)
              files_generator file_info body eq_refl H)
    as (entries & Hentries & Hexecuted).
  exists body, entries. split; [exact H|]. split.
  - symmetry. exact (Forall2_length _ _ _ Hentries).
  - rewrite Hexecuted. reflexivity.
Defined.

(** ** List fields read from the wire *)




(** ** The value a list field decodes to *)



(** What a C# expression gives: [null], a sequence, or an exception. *)
Inductive value := Null | Sequence (elements : list string).







(** ** Names in scope and qualified references *)

(** The public names of the variants, pushed while the union is generated. *)
Definition variant_names (union : Union) : list string :=
  map (fun f => _public_name (union_field_name f)) (union_fields union).

Lemma pushed_names_collide self names name :
  name ∈ names -> name ∈ _prevent_collisions (push_names self names).
Proof.
  intros Hin. unfold push_names, chain_names. cbn [_prevent_collisions].
  apply elem_of_list_to_set. rewrite concat_app. apply elem_of_app. right.
  cbn [concat]. rewrite app_nil_r. exact Hin.
Qed.

Lemma pop_push_names self names :
  _name_list (pop_names (push_names self names)) = _name_list self
  /\ _prevent_collisions (pop_names (push_names self names))
     = chain_names (_name_list self)
  /\ _ns (pop_names (push_names self names)) = _ns self.
Proof.
  unfold pop_names, push_names. cbn [_name_list _prevent_collisions _ns].
  rewrite removelast_last. repeat split.
Qed.

Lemma generate_union_scope union self emitted self' :
  _generate_union union self = Ok (emitted, self') ->
  union_class (push_names self (variant_names union)) union = Ok emitted
  /\ self' = pop_names (push_names self (variant_names union)).
Proof.
  unfold _generate_union, _local_names. fold (variant_names union).
  intros H. inv_ok H. destruct v as [emitted' scoped]. inv_ok Hv.
  subst. inv_ok H. subst. split; [assumption|reflexivity].
Qed.

(** The statement lists inside a block. *)
Definition body_of (c : code) : list code :=
  match c with
  | CsBlock _ body | Indent body | If_ _ body | ElseIf _ body | Else_ body
  | Using _ body | Class_ _ _ _ body | Region _ body | DocComment body
  | Switch _ body | Case _ _ body => body
  | _ => []
  end.

(** A union [point] with a variant [point] that refers to the type
    [point] of the namespace. *)
Definition point : Union :=
  {| union_name := "point"; union_namespace := "files"; union_doc := None;
     union_fields := [variant "origin" Void;
                      variant "point" (UnionRef "point" "files")];
     catch_all_field := None |}.

(** The types that the classes declared in the emitted code inherit
    from. *)
Fixpoint base_types (c : code) : list string :=
  let all :=
    fix all (cs : list code) : list string :=
      match cs with
      | [] => []
      | c :: rest => base_types c ++ all rest
      end in
  match c with
  | Class_ _ inherits _ body => inherits ++ all body
  | CsBlock _ body | Indent body | If_ _ body | ElseIf _ body | Else_ body
  | Using _ body | Region _ body | DocComment body | Switch _ body
  | Case _ _ body => all body
  | _ => []
  end.

(** C8, as stated, fails: inside the union [point] the class of the
    variant [point] names its base class, the union, by the short name
    [Point], which is one of the names in scope. *)
Lemma own_class_not_qualified :
  ~ (forall emitted self' base,
       _generate_union point files_generator = Ok (emitted, self') ->
       base ∈ concat (map base_types emitted) ->
       base ∉ variant_names point).
Proof.
  intros Hall.
  assert (H : {result |
               _generate_union point files_generator = Ok result})
    by (eexists; vm_compute; reflexivity).
  destruct H as [[emitted self'] H].
  apply (Hall emitted self' "Point" H).
  - vm_compute in H. injection H as <- _. vm_compute.
    apply list_elem_of_further. left.
  - right. left.
Qed.

(** The code texts of what is emitted: the statements and the headers of
    the blocks, through all blocks; documentation is left out. *)
Fixpoint texts (c : code) : list string :=
  let all :=
    fix all (cs : list code) : list string :=
      match cs with
      | [] => []
      | c :: rest => texts c ++ all rest
      end in
  match c with
  | Emit text => [text]
  | CsBlock _ body | If_ _ body | ElseIf _ body | Else_ body
  | Using _ body | Class_ _ _ _ body =>
      match before_text c with
      | Some header => [header]
      | None => []
      end ++ all body
  | Indent body | Region _ body | Switch _ body | Case _ _ body => all body
  | _ => []
  end.

Definition texts_of (cs : list code) : list string := concat (map texts cs).

Lemma texts_all_eq cs :
  (fix all (cs : list code) : list string :=
     match cs with
     | [] => []
     | c :: rest => texts c ++ all rest
     end) cs = texts_of cs.
Proof.
  induction cs as [|c cs IH]; [reflexivity|]. cbn. rewrite IH. reflexivity.
Qed.

Lemma texts_of_app cs1 cs2 : texts_of (cs1 ++ cs2) = texts_of cs1 ++ texts_of cs2.
Proof. unfold texts_of. rewrite map_app, concat_app. reflexivity. Qed.

Lemma texts_of_cons c cs : texts_of (c :: cs) = texts c ++ texts_of cs.
Proof. reflexivity. Qed.

Lemma texts_elem c cs text : c ∈ cs -> text ∈ texts c -> text ∈ texts_of cs.
Proof.
  intros Hc Htext. apply (elem_of_concat _ (texts c)); [exact Htext|].
  apply list_elem_of_fmap. exists c. split; [reflexivity|exact Hc].
Qed.

Lemma texts_of_concat cs pieces text :
  cs ∈ pieces -> text ∈ texts_of cs -> text ∈ texts_of (concat pieces).
Proof.
  intros Hin Htext.
  induction Hin as [cs pieces|cs cs' pieces _ IH]; cbn [concat];
    rewrite texts_of_app; apply elem_of_app;
    [left; exact Htext|right; exact (IH Htext)].
Qed.

(** What is inside a block is inside the code. *)
Lemma texts_inside c text :
  (forall body, c <> DocComment body) ->
  text ∈ texts_of (body_of c) -> text ∈ texts c.
Proof.
  intros Hdoc H. destruct c; cbn [body_of] in H; try (inversion H; fail);
    cbn [texts]; rewrite ?texts_all_eq; try exact H;
    try (apply elem_of_app; right; exact H).
  contradiction (Hdoc body). reflexivity.
Qed.

Lemma texts_header c header :
  before_text c = Some header ->
  match c with
  | CsBlock _ _ | If_ _ _ | ElseIf _ _ | Else_ _ | Using _ _
  | Class_ _ _ _ _ => True
  | _ => False
  end ->
  header ∈ texts c.
Proof.
  intros H Hblock. destruct c; try contradiction; cbn [texts];
    rewrite H; left.
Qed.

(** The type mapper ignores [is_property] for a composite type. *)
Lemma typename_composite self reference name namespace void is_property :
  reference = StructRef name namespace
  \/ reference = UnionRef name namespace ->
  _typename_full self reference void is_property = _typename self reference.
Proof. intros [-> | ->]; reflexivity. Qed.

(** In the scope of pushed names a colliding type of the current
    namespace is given in full. *)
Lemma typename_collision self names reference name namespace :
  reference = StructRef name namespace
  \/ reference = UnionRef name namespace ->
  _public_name name ∈ names ->
  _public_name namespace = _ns self ->
  _typename (push_names self names) reference
  = Ok (DEFAULT_NAMESPACE +:+ _ns self +:+ "." +:+ _public_name name).
Proof.
  intros Href Hin Hns.
  assert (Hcollide := pushed_names_collide self _ _ Hin).
  destruct Href as [-> | ->]; unfold _typename; cbn;
    rewrite (bool_decide_eq_false_2 (_public_name namespace <> _ns self))
      by (intros Hne; exact (Hne Hns));
    rewrite bool_decide_eq_true_2 by exact Hcollide; reflexivity.
Qed.

(** A type of another namespace carries its namespace. *)
Lemma typename_foreign self reference name namespace :
  reference = StructRef name namespace
  \/ reference = UnionRef name namespace ->
  _public_name namespace <> _ns self ->
  _typename self reference
  = Ok (if bool_decide (_public_name namespace +:+ "." +:+ _public_name name
                        ∈ _prevent_collisions self)
        then DEFAULT_NAMESPACE +:+ _ns self +:+ "." +:+
             _public_name namespace +:+ "." +:+ _public_name name
        else _public_name namespace +:+ "." +:+ _public_name name).
Proof.
  intros Href Hns.
  destruct Href as [-> | ->]; unfold _typename; cbn;
    rewrite (bool_decide_eq_true_2 (_public_name namespace <> _ns self))
      by exact Hns;
    match goal with
    | |- context [bool_decide ?P] => destruct (bool_decide P)
    end; reflexivity.
Qed.

(** The class of a value-carrying variant declares its constructor and
    its [Value] property with the types the type mapper gives. *)
Lemma variant_class_types self field class_name emitted :
  _generate_union_field_type self field class_name = Ok emitted ->
  is_void_type (union_field_data_type field) = false ->
  exists value_type property_type,
    _typename self (union_field_data_type field) = Ok value_type
    /\ _typename_full self (union_field_data_type field) None true
       = Ok property_type
    /\ ("public " +:+ _public_name (union_field_name field) +:+ "(" +:+
        value_type +:+ " value)") ∈ texts_of emitted
    /\ ("public " +:+ property_type +:+ " Value { get; private set; }")
       ∈ texts_of emitted.
Proof.
  unfold _generate_union_field_type. intros H Hvoid. rewrite Hvoid in H.
  inv_ok H. subst emitted. unfold _generate_union_field_value_type in Hv.
  inv_ok Hv. subst v.
  eexists _, _. split; [eassumption|]. split; [eassumption|].
  split.
  - eapply texts_elem; [do 2 apply list_elem_of_further; left|].
    apply texts_inside; [discriminate|]. cbn [body_of].
    eapply texts_elem; [apply list_elem_of_further; left|].
    apply texts_header; [reflexivity|exact I].
  - eapply texts_elem; [do 2 apply list_elem_of_further; left|].
    apply texts_inside; [discriminate|]. cbn [body_of].
    eapply texts_elem; [do 4 apply list_elem_of_further; left|].
    left.
Qed.

(** The case of a variant of composite type in the union's Decode creates
    and decodes an instance of the type the type mapper gives. *)
Lemma decode_case_types self union field c :
  union_decode_case self union field = Ok c ->
  is_composite_type (union_field_data_type field) = true ->
  exists arg_name type_name,
    _arg_name (union_field_name field) = Ok arg_name
    /\ _typename self (union_field_data_type field) = Ok type_name
    /\ ("var " +:+ arg_name +:+ " = new " +:+ type_name +:+ "();")
       ∈ texts c
    /\ ("return new " +:+ _public_name (union_field_name field) +:+
        "(((enc.IEncodable<" +:+ type_name +:+ ">)" +:+ arg_name +:+
        ").Decode(decoder));") ∈ texts c.
Proof.
  unfold union_decode_case. intros H Hcomposite.
  assert (Hvoid : is_void_type (union_field_data_type field) = false)
    by (destruct (union_field_data_type field); try discriminate Hcomposite;
        reflexivity).
  rewrite Hvoid, Hcomposite in H. inv_ok H. subst c.
  match goal with
  | Hbody : bind (_arg_name _) _ = Ok _ |- _ => inv_ok Hbody
  end.
  subst. eexists _, _. split; [eassumption|]. split; [eassumption|].
  split; cbn [texts app]; [left|right; left].
Qed.

(** What a union's class holds for a value-carrying variant. *)
Lemma union_class_types self union emitted field :
  union_class self union = Ok emitted ->
  field ∈ union_fields union ->
  is_void_type (union_field_data_type field) = false ->
  exists value_type property_type,
    _typename self (union_field_data_type field) = Ok value_type
    /\ _typename_full self (union_field_data_type field) None true
       = Ok property_type
    /\ ("public " +:+ _public_name (union_field_name field) +:+ "(" +:+
        value_type +:+ " value)") ∈ texts_of emitted
    /\ ("public " +:+ property_type +:+ " Value { get; private set; }")
       ∈ texts_of emitted
    /\ (is_composite_type (union_field_data_type field) = true ->
        exists arg_name,
          _arg_name (union_field_name field) = Ok arg_name
          /\ ("var " +:+ arg_name +:+ " = new " +:+ value_type +:+ "();")
             ∈ texts_of emitted
          /\ ("return new " +:+ _public_name (union_field_name field) +:+
              "(((enc.IEncodable<" +:+ value_type +:+ ">)" +:+ arg_name +:+
              ").Decode(decoder));") ∈ texts_of emitted).
Proof.
  unfold union_class. intros H Hin Hvoid. inv_ok H.
  match goal with
  | Hfields : for_each _ (union_fields union) = Ok ?types |- _ =>
      destruct (for_each_elem _ _ _ _ Hfields Hin) as (class & Hclass & Hmember)
  end.
  destruct (variant_class_types _ _ _ _ Hclass Hvoid)
    as (value_type & property_type & Hvalue & Hproperty & Hctor & Hprop).
  assert (Hinside : forall text,
            text ∈ texts_of class -> text ∈ texts_of emitted).
  { intros text Htext. rewrite <- H. eapply texts_elem; [right; left|].
    apply texts_inside; [discriminate|]. cbn [body_of].
    rewrite !texts_of_cons, !texts_of_app.
    do 4 (apply elem_of_app; right).
    exact (texts_of_concat _ _ _ Hmember Htext). }
  exists value_type, property_type. split; [exact Hvalue|].
  split; [exact Hproperty|]. split; [apply Hinside, Hctor|].
  split; [apply Hinside, Hprop|]. intros Hcomposite.
  match goal with
  | Hencodable : _generate_union_encodable_methods _ _ _ = Ok _ |- _ =>
      unfold _generate_union_encodable_methods in Hencodable;
      inv_ok Hencodable
  end.
  match goal with
  | Hdecode : union_decode_body _ _ = Ok _ |- _ =>
      unfold union_decode_body in Hdecode; inv_ok Hdecode
  end.
  match goal with
  | Hcases : for_each (union_decode_case _ _) _ = Ok _ |- _ =>
      destruct (for_each_elem _ _ _ _ Hcases Hin) as (c & Hc & Hcase)
  end.
  destruct (decode_case_types _ _ _ _ Hc Hcomposite)
    as (arg_name & type_name & Harg & Htype & Hvar & Hreturn).
  assert (type_name = value_type) as -> by congruence.
  exists arg_name. split; [exact Harg|].
  assert (Hdecoded : forall text,
            text ∈ texts c -> text ∈ texts_of emitted).
  { intros text Htext. subst. eapply texts_elem; [right; left|].
    apply texts_inside; [discriminate|]. cbn [body_of].
    rewrite !texts_of_cons, !texts_of_app.
    do 3 (apply elem_of_app; right). apply elem_of_app. left.
    eapply texts_elem; [right; left|].
    apply texts_inside; [discriminate|]. cbn [body_of].
    eapply texts_elem; [do 6 apply list_elem_of_further; left|].
    apply texts_inside; [discriminate|]. cbn [body_of].
    eapply texts_elem; [left|].
    apply texts_inside; [discriminate|]. cbn [body_of].
    rewrite texts_of_app. apply elem_of_app. left.
    exact (texts_elem _ _ _ Hcase Htext). }
  split; apply Hdecoded; assumption.
Qed.

(** C8 (amended). While a union is generated its variants' public names
    are in scope, and the composite types that the type mapper resolves
    there are emitted with their namespace: a type of the current namespace
    whose public name is one of the names in scope gets the full namespace
    in front, and a type of another namespace carries that namespace.  The
    generated code holds these forms: for a variant whose value is of such
    a colliding type, the constructor and the [Value] property of the
    variant's class and the statements of its case in the union's Decode
    name the type in full.  When the union is left the names are out of
    scope again: the scope stack and the collision set are those of before,
    and from an empty stack the short name is emitted. *)
Theorem local_names_force_qualification (self : CSharpGenerator)
    (union : Union) :
  (forall name namespace reference,
     reference = StructRef name namespace
     \/ reference = UnionRef name namespace ->
     (_public_name name ∈ variant_names union ->
      _public_name namespace = _ns self ->
      _typename (push_names self (variant_names union)) reference
      = Ok (DEFAULT_NAMESPACE +:+ _ns self +:+ "." +:+ _public_name name))
     /\ (_public_name namespace <> _ns self ->
         _typename (push_names self (variant_names union)) reference
         = Ok (if bool_decide
                    (_public_name namespace +:+ "." +:+ _public_name name
                     ∈ _prevent_collisions
                         (push_names self (variant_names union)))
               then DEFAULT_NAMESPACE +:+ _ns self +:+ "." +:+
                    _public_name namespace +:+ "." +:+ _public_name name
               else _public_name namespace +:+ "." +:+ _public_name name)))
  /\ (forall emitted self' field name namespace,
        _generate_union union self = Ok (emitted, self') ->
        field ∈ union_fields union ->
        union_field_data_type field = StructRef name namespace
        \/ union_field_data_type field = UnionRef name namespace ->
        _public_name name ∈ variant_names union ->
        _public_name namespace = _ns self ->
        exists arg_name,
          _arg_name (union_field_name field) = Ok arg_name
          /\ ("public " +:+ _public_name (union_field_name field) +:+ "(" +:+
              (DEFAULT_NAMESPACE +:+ _ns self +:+ "." +:+ _public_name name)
              +:+ " value)") ∈ texts_of emitted
          /\ ("public " +:+
              (DEFAULT_NAMESPACE +:+ _ns self +:+ "." +:+ _public_name name)
              +:+ " Value { get; private set; }") ∈ texts_of emitted
          /\ ("var " +:+ arg_name +:+ " = new " +:+
              (DEFAULT_NAMESPACE +:+ _ns self +:+ "." +:+ _public_name name)
              +:+ "();") ∈ texts_of emitted
          /\ ("return new " +:+ _public_name (union_field_name field) +:+
              "(((enc.IEncodable<" +:+
              (DEFAULT_NAMESPACE +:+ _ns self +:+ "." +:+ _public_name name)
              +:+ ">)" +:+ arg_name +:+ ").Decode(decoder));")
             ∈ texts_of emitted)
  /\ (forall emitted self',
        _generate_union union self = Ok (emitted, self') ->
        union_class (push_names self (variant_names union)) union = Ok emitted
        /\ _name_list self' = _name_list self
        /\ _prevent_collisions self' = chain_names (_name_list self)
        /\ _ns self' = _ns self
        /\ (_name_list self = [] ->
            forall name namespace reference,
              reference = StructRef name namespace
              \/ reference = UnionRef name namespace ->
              _public_name namespace = _ns self ->
              _typename self' reference = Ok (_public_name name))).
Proof.
  split; [|split].
  - intros name namespace reference Href. split.
    + intros Hin Hns. exact (typename_collision _ _ _ _ _ Href Hin Hns).
    + intros Hns.
      exact (typename_foreign (push_names self (variant_names union))
               _ _ _ Href Hns).
  - intros emitted self' field name namespace H Hin Href Hname Hns.
    apply generate_union_scope in H as [Hclass _].
    assert (Hvoid : is_void_type (union_field_data_type field) = false)
      by (destruct Href as [-> | ->]; reflexivity).
    assert (Hcomposite : is_composite_type (union_field_data_type field)
                         = true)
      by (destruct Href as [-> | ->]; reflexivity).
    destruct (union_class_types _ _ _ _ Hclass Hin Hvoid)
      as (value_type & property_type & Hvalue & Hproperty & Hctor & Hprop
          & Hdecode).
    destruct (Hdecode Hcomposite) as (arg_name & Harg & Hvar & Hreturn).
    rewrite (typename_composite _ _ _ _ _ _ Href) in Hproperty.
    rewrite (typename_collision _ _ _ _ _ Href Hname Hns) in Hvalue, Hproperty.
    injection Hvalue as <-. injection Hproperty as <-.
    exists arg_name. split; [exact Harg|]. split; [exact Hctor|].
    split; [exact Hprop|]. split; [exact Hvar|exact Hreturn].
  - intros emitted self' H.
    apply generate_union_scope in H as [Hclass ->].
    destruct (pop_push_names self (variant_names union))
      as (Hlist & Hcollisions & Hns).
    repeat (split; [assumption|]).
    intros Hempty name namespace reference Href Hsame.
    destruct Href as [-> | ->]; unfold _typename; cbn - [pop_names push_names];
      rewrite Hns, Hcollisions, Hempty;
      rewrite (bool_decide_eq_false_2 (_public_name namespace <> _ns self))
        by (intros Hne; exact (Hne Hsame));
      rewrite bool_decide_eq_false_2 by apply not_elem_of_empty;
      reflexivity.
Qed.

(** In the union [point] the class of the variant [point] takes a
    [Dropbox.Api.Files.Point]; after the union the short name is back. *)
Lemma local_names_force_qualification_witness :
  exists emitted self',
    _generate_union point files_generator = Ok (emitted, self')
    /\ "public Point(Dropbox.Api.Files.Point value)" ∈ texts_of emitted
    /\ "var point = new Dropbox.Api.Files.Point();" ∈ texts_of emitted
    /\ _typename self' (UnionRef "point" "files") = Ok "Point".
Proof.
  assert (H : {result |
               _generate_union point files_generator = Ok result})
    by (eexists; vm_compute; reflexivity).
  destruct H as [[emitted self'] H]. exists emitted, self'.
  split; [exact H|].
  destruct (proj1 (proj2 (local_names_force_qualification files_generator
                            point))
              emitted self' (variant "point" (UnionRef "point" "files"))
              "point" "files" H)
    as (arg_name & Harg & Hctor & _ & Hvar & _).
  { right. left. }
  { right. reflexivity. }
  { right. left. }
  { reflexivity. }
  vm_compute in Harg. injection Harg as <-.
  split; [exact Hctor|]. split; [exact Hvar|].
  destruct (proj2 (proj2 (local_names_force_qualification files_generator
                            point))
              emitted self' H) as (_ & _ & _ & _ & Hshort).
  apply (Hshort eq_refl "point" "files").
  - right. reflexivity.
  - reflexivity.
Defined.

(** The closed union [color] and the closed family [shape] reject the
    tags [purple] and [hexagon]; the open union [access_level] hands an
    unknown tag to its catch-all [other]. *)
Lemma unrecognized_tag_decoding_witness :
  (exists body,
     union_decode_body files_generator color = Ok body
     /\ run_body (unknown_instance "purple") body
        = {| executed := ["throw new sys.InvalidOperationException();"];
             state := Thrown; chain_open := false |})
  /\ (exists body,
        struct_decode_body files_generator shape = Ok body
        /\ state (run_body (unknown_instance "hexagon") body) = Thrown)
  /\ (exists body,
        union_decode_body files_generator access_level = Ok body
        /\ state (run_body (unknown_instance "viewer") body) = Returned).
Proof.
  split; [|split].
  - assert (H : {body | union_decode_body files_generator color = Ok body})
      by (eexists; vm_compute; reflexivity).
    destruct H as [body H]. exists body. split; [exact H|].
    apply (proj2 (unrecognized_tag_decoding (unknown_instance "purple")
                    files_generator) color body H).
    intros f Hf _.
    repeat (apply elem_of_cons in Hf as [->|Hf]; [discriminate|]).
    inversion Hf.
  - assert (H : {body | struct_decode_body files_generator shape = Ok body})
      by (eexists; vm_compute; reflexivity).
    destruct H as [body H]. exists body. split; [exact H|].
    destruct (proj1 (unrecognized_tag_decoding (unknown_instance "hexagon")
                       files_generator) shape body eq_refl H) as [Hclosed _].
    + intros s Hs. apply list_elem_of_singleton in Hs as ->. discriminate.
    + rewrite Hclosed by reflexivity. reflexivity.
  - assert (H : {body |
                 union_decode_body files_generator access_level = Ok body})
      by (eexists; vm_compute; reflexivity).
    destruct H as [body H]. exists body. split; [exact H|].
    apply (proj2 (unrecognized_tag_decoding (unknown_instance "viewer")
                    files_generator) access_level body H).
    + intros f Hf Hplain.
      repeat (apply elem_of_cons in Hf as [->|Hf];
              [try discriminate Hplain; discriminate|]).
      inversion Hf.
    + exists (variant "other" Void). split; [|reflexivity].
      right. right. left.
Defined.

(** ** A family root that is instantiated directly *)

(** The root of a closed family that has no field of its own. *)
Definition resource : Struct :=
  {| struct_name := "resource"; struct_namespace := "files";
     struct_doc := None; fields := []; parent_type := None;
     enumerated_subtypes :=
       [{| subtype_name := "file";
           subtype_data_type := StructRef "file" "files" |}];
     is_catch_all := false |}.

(** Its initializing constructor takes no argument and is public, and its
    [Encode], run on an instance that is none of the subtypes, ends with
    the invalid-state error before anything is written. *)
Lemma bare_root_encode_throws :
  (exists documentation rest,
     _generate_struct_init_ctor files_generator resource "Resource" None ∅
     = Ok (documentation :: GenerateMultilineList [] "public Resource"
           :: rest))
  /\ exists body,
       struct_encode_body files_generator resource ∅ = Ok body
       /\ run_body (unknown_instance EmptyString) body
          = {| executed := ["throw new sys.InvalidOperationException();"];
               state := Thrown; chain_open := false |}.
Proof.
  split.
  - eexists _, _. vm_compute. reflexivity.
  - eexists. split; vm_compute; reflexivity.
Qed.

(** * Further properties of the generator *)

(** ** Names that come out of the identifier engine *)

Fixpoint all_chars (p : ascii -> bool) (s : string) : bool :=
  match s with
  | EmptyString => true
  | String c rest => p c && all_chars p rest
  end.

Definition is_underscore (c : ascii) : bool := Ascii.eqb c underscore.

(** The characters [_segment_name] cuts a name at. *)
Definition is_separator (c : ascii) : bool := is_underscore c || is_slash c.

Lemma lower_char_underscore c :
  is_underscore (lower_char c) = is_underscore c.
Proof. destruct c as [[] [] [] [] [] [] [] []]; reflexivity. Qed.

Lemma lower_char_separator c : is_separator (lower_char c) = is_separator c.
Proof. destruct c as [[] [] [] [] [] [] [] []]; reflexivity. Qed.

Lemma upper_char_separator c : is_separator (upper_char c) = is_separator c.
Proof. destruct c as [[] [] [] [] [] [] [] []]; reflexivity. Qed.

Lemma all_underscore_lower s :
  all_chars is_underscore (lower s) = all_chars is_underscore s.
Proof.
  unfold lower; induction s as [|c s IH]; cbn; [reflexivity|].
  rewrite lower_char_underscore, IH; reflexivity.
Qed.

Lemma all_underscore_camel s : forall prev,
  all_chars is_underscore (camel_case_sub prev s) = all_chars is_underscore s.
Proof.
  induction s as [|c s IH]; intros prev; cbn; [reflexivity|].
  destruct (_CAMEL_CASE_RE prev c s); cbn; rewrite IH; reflexivity.
Qed.

Lemma all_underscore_replace s :
  all_chars is_underscore (replace_char slash underscore s)
  = all_chars is_separator s.
Proof.
  unfold replace_char; induction s as [|c s IH]; cbn; [reflexivity|].
  rewrite IH; f_equal.
  unfold is_separator, is_underscore, is_slash.
  destruct (Ascii.eqb c slash) eqn:E; [rewrite orb_true_r; reflexivity|].
  rewrite orb_false_r; reflexivity.
Qed.

Lemma capitalize_empty s : capitalize s = EmptyString <-> s = EmptyString.
Proof. destruct s; cbn; split; intros H; try reflexivity; discriminate H. Qed.

Lemma append_empty s t :
  s +:+ t = EmptyString <-> s = EmptyString /\ t = EmptyString.
Proof.
  destruct s; rewrite ?append_nil, ?append_cons; split.
  - intros ->; split; reflexivity.
  - intros [_ ->]; reflexivity.
  - intros H; discriminate H.
  - intros [H _]; discriminate H.
Qed.

Lemma join_empty words :
  join EmptyString words = EmptyString
  <-> Forall (fun w => w = EmptyString) words.
Proof.
  induction words as [|w ws IH]; [split; [constructor|reflexivity]|].
  destruct ws as [|w' ws].
  - cbn. split; [intros ->; repeat constructor
                |intros H; inversion H; assumption].
  - rewrite join_cons, append_nil, append_empty, IH.
    split; [intros [-> H]; constructor; [reflexivity|exact H]
           |intros H; inversion H; split; assumption].
Qed.

Lemma split_all_empty s :
  Forall (fun w => w = EmptyString) (split underscore s)
  <-> all_chars is_underscore s = true.
Proof.
  induction s as [|c s IH]; cbn; [split; [reflexivity|repeat constructor]|].
  unfold is_underscore at 1.
  destruct (Ascii.eqb c underscore) eqn:E; cbn.
  - rewrite <- IH. split; [intros H; inversion H; assumption
                          |intros H; constructor; [reflexivity|exact H]].
  - destruct (split underscore s) as [|w ws]; split; try discriminate;
      intros H; inversion H; discriminate.
Qed.

(** The public name is empty exactly for the names made of separators. *)
Lemma public_name_empty name :
  _public_name name = EmptyString <-> all_chars is_separator name = true.
Proof.
  unfold _public_name, _segment_name.
  rewrite join_empty, Forall_fmap.
  rewrite <- all_underscore_replace, <- (all_underscore_camel _ None),
    <- all_underscore_lower, <- split_all_empty.
  apply Forall_iff; intros w; cbn. apply capitalize_empty.
Qed.

(** X1. [_arg_name] raises [IndexError] exactly on the names made of
    underscores and slashes only, the empty name included; on every other
    name it returns an argument name. *)
Theorem arg_name_index_error (name : string) :
  (_arg_name name = Raise IndexError <-> all_chars is_separator name = true)
  /\ ((exists argument, _arg_name name = Ok argument)
      <-> all_chars is_separator name = false).
Proof.
  rewrite <- not_true_iff_false, <- public_name_empty. unfold _arg_name.
  destruct (_public_name name) as [|c rest].
  - split; [split; reflexivity|].
    split; [intros [argument H]; discriminate H|intros H; contradiction H; reflexivity].
  - split.
    + split; [|intros H; discriminate H].
      case_bool_decide as E; intros H; discriminate H.
    + split; [intros _ H; discriminate H|intros _].
      case_bool_decide as E; eexists; reflexivity.
Qed.

Lemma at_sign_not_keyword s : "@" +:+ s ∉ _CSHARP_KEYWORDS.
Proof.
  unfold _CSHARP_KEYWORDS. rewrite elem_of_list_to_set, append_cons, append_nil.
  intros H. apply list_elem_of_In in H.
  eapply (proj1 (forallb_forall (fun k => negb (startswith k "@")) _)) in H;
    [discriminate H|].
  vm_compute. reflexivity.
Qed.

(** X2. An argument name is never a C# keyword: a name that would be one
    comes back behind an at-sign, and no keyword starts with one. *)
Theorem arg_name_not_keyword (name argument : string) :
  _arg_name name = Ok argument -> argument ∉ _CSHARP_KEYWORDS.
Proof.
  unfold _arg_name. destruct (_public_name name) as [|c rest];
    [intros H; discriminate H|].
  case_bool_decide as E; intros H; injection H as <-.
  - apply at_sign_not_keyword.
  - exact E.
Qed.

Lemma arg_name_not_keyword_witness :
  _arg_name "Default" = Ok "@default" /\ "@default" ∉ _CSHARP_KEYWORDS.
Proof.
  assert (H : _arg_name "Default" = Ok "@default") by (vm_compute; reflexivity).
  split; [exact H|exact (arg_name_not_keyword "Default" "@default" H)].
Defined.

Lemma has_char_app p s t :
  has_char p (s +:+ t) = has_char p s || has_char p t.
Proof.
  induction s as [|c s IH]; rewrite ?append_nil, ?append_cons; cbn;
    [reflexivity|].
  rewrite IH, orb_assoc; reflexivity.
Qed.

Lemma has_separator_lower s :
  has_char is_separator (lower s) = has_char is_separator s.
Proof.
  unfold lower; induction s as [|c s IH]; cbn; [reflexivity|].
  rewrite lower_char_separator, IH; reflexivity.
Qed.

Lemma has_separator_capitalize s :
  has_char is_separator (capitalize s) = has_char is_separator s.
Proof.
  destruct s as [|c s]; cbn; [reflexivity|].
  rewrite upper_char_separator, has_separator_lower; reflexivity.
Qed.

Lemma has_char_separator s :
  has_char is_separator s = has_char is_underscore s || has_char is_slash s.
Proof.
  induction s as [|c s IH]; cbn; [reflexivity|]. rewrite IH.
  unfold is_separator.
  destruct (is_underscore c), (is_slash c), (has_char is_underscore s);
    reflexivity.
Qed.

(** The pieces of [s.split('_')] hold no underscore, and no character of
    a kind that [s] does not hold. *)
Lemma split_pieces p s :
  Forall (fun w => has_char is_underscore w = false
                   /\ (has_char p s = false -> has_char p w = false))
    (split underscore s).
Proof.
  induction s as [|c s IH]; cbn; [repeat constructor|].
  destruct (Ascii.eqb c underscore) eqn:E.
  - constructor; [split; reflexivity|].
    eapply Forall_impl; [exact IH|]. cbn. intros w [Hu Hp]; split; [exact Hu|].
    intros H; apply orb_false_iff in H as [_ H]; auto.
  - destruct (split underscore s) as [|w ws] eqn:Es;
      [exfalso; exact (split_nonempty _ _ Es)|].
    inversion IH as [|? ? [Hu Hp] Hws]; subst. constructor.
    + split; cbn; [unfold is_underscore at 1; rewrite E; exact Hu|].
      intros H; apply orb_false_iff in H as [Hc H]; rewrite Hc; auto.
    + eapply Forall_impl; [exact Hws|]. cbn.
      intros w' [Hu' Hp']; split; [exact Hu'|].
      intros H; apply orb_false_iff in H as [_ H]; auto.
Qed.

Lemma has_char_join_empty p words :
  Forall (fun w => has_char p w = false) words ->
  has_char p (join EmptyString words) = false.
Proof.
  induction 1 as [|w ws Hw Hws IH]; [reflexivity|].
  destruct ws as [|w' ws]; [exact Hw|].
  rewrite join_cons, append_nil, has_char_app, Hw, IH; reflexivity.
Qed.

(** The segments of a name: lower-case, without a separator. *)
Lemma segment_name_pieces name :
  Forall (fun w => has_char is_upper w = false
                   /\ has_char is_separator w = false)
    (_segment_name name).
Proof.
  unfold _segment_name.
  set (y := lower (camel_case_sub None (replace_char slash underscore name))).
  assert (Hup : has_char is_upper y = false) by apply has_upper_lower.
  assert (Hsl : has_char is_slash y = false)
    by (apply no_slash_lower, no_slash_camel, no_slash_replace).
  pose proof (split_pieces is_upper y) as H1.
  pose proof (split_pieces is_slash y) as H2.
  apply Forall_forall. intros w Hw.
  rewrite Forall_forall in H1, H2.
  destruct (H1 w Hw) as [Hu Hupper], (H2 w Hw) as [_ Hslash].
  split; [exact (Hupper Hup)|].
  rewrite has_char_separator, Hu, (Hslash Hsl). reflexivity.
Qed.

(** X3. Whatever the schema name, its segments hold no upper-case letter,
    underscore or slash, and its public name holds neither an underscore
    nor a slash: the separators are used up by the segmentation. *)
Theorem public_name_no_separator (name : string) :
  Forall (fun w => has_char is_upper w = false
                   /\ has_char is_separator w = false)
    (_segment_name name)
  /\ has_char is_separator (_public_name name) = false.
Proof.
  split; [apply segment_name_pieces|].
  unfold _public_name. apply has_char_join_empty, Forall_fmap.
  eapply Forall_impl; [apply segment_name_pieces|].
  cbn. intros w [_ Hs]. rewrite has_separator_capitalize. exact Hs.
Qed.

(** ** Verbatim string literals *)

(** How C# reads the text after the opening quote of a verbatim literal:
    a doubled quote stands for one quote character, a single quote closes
    the literal, and nothing may follow the closing quote. *)
Fixpoint verbatim_body (s : string) : option string :=
  match s with
  | EmptyString => None
  | String c rest =>
      if Ascii.eqb c "034"
      then match rest with
           | EmptyString => Some EmptyString
           | String c' rest' =>
               if Ascii.eqb c' "034"
               then String c <$> verbatim_body rest'
               else None
           end
      else String c <$> verbatim_body rest
  end.

(** The string a verbatim literal denotes. *)
Definition read_verbatim (literal : string) : option string :=
  match literal with
  | String "@" (String "034" rest) => verbatim_body rest
  | _ => None
  end.

Lemma verbatim_body_replace s :
  verbatim_body (replace "034" (dquote +:+ dquote) s +:+ dquote) = Some s.
Proof.
  induction s as [|c s IH]; [reflexivity|].
  cbn [replace]. destruct (Ascii.eqb c "034") eqn:E.
  - apply Ascii.eqb_eq in E; subst c.
    assert (E : ((dquote +:+ dquote) +:+ replace "034" (dquote +:+ dquote) s)
                +:+ dquote
                = String "034" (String "034"
                    (replace "034" (dquote +:+ dquote) s +:+ dquote)))
      by reflexivity.
    rewrite E. cbn [verbatim_body Ascii.eqb Bool.eqb]. cbv iota.
    rewrite IH. reflexivity.
  - rewrite append_cons. cbn [verbatim_body]. rewrite E, IH. reflexivity.
Qed.

(** X4. The verbatim literal made of a string denotes that string: every
    quote of the string is doubled, so that the literal is closed by its
    last character and by no earlier one. *)
Theorem verbatim_string_round_trip (s : string) :
  read_verbatim (_verbatim_string s) = Some s.
Proof.
  unfold _verbatim_string, dquote at 1.
  rewrite !append_cons, !append_nil. cbn [read_verbatim].
  apply verbatim_body_replace.
Qed.

(** ** The accessors a field is written and read with *)

(** The statement that writes a field through [obj.Add<kind>]. *)
Definition add_entry (kind type_name : string) (field : Field)
    (suffix : string) : string :=
  "obj.Add" +:+ kind +:+ "<" +:+ type_name +:+ ">(" +:+ quoted (name field)
  +:+ ", this." +:+ _public_name (name field) +:+ suffix +:+ ");".

(** The expression that reads a field through [obj.Get<kind>]. *)
Definition get_entry (kind type_name : string) (field : Field) : string :=
  "obj.Get" +:+ kind +:+ "<" +:+ type_name +:+ ">(" +:+ quoted (name field)
  +:+ ")".

(** X5. The encoder and the decoder of a struct field agree: the field is
    written by [obj.Add<kind>] and read by [obj.Get<kind>] for the same
    kind of accessor (Field, FieldList, FieldObject or FieldObjectList),
    the same generic type and the same wire name; a list is read into a
    new [col.List]. *)
Theorem encoder_decoder_agree (self : CSharpGenerator) (field : Field)
    (emitted : list code) :
  _emit_encoder self field = Ok emitted ->
  exists kind type_name suffix,
    kind ∈ ["Field"; "FieldList"; "FieldObject"; "FieldObjectList"]
    /\ emitted = guarded field (add_entry kind type_name field suffix)
    /\ _get_decoder_method self (name field) (data_type field)
       = Ok (if is_list_type (unwrap (data_type field))
             then "new col.List<" +:+ type_name +:+ ">(" +:+
                  get_entry kind type_name field +:+ ")"
             else get_entry kind type_name field).
Proof.
  unfold _emit_encoder, _get_decoder_method, guarded, presence_test, unwrap.
  intros H. inv_ok H. subst emitted. rewrite Hv. cbn [bind].
  set (t := if is_nullable_type (data_type field)
            then inner_type (data_type field) else data_type field) in *.
  assert (Hshape : exists kind type_name suffix,
    kind ∈ ["Field"; "FieldList"; "FieldObject"; "FieldObjectList"]
    /\ v0 = [Emit (add_entry kind type_name field suffix)]
    /\ bind
         (if is_composite_type t then Ok (v, "GetFieldObject")
          else if is_list_type t
          then bind (_typename self (inner_type t))
                 (fun generic_type =>
                    if is_composite_type (inner_type t)
                    then Ok (generic_type, "GetFieldObjectList")
                    else Ok (generic_type, "GetFieldList"))
          else Ok (v, "GetField"))
         (fun '(generic_type, method) =>
            if is_list_type t
            then Ok ("new col.List<" +:+ generic_type +:+ ">(obj." +:+ method
                     +:+ "<" +:+ generic_type +:+ ">(" +:+ quoted (name field)
                     +:+ "))")
            else Ok ("obj." +:+ method +:+ "<" +:+ generic_type +:+ ">(" +:+
                     quoted (name field) +:+ ")"))
       = Ok (if is_list_type t
             then "new col.List<" +:+ type_name +:+ ">(" +:+
                  get_entry kind type_name field +:+ ")"
             else get_entry kind type_name field)).
  { destruct (is_composite_type t) eqn:Hc.
    - inv_ok Hv0. subst v0. exists "FieldObject", v, EmptyString.
      split; [in_list|]. split; [reflexivity|]. cbn [bind].
      destruct (is_list_type t); unfold get_entry;
        rewrite ?append_assoc; reflexivity.
    - destruct (is_list_type t) eqn:Hl.
      + inv_ok Hv0. rewrite Hv1. cbn [bind].
        destruct (is_composite_type (inner_type t)); inv_ok Hv0; subst v0.
        * exists "FieldObjectList", v1, EmptyString.
          split; [in_list|]. split; [reflexivity|]. cbn [bind]. rewrite ?Hl.
          unfold get_entry; rewrite ?append_assoc; reflexivity.
        * exists "FieldList", v1, EmptyString.
          split; [in_list|]. split; [reflexivity|]. cbn [bind]. rewrite ?Hl.
          unfold get_entry; rewrite ?append_assoc; reflexivity.
      + destruct (is_nullable_type (data_type field)
                  && negb (is_string_type (inner_type (data_type field))));
          inv_ok Hv0; subst v0.
        * exists "Field", v, ".Value".
          split; [in_list|]. split; [reflexivity|]. cbn [bind]. rewrite ?Hl.
          reflexivity.
        * exists "Field", v, EmptyString.
          split; [in_list|]. split; [reflexivity|]. cbn [bind]. rewrite ?Hl.
          reflexivity. }
  destruct Hshape as (kind & type_name & suffix & Hkind & -> & Hget).
  exists kind, type_name, suffix. split; [exact Hkind|]. split; [|exact Hget].
  destruct (is_nullable_type (data_type field)); [|reflexivity].
  subst t. destruct (is_list_type (inner_type (data_type field))); reflexivity.
Qed.

(** The optional counter [count] is written by [AddField<ulong>] and read
    by [GetField<ulong>]. *)
Lemma encoder_decoder_agree_witness :
  exists emitted kind type_name,
    _emit_encoder files_generator
      (field "count" (Nullable (Numeric UInt64 (Some (Int 0)) None)) None)
    = Ok emitted
    /\ _get_decoder_method files_generator "count"
         (Nullable (Numeric UInt64 (Some (Int 0)) None))
       = Ok (get_entry kind type_name
               (field "count" (Nullable (Numeric UInt64 (Some (Int 0)) None))
                  None)).
Proof.
  assert (H : {emitted |
               _emit_encoder files_generator
                 (field "count"
                    (Nullable (Numeric UInt64 (Some (Int 0)) None)) None)
               = Ok emitted}) by (eexists; vm_compute; reflexivity).
  destruct H as [emitted H]. exists emitted.
  destruct (encoder_decoder_agree files_generator _ emitted H)
    as (kind & type_name & suffix & _ & _ & Hget).
  exists kind, type_name. split; [exact H|exact Hget].
Defined.

(** ** If-chains of the emitted code

    C# accepts an [else] or an [else if] only directly after the block of
    an [if] or of an [else if].  [well_chained] checks this for every list
    of statements inside a piece of emitted code; [chained after_if]
    checks a list that follows an [if]-block ([after_if = true]) or does
    not. *)

Fixpoint well_chained (c : code) : bool :=
  let chained :=
    fix chained (after_if : bool) (cs : list code) : bool :=
      match cs with
      | [] => true
      | c :: rest =>
          well_chained c
          && match c with
             | If_ _ _ => chained true rest
             | ElseIf _ _ => after_if && chained true rest
             | Else_ _ => after_if && chained false rest
             | _ => chained false rest
             end
      end in
  match c with
  | CsBlock _ body | Indent body | If_ _ body | ElseIf _ body | Else_ body
  | Using _ body | Class_ _ _ _ body | Region _ body | DocComment body
  | Switch _ body | Case _ _ body => chained false body
  | Emit _ | EmitWrappedText _ | EmitSummary _ | EmitXml _ _ _
  | GenerateMultilineList _ _ => true
  end.

Fixpoint chained (after_if : bool) (cs : list code) : bool :=
  match cs with
  | [] => true
  | c :: rest =>
      well_chained c
      && match c with
         | If_ _ _ => chained true rest
         | ElseIf _ _ => after_if && chained true rest
         | Else_ _ => after_if && chained false rest
         | _ => chained false rest
         end
  end.

Lemma chained_eq cs : forall after_if,
  (fix chained (after_if : bool) (cs : list code) : bool :=
     match cs with
     | [] => true
     | c :: rest =>
         well_chained c
         && match c with
            | If_ _ _ => chained true rest
            | ElseIf _ _ => after_if && chained true rest
            | Else_ _ => after_if && chained false rest
            | _ => chained false rest
            end
     end) after_if cs = chained after_if cs.
Proof.
  induction cs as [|c cs IH]; intros after_if; [reflexivity|].
  cbn [chained]. rewrite <- (IH true), <- (IH false).
  destruct c; reflexivity.
Qed.

Lemma well_chained_body c : well_chained c = chained false (body_of c).
Proof. destruct c; cbn [well_chained body_of]; rewrite ?chained_eq; reflexivity. Qed.

Lemma chained_weaken cs : chained false cs = true -> chained true cs = true.
Proof.
  destruct cs as [|c cs]; [reflexivity|]. cbn [chained].
  destruct c; cbn [andb]; try (intros H; exact H);
    rewrite andb_false_r; intros H; discriminate H.
Qed.

Lemma chained_app after_if cs1 cs2 :
  chained after_if cs1 = true -> chained false cs2 = true ->
  chained after_if (cs1 ++ cs2) = true.
Proof.
  revert after_if; induction cs1 as [|c cs1 IH]; intros after_if H1 H2.
  - destruct after_if; [apply chained_weaken|]; exact H2.
  - cbn [app chained] in *. apply andb_true_iff in H1 as [Hc H1].
    rewrite Hc. cbn [andb].
    destruct c; try (apply IH; assumption);
      apply andb_true_iff in H1 as [-> H1]; cbn [andb]; apply IH; assumption.
Qed.

Lemma chained_concat (fragments : list (list code)) :
  Forall (fun cs => chained false cs = true) fragments ->
  chained false (concat fragments) = true.
Proof.
  induction 1 as [|cs fragments Hcs _ IH]; [reflexivity|].
  cbn [concat]. apply chained_app; assumption.
Qed.

Lemma chained_for_each {A} (f : A -> result (list code)) xs fragments :
  for_each f xs = Ok fragments ->
  (forall x cs, f x = Ok cs -> chained false cs = true) ->
  chained false (concat fragments) = true.
Proof.
  intros H Hf. apply chained_concat. apply for_each_Forall2 in H.
  induction H as [|x cs xs fragments Hx _ IH]; constructor; eauto.
Qed.

(** *** The chain of a union's Encode *)

Lemma later_branches_chained union rest :
  chained true
    (map (later_branch union) rest
     ++ if existsb (is_catch_all_field union) rest then []
        else [Else_ [throw_invalid_operation]]) = true
  <-> forall i field,
        rest !! i = Some field -> is_catch_all_field union field = true ->
        S i = length rest.
Proof.
  induction rest as [|f rest IH].
  - split; [intros _ i field H; discriminate H|reflexivity].
  - cbn [map existsb app length]. unfold later_branch at 1.
    destruct (is_catch_all_field union f) eqn:Hf; cbn [orb chained andb].
    + rewrite app_nil_r. split.
      * intros H i field Hi Hcatch. apply andb_true_iff in H as [_ H].
        destruct rest as [|g rest].
        -- destruct i; [reflexivity|discriminate Hi].
        -- exfalso. cbn [map chained] in H. unfold later_branch in H.
           destruct (is_catch_all_field union g); cbn [chained andb] in H;
             rewrite ?andb_false_r in H; discriminate H.
      * intros H. specialize (H 0%nat f eq_refl Hf).
        destruct rest; [reflexivity|discriminate H].
    + rewrite IH. split.
      * intros H [|i] field Hi Hcatch.
        -- injection Hi as <-. rewrite Hf in Hcatch. discriminate Hcatch.
        -- f_equal. exact (H i field Hi Hcatch).
      * intros H i field Hi Hcatch.
        specialize (H (S i) field Hi Hcatch). injection H as H. exact H.
Qed.

(** X6. The [if]/[else if]/[else] sequence emitted for a union's Encode is
    a well-formed chain exactly when the union has at least one variant
    and the catch-all, unless it is the first variant, is the last one.  A
    union without variants gets an [else] that follows no [if]; a catch-all
    declared in the middle gets an [else] that is followed by [else if]. *)
Theorem union_encode_chain (union : Union) :
  chained false (union_encode_body union) = true
  <-> union_fields union <> []
      /\ forall i field,
           union_fields union !! i = Some field -> (0 < i)%nat ->
           is_catch_all_field union field = true ->
           S i = length (union_fields union).
Proof.
  destruct (union_fields union) as [|first rest] eqn:Hfields.
  - unfold union_encode_body, enumerate. rewrite Hfields. cbn.
    split; [intros H; discriminate H|intros [H _]; contradiction H; reflexivity].
  - rewrite (union_encode_body_cons union first rest Hfields).
    cbn [chained andb well_chained]. rewrite later_branches_chained.
    split.
    + intros H. split; [discriminate|]. intros [|i] field Hi Hpos Hcatch;
        [lia|]. cbn [length]. f_equal. exact (H i field Hi Hcatch).
    + intros [_ H] i field Hi Hcatch.
      specialize (H (S i) field Hi ltac:(lia) Hcatch). injection H as H.
      exact H.
Qed.

(** *** The chains of a struct's class *)

Lemma check_constraints_chained self argument data_type has_null_check
    emitted :
  _check_constraints self argument data_type has_null_check = Ok emitted ->
  (has_null_check = true -> is_composite_type data_type = true) ->
  chained false emitted = true.
Proof.
  unfold _check_constraints. intros H Hcomposite. inv_ok H.
  destruct v as [declared checks]. inv_ok H. subst emitted.
  destruct has_null_check.
  - specialize (Hcomposite eq_refl).
    destruct data_type; try discriminate Hcomposite;
      cbn in Hv; inv_ok Hv; subst; reflexivity.
  - clear Hcomposite.
    destruct (is_nullable_type data_type) eqn:Hn; cbn [negb andb orb].
    + destruct (inner_type data_type); cbn in Hv; inv_ok Hv; subst;
        repeat match goal with
               | |- context [match ?l with [] => _ | _ => _ end] =>
                   destruct l
               end; reflexivity.
    + destruct data_type; try discriminate Hn; cbn in Hv; inv_ok Hv; subst;
        repeat match goal with
               | |- context [match ?l with [] => _ | _ => _ end] =>
                   destruct l
               end; reflexivity.
Qed.

(** Statements that open no block. *)
Definition is_line (c : code) : bool :=
  match c with
  | Emit _ | EmitWrappedText _ | EmitSummary _ | EmitXml _ _ _
  | GenerateMultilineList _ _ => true
  | _ => false
  end.

Lemma lines_chained cs after_if :
  forallb is_line cs = true -> chained after_if cs = true.
Proof.
  revert after_if; induction cs as [|c cs IH]; intros after_if H;
    [reflexivity|].
  cbn [forallb] in H. apply andb_true_iff in H as [Hc H].
  destruct c; try discriminate Hc; cbn [chained well_chained andb];
    apply IH, H.
Qed.

Lemma forallb_map_line {A} (f : A -> code) xs :
  (forall x, is_line (f x) = true) -> forallb is_line (map f xs) = true.
Proof.
  intros Hf. induction xs as [|x xs IH]; [reflexivity|].
  cbn [map forallb]. rewrite Hf, IH. reflexivity.
Qed.

Lemma init_ctor_field_checks_chained self inherited field emitted :
  init_ctor_field_checks self inherited field = Ok emitted ->
  chained false emitted = true.
Proof.
  unfold init_ctor_field_checks.
  case_bool_decide as Hin; [intros H; inv_ok H; subst; reflexivity|].
  intros H. inv_ok H. destruct v as [defaulting has_null_check]. inv_ok H.
  subst emitted.
  destruct (has_default field && is_composite_type (data_type field)) eqn:E.
  - inv_ok Hv. subst. apply andb_true_iff in E as [_ E].
    apply composite_default_shape in Hv2 as (argument & union & tag & ->).
    apply chained_app; [reflexivity|].
    eapply check_constraints_chained; [exact Hv1|]. intros _. exact E.
  - inv_ok Hv. subst. cbn [app].
    eapply check_constraints_chained; [exact Hv1|]. intros H; discriminate H.
Qed.

Lemma init_ctor_field_assign_chained inherited field emitted :
  init_ctor_field_assign inherited field = Ok emitted ->
  chained false emitted = true.
Proof.
  unfold init_ctor_field_assign.
  case_bool_decide as Hin; [intros H; inv_ok H; subst; reflexivity|].
  intros H. inv_ok H.
  destruct (is_list_type (data_type field)
            || is_nullable_type (data_type field)
               && is_list_type (inner_type (data_type field)));
    inv_ok H; subst; reflexivity.
Qed.

Lemma init_ctor_body_chained self struct inherited body :
  init_ctor_body self struct inherited = Ok body ->
  chained false body = true.
Proof.
  unfold init_ctor_body. intros H. inv_ok H. subst body.
  apply chained_app.
  - eapply chained_for_each; [exact Hv|].
    intros field cs. apply init_ctor_field_checks_chained.
  - eapply chained_for_each; [exact Hv0|].
    intros field cs. apply init_ctor_field_assign_chained.
Qed.

(** A statement or block that is no branch of an if-chain. *)
Definition is_branch (c : code) : bool :=
  match c with
  | If_ _ _ | ElseIf _ _ | Else_ _ => true
  | _ => false
  end.

Lemma chained_cons after_if c cs :
  is_branch c = false ->
  chained after_if (c :: cs) = chained false (body_of c) && chained false cs.
Proof.
  intros H. cbn [chained]. rewrite well_chained_body.
  destruct c; try discriminate H; reflexivity.
Qed.

Lemma chained_nil after_if : chained after_if [] = true.
Proof. reflexivity. Qed.

(** Takes the chain check of a list of known shape apart. *)
Ltac chain_steps :=
  repeat (rewrite !chained_cons by reflexivity; cbn [body_of]);
  rewrite ?chained_nil; cbn [andb].

Lemma init_ctor_chained self struct class_name parent inherited emitted :
  _generate_struct_init_ctor self struct class_name parent inherited
  = Ok emitted ->
  chained false emitted = true.
Proof.
  unfold _generate_struct_init_ctor. intros H. inv_ok H. subst emitted.
  apply init_ctor_body_chained in Hv1.
  rewrite !chained_cons by reflexivity. cbn [body_of chained andb].
  apply andb_true_iff. split.
  - apply lines_chained. cbn [forallb emit_ctor_summary is_line andb].
    apply forallb_map_line. reflexivity.
  - apply chained_app; [destruct (is_empty v0); reflexivity|].
    rewrite chained_cons by reflexivity. cbn [body_of chained].
    rewrite Hv1. reflexivity.
Qed.

Lemma default_ctor_body_chained self struct inherited body :
  default_ctor_body self struct inherited = Ok body ->
  chained false body = true.
Proof.
  unfold default_ctor_body. intros H. inv_ok H. subst body.
  eapply chained_for_each; [exact Hv|].
  intros field cs. unfold default_ctor_field.
  case_bool_decide as Hin; [intros H; inv_ok H; subst; reflexivity|].
  destruct (default field) as [literal|] eqn:Hd;
    [|intros H; inv_ok H; subst; reflexivity].
  destruct (is_composite_type (data_type field));
    [|intros H; inv_ok H; subst; reflexivity].
  unfold _process_composite_default, _process_union_default. rewrite Hd.
  destruct (is_struct_type _); [intros H; discriminate H|].
  destruct (is_union_type _); [|intros H; discriminate H].
  destruct literal; try (intros H; discriminate H).
  intros H. inv_ok H. subst. reflexivity.
Qed.

Lemma default_ctor_chained self struct class_name inherited emitted :
  _generate_struct_default_ctor self struct class_name inherited = Ok emitted ->
  chained false emitted = true.
Proof.
  unfold _generate_struct_default_ctor.
  destruct (is_empty (all_fields struct)); [intros H; discriminate H|].
  intros H. inv_ok H. subst. apply default_ctor_body_chained in Hv.
  rewrite !chained_cons by reflexivity. cbn [body_of chained andb].
  rewrite Hv. reflexivity.
Qed.

Lemma strunion_is_as_chained self struct emitted :
  _generate_struct_strunion_is_as self struct = Ok emitted ->
  chained false emitted = true.
Proof.
  unfold _generate_struct_strunion_is_as.
  destruct (negb (has_enumerated_subtypes struct)); [intros H; discriminate H|].
  intros H. inv_ok H. subst.
  eapply chained_for_each; [exact Hv|].
  intros subtype cs H. inv_ok H. subst. reflexivity.
Qed.

Lemma struct_properties_chained self struct inherited emitted :
  _generate_struct_properties self struct inherited = Ok emitted ->
  chained false emitted = true.
Proof.
  unfold _generate_struct_properties. intros H. inv_ok H. subst.
  eapply chained_for_each; [exact Hv|].
  intros field cs. cbv beta. case_bool_decide as Hin; intros H; inv_ok H;
    subst; reflexivity.
Qed.

Lemma encode_fields_chained self fields encoders :
  encode_fields self fields = Ok encoders -> chained false encoders = true.
Proof.
  unfold encode_fields. intros H. inv_ok H. subst.
  eapply chained_for_each; [exact Hv|].
  intros field cs H. apply emit_encoder_shape in H as (entry & _ & ->).
  unfold guarded. destruct (is_nullable_type (data_type field)); reflexivity.
Qed.

Lemma decode_fields_chained self fields decoders :
  decode_fields self fields = Ok decoders -> chained false decoders = true.
Proof.
  unfold decode_fields. intros H. inv_ok H. subst.
  eapply chained_for_each; [exact Hv|].
  intros field cs. unfold _emit_decoder. intros H. inv_ok H.
  destruct (is_nullable_type (data_type field) || has_default field);
    [|inv_ok H; subst; reflexivity].
  inv_ok H. subst.
  match type of Hv1 with
  | (if ?b then _ else _) = _ => destruct b
  end; inv_ok Hv1; subst; reflexivity.
Qed.

(** The branches of a family root's Encode, closed by its [else]. *)
Lemma struct_branches_chained self otherwise subtypes :
  chained false otherwise = true ->
  forall (g : nat -> nat) branches,
    for_each (struct_encode_branch self)
      (imap (fun i => pair (g i)) subtypes) = Ok branches ->
    chained true (branches ++ [Else_ otherwise]) = true
    /\ (g 0%nat = 0%nat -> subtypes <> [] ->
        chained false (branches ++ [Else_ otherwise]) = true).
Proof.
  intros Hotherwise. induction subtypes as [|s subtypes IH];
    intros g branches H.
  - cbn in H. inv_ok H. subst. split; [|intros _ Hne; contradiction Hne; reflexivity].
    cbn [app chained well_chained andb]. rewrite chained_eq, Hotherwise.
    reflexivity.
  - rewrite imap_cons in H. cbn [for_each] in H. inv_ok H. subst branches.
    destruct (IH (fun i => g (S i)) v0 Hv0) as [Htrue _].
    unfold struct_encode_branch in Hv. inv_ok Hv. subst v.
    split.
    + destruct (g 0%nat); cbn [app chained well_chained andb]; exact Htrue.
    + intros -> _. cbn [app chained well_chained andb]. exact Htrue.
Qed.

Lemma object_block_chained declaration tag encoders :
  chained false encoders = true ->
  chained false [Using declaration (add_tag_field tag :: encoders)] = true.
Proof.
  intros H. rewrite chained_cons by reflexivity. cbn [body_of].
  unfold add_tag_field. rewrite chained_cons by reflexivity.
  cbn [body_of chained andb]. rewrite H. reflexivity.
Qed.

Lemma struct_encode_chained self struct inherited body :
  struct_encode_body self struct inherited = Ok body ->
  chained false body = true.
Proof.
  unfold struct_encode_body.
  destruct (has_enumerated_subtypes struct) eqn:Hsub.
  - intros H. inv_ok H. subst body.
    eapply struct_branches_chained with (g := fun i => i);
      [|exact Hv|reflexivity|].
    + destruct (negb (is_catch_all struct)); inv_ok Hv0; subst; [reflexivity|].
      apply object_block_chained. eapply encode_fields_chained. eassumption.
    + unfold has_enumerated_subtypes, get_enumerated_subtypes in *.
      destruct (enumerated_subtypes struct); [discriminate Hsub|discriminate].
  - destruct (match parent_type struct with
              | Some parent => has_enumerated_subtypes parent
              | None => false
              end).
    + destruct (_get_struct_tag struct); [|intros H; discriminate H].
      intros H. inv_ok H. subst.
      apply object_block_chained. eapply encode_fields_chained. eassumption.
    + intros H. inv_ok H. subst. apply encode_fields_chained in Hv.
      rewrite chained_cons by reflexivity. cbn [body_of chained].
      rewrite Hv. reflexivity.
Qed.

Lemma struct_decode_chained self struct body :
  struct_decode_body self struct = Ok body ->
  chained false body = true.
Proof.
  unfold struct_decode_body.
  destruct (has_enumerated_subtypes struct).
  - intros H. inv_ok H. subst body.
    assert (Hcases : forallb (fun c => negb (is_branch c)
                                       && chained false (body_of c)) v = true).
    { apply for_each_Forall2 in Hv. clear Hv0.
      induction Hv as [|subtype c subtypes cases Hc _ IH]; [reflexivity|].
      cbn [forallb]. rewrite IH, andb_true_r.
      unfold struct_decode_case in Hc. inv_ok Hc. subst c. reflexivity. }
    assert (Hfallback : is_branch v0 = false
                        /\ chained false (body_of v0) = true).
    { destruct (is_catch_all struct); inv_ok Hv0; subst v0;
        [|split; reflexivity].
      split; [reflexivity|]. cbn [body_of].
      rewrite chained_cons by reflexivity. cbn [body_of chained andb].
      rewrite andb_true_r. eapply decode_fields_chained. eassumption. }
    rewrite !chained_cons by reflexivity. cbn [body_of chained andb].
    rewrite andb_true_r. clear Hv Hv0.
    induction v as [|c cases IH]; cbn [app].
    + destruct Hfallback as [Hb Hf]. rewrite chained_cons by exact Hb.
      rewrite Hf. reflexivity.
    + cbn [forallb] in Hcases. apply andb_true_iff in Hcases as [Hc Hcases].
      apply andb_true_iff in Hc as [Hb Hc]. apply negb_true_iff in Hb.
      rewrite chained_cons by exact Hb. rewrite Hc. apply IH, Hcases.
  - intros H. inv_ok H. subst. apply decode_fields_chained in Hv.
    rewrite !chained_cons by reflexivity. cbn [body_of chained andb].
    rewrite Hv. reflexivity.
Qed.

Lemma encodable_methods_chained self struct class_name inherited emitted :
  _generate_struct_encodable_methods self struct class_name inherited
  = Ok emitted ->
  chained false emitted = true.
Proof.
  unfold _generate_struct_encodable_methods. intros H. inv_ok H. subst.
  apply struct_encode_chained in Hv. apply struct_decode_chained in Hv0.
  unfold emit_encode_doc_comment, emit_decode_doc_comment,
    emit_explicit_interface_suppress, emit_blank.
  chain_steps. rewrite Hv, Hv0. reflexivity.
Qed.

(** X7. The class emitted for a struct holds no dangling [else]: in the
    constructors, the accessors and the Encode and Decode methods every
    [else] and [else if] directly follows the block of an [if] or of an
    [else if]. *)
Theorem struct_class_chains (self : CSharpGenerator) (struct : Struct)
    (emitted : list code) :
  _generate_struct self struct = Ok emitted ->
  chained false emitted = true.
Proof.
  unfold _generate_struct. intros H. inv_ok H. subst emitted.
  apply init_ctor_chained in Hv. apply struct_properties_chained in Hv2.
  apply encodable_methods_chained in Hv3.
  assert (Hv0' : chained false v0 = true).
  { destruct (negb (is_empty (all_fields struct)));
      [eapply default_ctor_chained; exact Hv0|inv_ok Hv0; subst; reflexivity]. }
  assert (Hv1' : chained false v1 = true).
  { destruct (has_enumerated_subtypes struct);
      [eapply strunion_is_as_chained; exact Hv1|inv_ok Hv1; subst; reflexivity]. }
  rewrite !chained_cons by reflexivity. cbn [body_of chained andb].
  rewrite andb_true_r. apply andb_true_iff. split.
  - apply lines_chained. cbn [forallb is_line andb].
    apply forallb_map_line. reflexivity.
  - repeat (apply chained_app; [assumption|]). assumption.
Qed.

(** The class of [file_info], with its guarded encoders and decoders and
    its constraint checks. *)
Lemma struct_class_chains_witness :
  exists emitted,
    _generate_struct files_generator file_info = Ok emitted
    /\ chained false emitted = true.
Proof.
  assert (H : {emitted |
               _generate_struct files_generator file_info = Ok emitted})
    by (eexists; vm_compute; reflexivity).
  destruct H as [emitted H]. exists emitted.
  split; [exact H|exact (struct_class_chains _ _ _ H)].
Defined.

(** ** The base-constructor call of a subtype *)

Lemma for_each_app {A B} (f : A -> result B) xs ys zs :
  for_each f (xs ++ ys) = Ok zs ->
  exists zs1 zs2,
    for_each f xs = Ok zs1 /\ for_each f ys = Ok zs2 /\ zs = zs1 ++ zs2.
Proof.
  revert zs; induction xs as [|x xs IH]; intros zs H.
  - exists [], zs. split; [reflexivity|]. split; [exact H|reflexivity].
  - cbn [app for_each] in H. inv_ok H. subst zs.
    destruct (IH _ Hv0) as (zs1 & zs2 & H1 & H2 & ->).
    exists (v :: zs1), zs2. cbn [for_each]. rewrite Hv, H1. cbn [bind].
    split; [reflexivity|]. split; [exact H2|reflexivity].
Qed.

(** X8. The initializing constructor of a struct that derives from its
    parent takes the parent's constructor arguments first, in the parent's
    order, followed by one argument for each field of its own, and its
    base call forwards exactly the parent's arguments in that order; when
    the parent has no field, no base call is emitted. *)
Theorem base_call_forwards (self : CSharpGenerator) (struct parent : Struct)
    (class_name : string) (inherited : gset string) (emitted : list code) :
  parent_type struct = Some parent ->
  _generate_struct_init_ctor self struct class_name (Some parent) inherited
  = Ok emitted ->
  exists super_args own_args,
    _make_struct_constructor_args self parent = Ok super_args
    /\ _make_struct_constructor_args self struct = Ok (super_args ++ own_args)
    /\ length own_args = length (fields struct)
    /\ GenerateMultilineList (map arg (super_args ++ own_args))
         (ctor_access struct (super_args ++ own_args) +:+ " " +:+ class_name)
       ∈ emitted
    /\ (Indent [Emit (": base(" +:+ join ", " (map arg_name super_args)
                      +:+ ")")] ∈ emitted
        <-> super_args <> []).
Proof.
  intros Hparent H. unfold _generate_struct_init_ctor in H. inv_ok H.
  subst emitted. rename v into ctor_args, v0 into super_args.
  pose proof Hv as Hsplit. unfold _make_struct_constructor_args in Hsplit.
  assert (Hall : all_fields struct = all_fields parent ++ fields struct).
  { destruct struct; cbn in Hparent |- *. rewrite Hparent. reflexivity. }
  rewrite Hall in Hsplit.
  apply for_each_app in Hsplit as (args1 & own_args & H1 & H2 & ->).
  assert (args1 = super_args) as ->.
  { unfold _make_struct_constructor_args in Hv0. rewrite H1 in Hv0.
    injection Hv0 as ->. reflexivity. }
  exists super_args, own_args. split; [exact Hv0|]. split; [exact Hv|].
  split; [exact (for_each_length _ _ _ H2)|]. split.
  - apply list_elem_of_further, list_elem_of_here.
  - destruct super_args as [|a super_args]; cbn [is_empty app].
    + split; [|intros Hne; contradiction Hne; reflexivity].
      intros Hin.
      repeat (apply elem_of_cons in Hin as [Hin|Hin]; [discriminate Hin|]).
      inversion Hin.
    + split; [intros _; discriminate|]. intros _.
      do 2 apply list_elem_of_further. apply list_elem_of_here.
Qed.

(** [circle] derives from [shape]: its constructor takes [label], then
    [radius], and hands [label] to the base constructor. *)
Lemma base_call_forwards_witness :
  exists emitted,
    _generate_struct_init_ctor files_generator circle "Circle" (Some shape)
      (parent_type_fields circle) = Ok emitted
    /\ Indent [Emit ": base(label)"] ∈ emitted.
Proof.
  assert (H : {emitted |
               _generate_struct_init_ctor files_generator circle "Circle"
                 (Some shape) (parent_type_fields circle) = Ok emitted})
    by (eexists; vm_compute; reflexivity).
  destruct H as [emitted H]. exists emitted. split; [exact H|].
  destruct (base_call_forwards files_generator circle shape "Circle"
              (parent_type_fields circle) emitted eq_refl H)
    as (super_args & own_args & Hsuper & _ & _ & _ & Hbase).
  vm_compute in Hsuper. injection Hsuper as <-.
  apply Hbase. discriminate.
Defined.

(** ** Decoding a recognized tag *)

Section RecognizedTag.
Variable env : environment.
Variable self : CSharpGenerator.

(** What the case of a variant executes: a void variant returns its
    singleton, a value-carrying one returns a new instance built from the
    decoded value. *)
Lemma union_case_executes union field case_body x :
  union_decode_case self union field
  = Ok (Case (Some (quoted (union_field_name field))) false case_body) ->
  is_running x = true ->
  state (run_list env case_body x) = Returned
  /\ (is_void_type (union_field_data_type field) = true ->
      executed (run_list env case_body x)
      = executed x
        ++ ["return " +:+ _public_name (union_field_name field) +:+
            ".Instance;"])
  /\ (is_void_type (union_field_data_type field) = false ->
      if is_composite_type (union_field_data_type field)
      then exists arg_name type_name,
             _arg_name (union_field_name field) = Ok arg_name
             /\ _typename self (union_field_data_type field) = Ok type_name
             /\ executed (run_list env case_body x)
                = executed x
                  ++ ["var " +:+ arg_name +:+ " = new " +:+ type_name +:+
                      "();";
                      "return new " +:+
                      _public_name (union_field_name field) +:+
                      "(((enc.IEncodable<" +:+ type_name +:+ ">)" +:+
                      arg_name +:+ ").Decode(decoder));"]
      else exists method,
             _get_decoder_method self (union_field_name field)
               (union_field_data_type field) = Ok method
             /\ executed (run_list env case_body x)
                = executed x
                  ++ ["var obj = decoder.GetObject()";
                      "return new " +:+
                      _public_name (union_field_name field) +:+
                      "(" +:+ method +:+ ");"]).
Proof.
  unfold union_decode_case. intros H Hx. inv_ok H.
  assert (v = case_body) as <- by congruence. clear H.
  destruct (is_void_type (union_field_data_type field)).
  - inv_ok Hv. subst v.
    rewrite run_list_cons, run_list_nil, run_Emit_return
      by (try exact Hx; reflexivity).
    split; [reflexivity|]. split; [reflexivity|intros H; discriminate H].
  - destruct (is_composite_type (union_field_data_type field)).
    + inv_ok Hv. subst v.
      rewrite !run_list_cons, run_list_nil.
      rewrite (run_Emit_plain env _ x) by (try exact Hx; plain_text).
      rewrite run_Emit_return by reflexivity.
      split; [reflexivity|]. split; [intros H; discriminate H|]. intros _.
      exists v0, v1. split; [assumption|]. split; [assumption|].
      cbn [executed]. rewrite <- app_assoc. reflexivity.
    + inv_ok Hv. subst v.
      rewrite run_list_cons, run_list_nil, run_Using by exact Hx.
      rewrite statement_plain by plain_text.
      rewrite run_list_cons, run_list_nil.
      rewrite run_Emit_return by reflexivity.
      split; [reflexivity|]. split; [intros H; discriminate H|]. intros _.
      exists v0. split; [assumption|].
      cbn [executed close_chain]. rewrite <- app_assoc. reflexivity.
Qed.

Lemma union_decode_recognized (union : Union) body before field after :
  union_decode_body self union = Ok body ->
  union_fields union = before ++ field :: after ->
  (forall g, g ∈ before -> union_field_name g <> union_field_name field) ->
  is_catch_all_field union field = false ->
  value_of env "decoder.GetUnionName()" = union_field_name field ->
  exists case_body,
    union_decode_case self union field
    = Ok (Case (Some (quoted (union_field_name field))) false case_body)
    /\ run_body env body = close_chain (run_list env case_body start).
Proof.
  intros Hbody Hfields Hne Hcatch Hvalue.
  unfold union_decode_body in Hbody. inv_ok Hbody. subst body.
  apply for_each_Forall2 in Hv. rewrite Hfields in Hv.
  apply Forall2_app_inv_l in Hv as (cases1 & cases2 & H1 & H2 & ->).
  inversion H2 as [|? c ? cases3 Hc H3]; subst.
  pose proof Hc as Hshape.
  apply (union_decode_case_shape env) in Hshape as (case_body & -> & _).
  rewrite Hcatch in Hc. exists case_body. split; [exact Hc|].
  rewrite run_body_eq, run_list_cons, run_list_nil, run_Switch by reflexivity.
  rewrite Hvalue, <- app_assoc.
  rewrite (union_cases_no_match env self union start _ _ _ _ H1)
    by (intros g Hg _; apply Hne, Hg).
  rewrite Hcatch. cbn [app run_case].
  rewrite bool_decide_eq_true_2 by reflexivity. reflexivity.
Qed.
End RecognizedTag.

(** X9. Decoding a union whose tag names a declared variant other than the
    catch-all runs the case of the first variant of that name and returns:
    the variant's singleton when it is void, and otherwise a new instance
    of the variant built from the value read off the decoder.  For a
    variant of composite type the value is what the Decode of a new
    instance of that type returns on the same decoder; for any other type
    it is read off the decoder's object by the accessor that
    [_get_decoder_method] gives for the variant's name and type. *)
Theorem recognized_variant_decoding (env : environment)
    (self : CSharpGenerator) (union : Union) (body : list code)
    (before after : list UnionField) (field : UnionField) :
  union_decode_body self union = Ok body ->
  union_fields union = before ++ field :: after ->
  (forall g, g ∈ before -> union_field_name g <> union_field_name field) ->
  is_catch_all_field union field = false ->
  value_of env "decoder.GetUnionName()" = union_field_name field ->
  state (run_body env body) = Returned
  /\ (is_void_type (union_field_data_type field) = true ->
      executed (run_body env body)
      = ["return " +:+ _public_name (union_field_name field) +:+ ".Instance;"])
  /\ (is_void_type (union_field_data_type field) = false ->
      if is_composite_type (union_field_data_type field)
      then exists arg_name type_name,
             _arg_name (union_field_name field) = Ok arg_name
             /\ _typename self (union_field_data_type field) = Ok type_name
             /\ executed (run_body env body)
                = ["var " +:+ arg_name +:+ " = new " +:+ type_name +:+ "();";
                   "return new " +:+ _public_name (union_field_name field) +:+
                   "(((enc.IEncodable<" +:+ type_name +:+ ">)" +:+
                   arg_name +:+ ").Decode(decoder));"]
      else exists method,
             _get_decoder_method self (union_field_name field)
               (union_field_data_type field) = Ok method
             /\ executed (run_body env body)
                = ["var obj = decoder.GetObject()";
                   "return new " +:+ _public_name (union_field_name field) +:+
                   "(" +:+ method +:+ ");"]).
Proof.
  intros Hbody Hfields Hne Hcatch Hvalue.
  destruct (union_decode_recognized env self union body before field after
              Hbody Hfields Hne Hcatch Hvalue) as (case_body & Hcase & ->).
  destruct (union_case_executes env self union field case_body start Hcase
              eq_refl) as (Hstate & Hvoid & Hvalued).
  split; [exact Hstate|]. split; [exact Hvoid|exact Hvalued].
Qed.

(** The tag [editor] of [access_level] is decoded into a new [Editor]
    holding the string read off the decoder. *)
Lemma recognized_variant_decoding_witness :
  exists body,
    union_decode_body files_generator access_level = Ok body
    /\ state (run_body (unknown_instance "editor") body) = Returned.
Proof.
  assert (H : {body |
               union_decode_body files_generator access_level = Ok body})
    by (eexists; vm_compute; reflexivity).
  destruct H as [body H]. exists body. split; [exact H|].
  refine (proj1 (recognized_variant_decoding (unknown_instance "editor")
                   files_generator access_level body
                   [variant "owner" Void] [variant "other" Void]
                   (variant "editor" (String_ None None None))
                   H eq_refl _ eq_refl eq_refl)).
  intros g Hg. apply list_elem_of_singleton in Hg as ->. discriminate.
Defined.

(** X10. Decoding a struct family whose tag names a declared subtype reads
    the tag, creates an instance of the first subtype of that tag through
    its zero-argument constructor and returns what the Decode of that
    instance returns; the root's own fields are not decoded here. *)
Theorem recognized_subtype_decoding (env : environment)
    (self : CSharpGenerator) (struct : Struct) (body : list code)
    (before after : list Subtype) (subtype : Subtype) :
  struct_decode_body self struct = Ok body ->
  get_enumerated_subtypes struct = before ++ subtype :: after ->
  (forall s, s ∈ before -> subtype_name s <> subtype_name subtype) ->
  value_of env "tag" = subtype_name subtype ->
  exists argument type_name,
    _arg_name (subtype_name subtype) = Ok argument
    /\ _typename self (subtype_data_type subtype) = Ok type_name
    /\ run_body env body
       = {| executed :=
              executed after_tag_read
              ++ ["var " +:+ argument +:+ " = new " +:+ type_name +:+ "();";
                  "return ((enc.IEncodable<" +:+ type_name +:+ ">)" +:+
                  argument +:+ ").Decode(decoder);"];
            state := Returned; chain_open := false |}.
Proof.
  intros Hbody Hsubtypes Hne Hvalue. unfold struct_decode_body in Hbody.
  assert (Hsub : has_enumerated_subtypes struct = true).
  { unfold has_enumerated_subtypes, get_enumerated_subtypes in *.
    rewrite Hsubtypes. destruct before; reflexivity. }
  rewrite Hsub, Hsubtypes in Hbody. inv_ok Hbody. subst body.
  apply for_each_Forall2 in Hv.
  apply Forall2_app_inv_l in Hv as (cases1 & cases2 & H1 & H2 & ->).
  inversion H2 as [|? c ? cases3 Hc H3]; subst.
  unfold struct_decode_case in Hc. inv_ok Hc. subst c.
  match goal with
  | Ha : _arg_name (subtype_name subtype) = Ok ?a,
    Ht : _typename self (subtype_data_type subtype) = Ok ?t |- _ =>
      exists a, t; split; [exact Ha|]; split; [exact Ht|]
  end.
  rewrite run_body_eq, !run_list_cons, run_list_nil.
  rewrite run_Emit_plain by (try reflexivity; plain_text).
  rewrite run_Using by reflexivity.
  rewrite statement_plain by plain_text.
  rewrite run_list_cons, run_list_nil.
  rewrite run_Emit_plain by (try reflexivity; plain_text).
  rewrite run_Emit_blank.
  rewrite run_Switch by reflexivity.
  rewrite Hvalue, <- !app_assoc.
  match goal with
  | |- context [run_case env ?x _ _] =>
      rewrite (proj1 (struct_cases_skipped env self x _ _ _ _ H1 Hne))
  end.
  cbn [app run_case]. rewrite bool_decide_eq_true_2 by reflexivity.
  rewrite !run_list_cons, run_list_nil.
  rewrite (run_Emit_plain env ("var " +:+ _)) by (try reflexivity; plain_text).
  rewrite run_Emit_return by reflexivity.
  cbn [close_chain executed state]. rewrite <- !app_assoc. reflexivity.
Qed.

(** The tag [circle] of the family [shape]. *)
Lemma recognized_subtype_decoding_witness :
  exists body,
    struct_decode_body files_generator shape = Ok body
    /\ state (run_body (unknown_instance "circle") body) = Returned.
Proof.
  assert (H : {body | struct_decode_body files_generator shape = Ok body})
    by (eexists; vm_compute; reflexivity).
  destruct H as [body H]. exists body. split; [exact H|].
  destruct (recognized_subtype_decoding (unknown_instance "circle")
              files_generator shape body [] []
              {| subtype_name := "circle";
                 subtype_data_type := StructRef "circle" "files" |}
              H eq_refl) as (argument & type_name & _ & _ & ->).
  - intros s Hs. inversion Hs.
  - reflexivity.
  - reflexivity.
Defined.

(** ** Dispatch of a struct family's Encode *)

(** The test of a subtype and the statement that hands over to it. *)
Definition is_test (subtype : Subtype) : string :=
  "this.Is" +:+ _public_name (subtype_name subtype).

Definition as_delegate (type_name : string) (subtype : Subtype) : string :=
  "((enc.IEncodable<" +:+ type_name +:+ ">)this.As" +:+
  _public_name (subtype_name subtype) +:+ ").Encode(encoder);".

Section FamilyEncode.
Variable env : environment.
Variable self : CSharpGenerator.

(** A branch of the chain: [if] for the first subtype, [else if] for the
    later ones. *)
Definition family_branch (first : bool) (subtype : Subtype) (branch : code)
  : Prop :=
  exists type_name,
    _typename self (subtype_data_type subtype) = Ok type_name
    /\ branch = (if first then If_ else ElseIf) (is_test subtype)
                  [Emit (as_delegate type_name subtype)].

Lemma family_branches_later (g : nat -> nat) subtypes branches :
  for_each (struct_encode_branch self)
    (imap (fun i => pair (S (g i))) subtypes) = Ok branches ->
  Forall2 (family_branch false) subtypes branches.
Proof.
  revert g branches; induction subtypes as [|s subtypes IH];
    intros g branches H.
  - cbn in H. inv_ok H. subst. constructor.
  - rewrite imap_cons in H. cbn [for_each] in H. inv_ok H. subst branches.
    constructor; [|exact (IH (fun i => g (S i)) _ Hv0)].
    unfold struct_encode_branch in Hv. inv_ok Hv. subst v.
    eexists. split; [eassumption|reflexivity].
Qed.

Lemma family_branches first rest branches :
  for_each (struct_encode_branch self) (enumerate (first :: rest))
  = Ok branches ->
  exists branch later,
    branches = branch :: later
    /\ family_branch true first branch
    /\ Forall2 (family_branch false) rest later.
Proof.
  unfold enumerate. rewrite imap_cons. cbn [for_each]. intros H. inv_ok H.
  subst branches. exists v, v0. split; [reflexivity|]. split.
  - unfold struct_encode_branch in Hv. inv_ok Hv. subst v.
    eexists. split; [eassumption|reflexivity].
  - exact (family_branches_later (fun i => i) _ _ Hv0).
Qed.

Lemma as_delegate_plain type_name subtype :
  plain (as_delegate type_name subtype).
Proof. unfold as_delegate. plain_text. Qed.

Lemma family_branch_closed first subtype branch x :
  family_branch first subtype branch -> first = false ->
  chain_open x = false -> run env branch x = x.
Proof.
  intros (type_name & _ & ->) -> Hclosed.
  destruct (is_running x) eqn:Hx; [|apply run_stopped, Hx].
  rewrite run_ElseIf, Hclosed by exact Hx. reflexivity.
Qed.

Lemma family_branches_closed subtypes branches x :
  Forall2 (family_branch false) subtypes branches ->
  chain_open x = false -> run_list env branches x = x.
Proof.
  intros H Hclosed. induction H as [|s b subtypes branches Hb _ IH];
    [reflexivity|].
  rewrite run_list_cons,
    (family_branch_closed false s b x Hb eq_refl Hclosed).
  exact IH.
Qed.

Lemma family_branches_fail subtypes branches x :
  Forall2 (family_branch false) subtypes branches ->
  is_running x = true -> chain_open x = true ->
  (forall s, s ∈ subtypes -> holds env (is_test s) = false) ->
  run_list env branches x = x.
Proof.
  intros H Hx Hopen. induction H as [|s b subtypes branches Hb _ IH];
    intros Hh; [reflexivity|].
  rewrite run_list_cons.
  assert (Hfail : run env b x = x).
  { destruct Hb as (type_name & _ & ->).
    rewrite run_ElseIf, Hopen, (Hh s) by (exact Hx || left).
    destruct x; simpl in *; subst; reflexivity. }
  rewrite Hfail. apply IH. intros s' Hs'. apply Hh. right. exact Hs'.
Qed.

Lemma family_branch_taken first subtype branch x :
  family_branch first subtype branch ->
  is_running x = true -> (first = false -> chain_open x = true) ->
  holds env (is_test subtype) = true ->
  exists type_name,
    _typename self (subtype_data_type subtype) = Ok type_name
    /\ run env branch x
       = {| executed := executed x ++ [as_delegate type_name subtype];
            state := Running; chain_open := false |}.
Proof.
  intros (type_name & Htype & ->) Hx Hopen Hholds.
  exists type_name. split; [exact Htype|].
  destruct first.
  - rewrite run_If, Hholds by exact Hx.
    rewrite run_list_cons, run_list_nil.
    rewrite run_Emit_plain by (try exact Hx; apply as_delegate_plain).
    reflexivity.
  - rewrite run_ElseIf, (Hopen eq_refl), Hholds by exact Hx.
    rewrite run_list_cons, run_list_nil.
    rewrite run_Emit_plain by (try exact Hx; apply as_delegate_plain).
    reflexivity.
Qed.

Lemma family_later_taken before subtype after branches x :
  Forall2 (family_branch false) (before ++ subtype :: after) branches ->
  is_running x = true -> chain_open x = true ->
  (forall s, s ∈ before -> holds env (is_test s) = false) ->
  holds env (is_test subtype) = true ->
  exists type_name,
    _typename self (subtype_data_type subtype) = Ok type_name
    /\ run_list env branches x
       = {| executed := executed x ++ [as_delegate type_name subtype];
            state := Running; chain_open := false |}.
Proof.
  intros H Hx Hopen Hh Hholds.
  apply Forall2_app_inv_l in H as (branches1 & branches2 & H1 & H2 & ->).
  inversion H2 as [|? b ? branches3 Hb H3]; subst.
  rewrite run_list_app, (family_branches_fail _ _ x H1 Hx Hopen Hh).
  rewrite run_list_cons.
  destruct (family_branch_taken false subtype b x Hb Hx (fun _ => Hopen)
              Hholds) as (type_name & Htype & ->).
  exists type_name. split; [exact Htype|].
  apply (family_branches_closed _ _ _ H3). reflexivity.
Qed.
End FamilyEncode.

(** X11. The Encode of a struct that enumerates subtypes tests the
    subtypes in declared order and hands the instance to the first one
    whose Is-test holds.  When none holds, a closed family raises the
    invalid-state error before anything is written, and an open one writes
    the root itself: the wire object, its tag entry and then the fields,
    nullable ones being left out as in any struct. *)
Theorem family_encode_dispatch (env : environment) (self : CSharpGenerator)
    (struct : Struct) (inherited : gset string) (body : list code) :
  has_enumerated_subtypes struct = true ->
  struct_encode_body self struct inherited = Ok body ->
  (forall before subtype after,
     get_enumerated_subtypes struct = before ++ subtype :: after ->
     (forall s, s ∈ before -> holds env (is_test s) = false) ->
     holds env (is_test subtype) = true ->
     exists type_name,
       _typename self (subtype_data_type subtype) = Ok type_name
       /\ run_body env body
          = {| executed := [as_delegate type_name subtype];
               state := Running; chain_open := false |})
  /\ ((forall s, s ∈ get_enumerated_subtypes struct ->
                 holds env (is_test s) = false) ->
      (is_catch_all struct = false ->
       run_body env body
       = {| executed := ["throw new sys.InvalidOperationException();"];
            state := Thrown; chain_open := false |})
      /\ (is_catch_all struct = true ->
          exists entries,
            Forall2 (fun field entry =>
                       adds_field field entry
                       /\ _emit_encoder self field = Ok (guarded field entry))
              (all_fields struct) entries
            /\ executed (run_body env body)
               = "var obj = encoder.AddObject()"
                 :: ("obj.AddField<string>(" +:+ quoted ".tag" +:+ ", " +:+
                     quoted (from_option id EmptyString
                               (_get_struct_tag struct)) +:+ ");")
                 :: concat (zip_with
                              (fun field entry =>
                                 if omitted env field then [] else [entry])
                              (all_fields struct) entries)
            /\ state (run_body env body) = Running)).
Proof.
  intros Hsub H. unfold struct_encode_body in H. rewrite Hsub in H.
  inv_ok H. subst body. rename v into branches, v0 into otherwise.
  unfold has_enumerated_subtypes, get_enumerated_subtypes in *.
  destruct (enumerated_subtypes struct) as [|first rest] eqn:Hsubtypes;
    [discriminate Hsub|].
  destruct (family_branches self first rest branches Hv)
    as (branch & later & -> & Hfirst & Hlater).
  split.
  - intros before subtype after Hsplit Hh Hholds.
    rewrite run_body_eq, run_list_app.
    destruct before as [|first' before].
    + injection Hsplit as -> ->. rewrite (run_list_cons env branch).
      destruct (family_branch_taken env self true subtype branch start
                  Hfirst eq_refl ltac:(discriminate) Hholds)
        as (type_name & Htype & ->).
      exists type_name. split; [exact Htype|].
      rewrite (family_branches_closed env self _ _ _ Hlater) by reflexivity.
      rewrite run_list_cons, run_list_nil, run_Else by reflexivity.
      reflexivity.
    + injection Hsplit as <- ->. rewrite (run_list_cons env branch).
      destruct Hfirst as (type_first & _ & ->).
      rewrite run_If, (Hh first) by (reflexivity || left).
      destruct (family_later_taken env self before subtype after later
                  (open_chain start) Hlater eq_refl eq_refl)
        as (type_name & Htype & ->); [|exact Hholds|].
      * intros s Hs. apply Hh. right. exact Hs.
      * exists type_name. split; [exact Htype|].
        rewrite run_list_cons, run_list_nil, run_Else by reflexivity.
        reflexivity.
  - intros Hh.
    assert (Hnone : run_list env (branch :: later) start = open_chain start).
    { rewrite run_list_cons. destruct Hfirst as (type_first & _ & ->).
      rewrite run_If, (Hh first) by (reflexivity || left).
      apply (family_branches_fail env self rest later); try reflexivity;
        [exact Hlater|].
      intros s Hs. apply Hh. right. exact Hs. }
    rewrite run_body_eq, run_list_app, Hnone.
    rewrite run_list_cons, run_list_nil, run_Else by reflexivity.
    change (chain_open (open_chain start)) with true. cbv iota.
    destruct (is_catch_all struct); cbn [negb] in Hv0; inv_ok Hv0;
      subst otherwise; (split; [intros Hc; try discriminate Hc
                               |intros Hc; try discriminate Hc]).
    + match goal with
      | Hfields : encode_fields self _ = Ok ?encoders |- _ =>
          destruct (encode_fields_run env self _ _ Hfields)
            as (entries & Hentries & _ & Hrun);
          rename encoders into v
      end.
      exists entries. split; [exact Hentries|].
      rewrite run_list_cons, run_list_nil, run_Using by reflexivity.
      rewrite statement_plain by plain_text.
      rewrite run_list_cons. unfold add_tag_field.
      rewrite run_Emit_plain by (try reflexivity; plain_text).
      match goal with
      | |- executed (close_chain (close_chain (run_list env v ?x))) = _ /\ _ =>
          destruct (Hrun x eq_refl) as [Hexecuted Hrunning]
      end.
      split.
      * etransitivity; [exact Hexecuted|]. reflexivity.
      * cbn [close_chain state]. unfold is_running in Hrunning.
        destruct (state _); [reflexivity|discriminate Hrunning
                            |discriminate Hrunning].
    + rewrite run_list_cons, run_list_nil. unfold throw_invalid_operation.
      rewrite run_Emit_throw by reflexivity. reflexivity.
Qed.

(** A [circle] handed to the Encode of its root [shape]. *)
Lemma family_encode_dispatch_witness :
  exists body,
    struct_encode_body files_generator shape ∅ = Ok body
    /\ executed (run_body (instance_with "this.IsCircle") body)
       = ["((enc.IEncodable<Circle>)this.AsCircle).Encode(encoder);"].
Proof.
  assert (H : {body | struct_encode_body files_generator shape ∅ = Ok body})
    by (eexists; vm_compute; reflexivity).
  destruct H as [body H]. exists body. split; [exact H|].
  destruct (proj1 (family_encode_dispatch (instance_with "this.IsCircle")
                     files_generator shape ∅ body eq_refl H)
              [] {| subtype_name := "circle";
                    subtype_data_type := StructRef "circle" "files" |} []
              eq_refl) as (type_name & Htype & ->).
  - intros s Hs. inversion Hs.
  - reflexivity.
  - vm_compute in Htype. injection Htype as <-. reflexivity.
Defined.

(** * Documentation tags *)

(** [s.lstrip(c)], [s.rstrip(c)] and [s.strip(c)] for a single character. *)
Fixpoint lstrip (c : ascii) (s : string) : string :=
  match s with
  | EmptyString => EmptyString
  | String a rest => if Ascii.eqb a c then lstrip c rest else s
  end.

Fixpoint rstrip (c : ascii) (s : string) : string :=
  match s with
  | EmptyString => EmptyString
  | String a rest =>
      match rstrip c rest with
      | EmptyString => if Ascii.eqb a c then EmptyString else String a EmptyString
      | stripped => String a stripped
      end
  end.

Definition strip (c : ascii) (s : string) : string := rstrip c (lstrip c s).

(** [c in s] *)
Definition contains_char (c : ascii) (s : string) : bool :=
  has_char (Ascii.eqb c) s.

(** [parts[-1]] of a list that [str.split] returned, which is never
    empty. *)
Definition last_part (parts : list string) : string :=
  List.last parts EmptyString.

(** [_tag_handler(tag, value)]: the replacement text of a documentation
    tag.  [_tag_context] is the attribute that [doc_comment] and
    [_make_struct_constructor_args] set around the processing of a text:
    [None], or the documented type and whether the text documents a
    constructor. *)
Definition _tag_handler (self : CSharpGenerator)
    (_tag_context : option (option DataType * bool))
    (tag value : string) : result string :=
  if bool_decide (tag = "field") then
    if contains_char "." value then
      let parts := map _public_name (split "." value) in
      Ok ("<see cref=" +:+ quoted (join "." parts) +:+ " />")
    else
      match _tag_context with
      | Some (data_type, is_constructor) =>
          if is_constructor
          then let* argument := _arg_name value in
               Ok ("<paramref name=" +:+ quoted argument +:+ " />")
          else Ok ("<see cref=" +:+ quoted (_public_name value) +:+ " />")
      | None =>
          let* argument := _arg_name value in
          Ok ("<paramref name=" +:+ quoted argument +:+ " />")
      end
  else if bool_decide (tag = "link") then
    let parts := split " " value in
    let uri := last_part parts in
    let text := join " " (removelast parts) in
    Ok ("<a href=" +:+ quoted uri +:+ ">" +:+ text +:+ "</a>")
  else if bool_decide (tag = "route") then
    Ok ("<see cref=" +:+
        quoted (DEFAULT_NAMESPACE +:+ _ns self +:+ ".Routes." +:+ _ns self
                +:+ "Routes." +:+ _public_name value +:+ "Async") +:+ " />")
  else if bool_decide (tag = "type") then
    Ok ("<see cref=" +:+ quoted (_public_name value) +:+ " />")
  else if bool_decide (tag = "val") then
    Ok ("<c>" +:+ strip "`" value +:+ "</c>")
  else Raise AssertionError.

(** The tags the handler knows. *)
Definition known_tags : list string :=
  ["field"; "link"; "route"; "type"; "val"].

(** X12. The tag handler fails in two ways only.  It raises
    [AssertionError] exactly for a tag other than field, link, route, type
    and val; it raises [IndexError] exactly for a field tag without a dot
    that is resolved to an argument name (inside a constructor's
    documentation, or outside any documentation context) and whose value is
    made of underscores and slashes only. *)
Theorem tag_handler_errors (self : CSharpGenerator)
    (_tag_context : option (option DataType * bool)) (tag value : string) :
  (_tag_handler self _tag_context tag value = Raise AssertionError
   <-> tag ∉ known_tags)
  /\ (_tag_handler self _tag_context tag value = Raise IndexError
      <-> tag = "field" /\ contains_char "." value = false
          /\ (forall data_type, _tag_context <> Some (data_type, false))
          /\ all_chars is_separator value = true).
Proof.
  assert (Harg : forall k : string -> result string,
            (forall a, exists r, k a = Ok r) ->
            (bind (_arg_name value) k = Raise IndexError
             <-> all_chars is_separator value = true)
            /\ bind (_arg_name value) k <> Raise AssertionError).
  { intros k Hk. rewrite <- public_name_empty. unfold _arg_name.
    destruct (_public_name value) as [|c rest].
    - split; [split; reflexivity|intros H; discriminate H].
    - case_bool_decide as E; cbn [bind];
        match goal with
        | |- context [k ?a] => destruct (Hk a) as [r ->]
        end; (split; [split; intros H; discriminate H|intros H; discriminate H]). }
  unfold _tag_handler, known_tags.
  case_bool_decide as Hfield.
  { subst tag. split.
    - split; [|intros H; contradiction H; left].
      intros H. exfalso. destruct (contains_char "." value); [discriminate H|].
      destruct _tag_context as [[data_type []]|]; try discriminate H;
        revert H; apply Harg; intros a; eexists; reflexivity.
    - destruct (contains_char "." value).
      + split; [intros H; discriminate H|intros (_ & H & _); discriminate H].
      + destruct _tag_context as [[data_type []]|].
        * rewrite (proj1 (Harg _ (fun a => ex_intro _ _ eq_refl))).
          split; [intros H; repeat split; [discriminate|exact H]
                 |intros (_ & _ & _ & H); exact H].
        * split; [intros H; discriminate H|].
          intros (_ & _ & H & _). contradiction (H data_type). reflexivity.
        * rewrite (proj1 (Harg _ (fun a => ex_intro _ _ eq_refl))).
          split; [intros H; repeat split; [discriminate|exact H]
                 |intros (_ & _ & _ & H); exact H]. }
  split.
  - repeat (case_bool_decide;
            [subst tag; split; [intros Hr; discriminate Hr
                               |intros Hr; contradiction Hr; in_list]|]).
    split; [|reflexivity]. intros _ Hin.
    repeat (apply elem_of_cons in Hin as [Hin|Hin]; [contradiction|]).
    inversion Hin.
  - split; [|intros [Hr _]; contradiction].
    repeat (case_bool_decide; [intros Hr; discriminate Hr|]).
    intros Hr; discriminate Hr.
Qed.

Lemma split_no_separator sep s :
  contains_char sep s = false -> split sep s = [s].
Proof.
  unfold contains_char. induction s as [|c s IH]; [reflexivity|].
  cbn [has_char split]. intros H. apply orb_false_iff in H as [Hc H].
  rewrite Ascii.eqb_sym, Hc, (IH H). reflexivity.
Qed.

Lemma split_append sep text rest :
  split sep (text +:+ String sep rest) = split sep text ++ split sep rest.
Proof.
  induction text as [|c text IH]; rewrite ?append_nil, ?append_cons.
  - cbn [split]. rewrite Ascii.eqb_refl. reflexivity.
  - cbn [split]. destruct (Ascii.eqb c sep); [rewrite IH; reflexivity|].
    rewrite IH. destruct (split sep text) as [|w ws] eqn:E;
      [exfalso; exact (split_nonempty _ _ E)|]. reflexivity.
Qed.

(** [sep.join(s.split(sep)) == s] *)
Lemma join_split_any sep s : join (String sep EmptyString) (split sep s) = s.
Proof.
  induction s as [|c s IH]; simpl; [reflexivity|].
  destruct (Ascii.eqb c sep) eqn:E.
  - apply Ascii.eqb_eq in E; subst c.
    destruct (split sep s) as [|w ws] eqn:Es;
      [exfalso; exact (split_nonempty _ _ Es)|].
    rewrite join_cons, IH; reflexivity.
  - destruct (split sep s) as [|w ws] eqn:Es;
      [exfalso; exact (split_nonempty _ _ Es)|].
    destruct ws as [|w' ws].
    + simpl in *; rewrite IH; reflexivity.
    + rewrite join_cons in *. rewrite <- IH. reflexivity.
Qed.

(** X13. A link tag is cut at its last space: what follows the last space
    is the address and what precedes it, spaces included, is the text of
    the anchor; a value without a space is an address with an empty
    text. *)
Theorem link_tag_anchor (self : CSharpGenerator)
    (_tag_context : option (option DataType * bool)) (text uri : string) :
  contains_char " " uri = false ->
  _tag_handler self _tag_context "link" (text +:+ " " +:+ uri)
  = Ok ("<a href=" +:+ quoted uri +:+ ">" +:+ text +:+ "</a>")
  /\ _tag_handler self _tag_context "link" uri
     = Ok ("<a href=" +:+ quoted uri +:+ "></a>").
Proof.
  intros Huri. unfold _tag_handler.
  rewrite bool_decide_eq_false_2 by discriminate.
  rewrite bool_decide_eq_true_2 by reflexivity. cbv zeta.
  split.
  - change (text +:+ " " +:+ uri) with (text +:+ String " " uri).
    rewrite split_append, (split_no_separator _ _ Huri).
    unfold last_part. rewrite last_last, removelast_last.
    change " " with (String " "%char EmptyString) at 1.
    rewrite join_split_any. reflexivity.
  - rewrite (split_no_separator _ _ Huri). reflexivity.
Qed.

Lemma link_tag_anchor_witness :
  _tag_handler files_generator None "link" "the docs http://example.com"
  = Ok ("<a href=" +:+ quoted "http://example.com" +:+ ">the docs</a>").
Proof.
  exact (proj1 (link_tag_anchor files_generator None "the docs"
                  "http://example.com" eq_refl)).
Defined.

(** * Namespaces and routes *)

(** A data type declared in a namespace. *)
Inductive Composite :=
| AStruct (struct : Struct)
| AUnion (union : Union).

(** The type a route refers to.  A struct is given as the declared struct
    itself ([OfStruct]), whose fields the route generator reads; any other
    type as a plain data type. *)
Inductive RouteDataType :=
| OfStruct (struct : Struct)
| OfOther (data_type : DataType).

Definition route_data_type (t : RouteDataType) : DataType :=
  match t with
  | OfStruct struct => StructRef (struct_name struct) (struct_namespace struct)
  | OfOther data_type => data_type
  end.

Record ApiRoute := {
  route_name : string;
  route_doc : option string;
  attrs : gmap string string;
  request_data_type : RouteDataType;
  response_data_type : RouteDataType;
  error_data_type : RouteDataType;
}.

Record ApiNamespace := {
  namespace_name : string;
  namespace_doc : option string;
  data_types : list Composite;
  routes : list ApiRoute;
}.

(** ** Related types *)

(** [related_types[key]] of the [defaultdict(set)]. *)
Definition related (related_types : gmap string (gset string))
    (key : string) : gset string :=
  from_option id ∅ (related_types !! key).

(** [related_types[key].add(value)] *)
Definition add_related (key value : string)
    (related_types : gmap string (gset string))
  : gmap string (gset string) :=
  <[key := related related_types key ∪ {[value]}]> related_types.

(** One turn of the loop of [_compute_related_types], for a struct. *)
Definition relate_struct (struct : Struct)
    (related_types : gmap string (gset string))
  : gmap string (gset string) :=
  let related_types :=
    match parent_type struct with
    | Some parent =>
        add_related (struct_name struct) (struct_name parent)
          (add_related (struct_name parent) (struct_name struct)
             related_types)
    | None => related_types
    end in
  fold_left (fun related_types field =>
               match data_type field with
               | StructRef name _ =>
                   add_related name (struct_name struct) related_types
               | _ => related_types
               end)
    (all_fields struct) related_types.

Definition _compute_related_types (ns : ApiNamespace)
    (self : CSharpGenerator) : CSharpGenerator :=
  let related_types :=
    fold_left (fun related_types data_type =>
                 match data_type with
                 | AStruct struct => relate_struct struct related_types
                 | AUnion _ => related_types
                 end)
      (data_types ns) ∅ in
  {| _ns := _ns self;
     _name_list := _name_list self;
     _prevent_collisions := _prevent_collisions self;
     _related_types := related_types |}.

(** What one struct contributes: it is related to its parent and its
    parent to it, and it is related to every struct that is the type of
    one of its fields. *)
Definition relates (struct : Struct) (key value : string) : Prop :=
  (exists parent,
     parent_type struct = Some parent
     /\ ((key = struct_name parent /\ value = struct_name struct)
         \/ (key = struct_name struct /\ value = struct_name parent)))
  \/ (value = struct_name struct
      /\ exists field namespace,
           field ∈ all_fields struct
           /\ data_type field = StructRef key namespace).

Lemma related_add key value related_types k x :
  x ∈ related (add_related key value related_types) k
  <-> x ∈ related related_types k \/ (k = key /\ x = value).
Proof.
  unfold add_related, related at 1.
  destruct (decide (key = k)) as [->|Hne].
  - rewrite lookup_insert_eq. cbn. rewrite elem_of_union, elem_of_singleton.
    split; [intros [H|H]; [left; exact H|right; split; [reflexivity|exact H]]
           |intros [H|[_ H]]; [left; exact H|right; exact H]].
  - rewrite lookup_insert_ne by exact Hne. fold (related related_types k).
    split; [intros H; left; exact H|].
    intros [H|[H _]]; [exact H|]. contradiction Hne. symmetry. exact H.
Qed.

Lemma related_fields owner fields : forall related_types k x,
  x ∈ related
        (fold_left (fun related_types field =>
                      match data_type field with
                      | StructRef name _ => add_related name owner related_types
                      | _ => related_types
                      end) fields related_types) k
  <-> x ∈ related related_types k
      \/ (x = owner
          /\ exists field namespace,
               field ∈ fields /\ data_type field = StructRef k namespace).
Proof.
  induction fields as [|f fields IH]; intros related_types k x.
  - cbn. split; [intros H; left; exact H|].
    intros [H|(_ & field & namespace & Hin & _)]; [exact H|inversion Hin].
  - cbn [fold_left]. rewrite IH. split.
    + intros [H|(-> & field & namespace & Hin & Hf)].
      * destruct (data_type f) eqn:Hf; try (left; exact H).
        apply related_add in H as [H|[-> ->]]; [left; exact H|].
        right. split; [reflexivity|]. exists f, namespace.
        split; [left|exact Hf].
      * right. split; [reflexivity|]. exists field, namespace.
        split; [right; exact Hin|exact Hf].
    + intros [H|(-> & field & namespace & Hin & Hf)].
      * left. destruct (data_type f); try exact H.
        apply related_add. left. exact H.
      * apply elem_of_cons in Hin as [->|Hin].
        -- left. rewrite Hf. apply related_add. right. split; reflexivity.
        -- right. split; [reflexivity|]. exists field, namespace.
           split; assumption.
Qed.

Lemma related_struct struct related_types k x :
  x ∈ related (relate_struct struct related_types) k
  <-> x ∈ related related_types k \/ relates struct k x.
Proof.
  unfold relate_struct, relates. rewrite related_fields.
  destruct (parent_type struct) as [parent|].
  - rewrite !related_add. split.
    + intros [[[H|[-> ->]]|[-> ->]]|H].
      * left. exact H.
      * right. left. exists parent. split; [reflexivity|]. left.
        split; reflexivity.
      * right. left. exists parent. split; [reflexivity|]. right.
        split; reflexivity.
      * right. right. exact H.
    + intros [H|[(parent' & Hp & H)|H]].
      * left. left. left. exact H.
      * injection Hp as <-. left.
        destruct H as [[-> ->]|[-> ->]];
          [left; right; split; reflexivity|right; split; reflexivity].
      * right. exact H.
  - split.
    + intros [H|H]; [left; exact H|right; right; exact H].
    + intros [H|[(parent & Hp & _)|H]];
        [left; exact H|discriminate Hp|right; exact H].
Qed.

(** X14. After [_compute_related_types] has run over a namespace, the
    types related to a name are exactly these: for each struct of the
    namespace that has a parent, the struct is related to the parent and
    the parent to the struct; and each struct is related to the name of
    every struct that is the type of one of its fields (inherited fields
    included), but not the other way round.  Unions contribute nothing,
    and neither do fields whose struct type is wrapped as nullable or as a
    list. *)
Theorem related_types_computed (ns : ApiNamespace) (self : CSharpGenerator)
    (key value : string) :
  value ∈ related (_related_types (_compute_related_types ns self)) key
  <-> exists struct,
        AStruct struct ∈ data_types ns /\ relates struct key value.
Proof.
  unfold _compute_related_types. cbn [_related_types].
  assert (Hfold : forall types related_types,
    value ∈ related
              (fold_left (fun related_types data_type =>
                            match data_type with
                            | AStruct struct =>
                                relate_struct struct related_types
                            | AUnion _ => related_types
                            end) types related_types) key
    <-> value ∈ related related_types key
        \/ exists struct, AStruct struct ∈ types /\ relates struct key value).
  { induction types as [|t types IH]; intros related_types.
    - cbn. split; [intros H; left; exact H|].
      intros [H|(struct & Hin & _)]; [exact H|inversion Hin].
    - cbn [fold_left]. rewrite IH. split.
      + intros [H|(struct & Hin & Hr)].
        * destruct t as [struct|union]; [|left; exact H].
          apply related_struct in H as [H|H]; [left; exact H|].
          right. exists struct. split; [left|exact H].
        * right. exists struct. split; [right; exact Hin|exact Hr].
      + intros [H|(struct & Hin & Hr)].
        * left. destruct t as [struct|union]; [|exact H].
          apply related_struct. left. exact H.
        * apply elem_of_cons in Hin as [<-|Hin].
          -- left. apply related_struct. right. exact Hr.
          -- right. exists struct. split; assumption. }
  rewrite Hfold. split; [|intros H; right; exact H].
  intros [H|H]; [|exact H].
  unfold related in H. rewrite lookup_empty in H. cbn in H.
  apply not_elem_of_empty in H. contradiction.
Qed.

(** X15. The documentation of a struct's class names every related type
    once, in a [seealso] element after the summary, in the order of the
    names. *)
Theorem seealso_sorted (self : CSharpGenerator) (struct : Struct)
    (emitted : list code) :
  _generate_struct self struct = Ok emitted ->
  exists summary names rest,
    emitted
    = DocComment
        (EmitSummary summary
         :: map (fun name =>
                   EmitXml None "seealso" [("cref", _public_name name)])
              names)
      :: rest
    /\ StronglySorted String.le names
    /\ NoDup names
    /\ forall name,
         name ∈ names
         <-> name ∈ related (_related_types self) (struct_name struct).
Proof.
  unfold _generate_struct. intros H. inv_ok H. subst emitted.
  eexists _, (sorted (related (_related_types self) (struct_name struct))), _.
  split; [reflexivity|]. unfold sorted. split; [|split].
  - apply StronglySorted_merge_sort; apply _.
  - rewrite merge_sort_Permutation. apply NoDup_elements.
  - intros name. rewrite merge_sort_Permutation. apply elem_of_elements.
Qed.

(** The namespace of [shape] and its subtype [circle]. *)
Definition files_namespace : ApiNamespace :=
  {| namespace_name := "files"; namespace_doc := None;
     data_types := [AStruct shape; AStruct circle; AUnion color];
     routes := [] |}.

(** The class of [shape] points to [circle]. *)
Lemma seealso_sorted_witness :
  exists emitted summary rest,
    _generate_struct (_compute_related_types files_namespace files_generator)
      shape = Ok emitted
    /\ emitted
       = DocComment [EmitSummary summary;
                     EmitXml None "seealso" [("cref", "Circle")]]
         :: rest.
Proof.
  assert (H : {emitted |
               _generate_struct
                 (_compute_related_types files_namespace files_generator)
                 shape = Ok emitted})
    by (eexists; vm_compute; reflexivity).
  destruct H as [emitted H]. exists emitted.
  destruct (seealso_sorted _ _ _ H)
    as (summary & names & rest & Hemitted & _ & _ & _).
  pose proof H as H'. vm_compute in H'. rewrite Hemitted in H'.
  injection H' as Hdoc Hrest.
  exists summary, rest. split; [exact H|]. rewrite Hemitted.
  f_equal. f_equal. f_equal.
  destruct names as [|name [|name' names]]; try discriminate Hrest.
  injection Hrest as Hname. cbn [map]. rewrite Hname. reflexivity.
Defined.

(** ** Emitted units

    Outside the class of a data type the generator uses three more
    shapes of its emission interface: [generate_multiline_list] with an
    [after] text, [prefix], and [xml_block].  A unit is recorded as a tree
    over these and the code recorded so far; [Block] is [cs_block], which
    [namespace] and [class_] are defined by. *)

#[warnings="-register-all"]
Inductive unit_code :=
| Code (c : code)
| MultilineList (items : list string) (before after : string)
    (* self.generate_multiline_list(items, before=.., after=..,
       skip_last_sep=True) *)
| Block (before : option string) (body : list unit_code)
| Prefix (prefix : string) (body : list unit_code)
| XmlBlock (tag : string) (attrs : list (string * string))
    (body : list unit_code).

(** [self.namespace(name)] *)
Definition namespace_ (name : string) (body : list unit_code) : unit_code :=
  Block (Some ("namespace " +:+ DEFAULT_NAMESPACE +:+ name)) body.

(** [self.class_(name, inherits, access)] *)
Definition class_ (name : string) (inherits : list string) (access : string)
    (body : list unit_code) : unit_code :=
  Block (before_text (Class_ name inherits access [])) body.

(** [self.auto_generated()] *)
Definition auto_generated : list unit_code :=
  [Prefix "// " [Code (Emit "<auto-generated>");
                 Code (Emit "Auto-generated by BabelAPI, do not modify.");
                 Code (Emit "</auto-generated>")];
   Code emit_blank].

(** [s.endswith(suffix)] *)
Fixpoint ends_with (suffix s : string) : bool :=
  match s with
  | EmptyString => bool_decide (suffix = EmptyString)
  | String _ rest => bool_decide (suffix = s) || ends_with suffix rest
  end.

(** [os.path.join(a, b)] on a POSIX system. *)
Definition path_join (a b : string) : string :=
  if startswith b "/" then b
  else if bool_decide (a = EmptyString) || ends_with "/" a then a +:+ b
  else a +:+ "/" +:+ b.

(** ** Routes *)

(** [route.attrs.get(key, default)] *)
Definition attr (route : ApiRoute) (key default : string) : string :=
  from_option id default (attrs route !! key).

(** ['=' in text] *)
Definition has_equals (text : string) : bool := contains_char "=" text.

Definition returns_doc (response_is_void : bool) : code :=
  if response_is_void
  then EmitXml (Some "The task that represents the asynchronous send operation.")
         "returns" []
  else EmitXml (Some ("The task that represents the asynchronous send " +:+
                      "operation. The TResult parameter contains the " +:+
                      "response from the server."))
         "returns" [].

Definition exception_doc (error_is_void : bool) (error_type : string)
  : list code :=
  if error_is_void then []
  else [EmitXml (Some ("Thrown if there is an error processing the request; "
                       +:+ "This will contain a <see cref=" +:+
                       quoted error_type +:+ "/>."))
          "exception"
          [("cref", "Dropbox.Api.ApiException{" +:+ error_type +:+ "}")]].

(** The constructor argument that stands for the uploaded stream. *)
Definition body_constructor_arg (ctor_args : list ConstructorArg)
  : ConstructorArg :=
  {| arg_type := "io.Stream"; arg_name := "body";
     arg := if existsb (fun c => has_equals (arg c)) ctor_args
            then "io.Stream body = null" else "io.Stream body";
     arg_doc := "<param name=" +:+ quoted "body" +:+
                ">The document to upload</param>" |}.

(** The body of the [End] method of a route. *)
Definition end_body (task_type : string) (response_is_void : bool)
  : list code :=
  [Emit ("var task = asyncResult as " +:+ task_type +:+ ";");
   If_ "task == null" [throw_invalid_operation]]
  ++ if response_is_void then []
     else [emit_blank; Emit "return task.Result;"].

Definition _generate_route (self : CSharpGenerator) (ns : ApiNamespace)
    (route : ApiRoute) : result (list unit_code) :=
  let public_name := _public_name (route_name route) in
  let member_name := public_name +:+ "Async" in
  let route_host := attr route "host" "api" in
  let route_style := attr route "style" "rpc" in
  let upload := bool_decide (route_style = "upload") in
  let request := route_data_type (request_data_type route) in
  let response := route_data_type (response_data_type route) in
  let error := route_data_type (error_data_type route) in
  let* request_type := _typename_full self request (Some "enc.Empty") false in
  let request_is_void := is_void_type request in
  let* request_arg :=
    match request with
    | StructRef name _ | UnionRef name _ => _arg_name name
    | _ => Ok "request"
    end in
  let* response_type :=
    _typename_full self response (Some "enc.Empty") false in
  let response_is_void := is_void_type response in
  let* error_type := _typename_full self error (Some "enc.Empty") false in
  let error_is_void := is_void_type error in
  let task_type :=
    if response_is_void then "t.Task"
    else if bool_decide (route_style = "download")
    then "t.Task<enc.IDownloadResponse<" +:+ response_type +:+ ">>"
    else "t.Task<" +:+ response_type +:+ ">" in
  let apm_response_type :=
    if response_is_void then "void"
    else if bool_decide (route_style = "download")
    then "enc.IDownloadResponse<" +:+ response_type +:+ ">"
    else response_type in
  let* ctor_args :=
    if request_is_void then Ok []
    else match request_data_type route with
         | OfStruct struct => _make_struct_constructor_args self struct
         | OfOther _ => Ok []
         end in
  let route_args :=
    (if request_is_void then []
     else [request_type +:+ " " +:+ request_arg])
    ++ if upload then ["io.Stream body"] else [] in
  let ctor_args :=
    ctor_args ++ if upload then [body_constructor_arg ctor_args] else [] in
  let async_fn :=
    "public " +:+ task_type +:+ " " +:+ member_name +:+ "(" +:+
    join ", " route_args +:+ ")" in
  let apm_args :=
    route_args ++ ["sys.AsyncCallback callback"; "object state = null"] in
  let apm_fn :=
    "public sys.IAsyncResult Begin" +:+ public_name +:+ "(" +:+
    join ", " apm_args +:+ ")" in
  let type_args := [request_type; response_type; error_type] in
  let route_summary :=
    EmitSummary (or_else (route_doc route)
                   ("The " +:+ _name_words (route_name route) +:+ " route")) in
  let begin_summary :=
    EmitSummary ("Begins an asynchronous send to the " +:+
                 _name_words (route_name route) +:+ " route.") in
  let send_args :=
    [if request_is_void then "enc.Empty.Instance" else request_arg]
    ++ (if upload then ["body"] else [])
    ++ [quoted route_host;
        quoted ("/" +:+ namespace_name ns +:+ "/" +:+ route_name route)] in
  let async_args :=
    (if request_is_void then [] else [request_arg])
    ++ if upload then ["body"] else [] in
  let arg_list := map arg ctor_args in
  let arg_name_list := map arg_name ctor_args in
  let request_new :=
    MultilineList
      (if upload then removelast arg_name_list else arg_name_list)
      ("var " +:+ request_arg +:+ " = new " +:+ request_type) ";" in
  let overloads :=
    if Nat.ltb (if upload then 1 else 0) (length ctor_args)
    then
      [Code emit_blank;
       Code (DocComment
               ([route_summary]
                ++ map (fun item => EmitWrappedText (arg_doc item)) ctor_args
                ++ [returns_doc response_is_void]
                ++ exception_doc error_is_void error_type));
       Code (GenerateMultilineList arg_list
               ("public " +:+ task_type +:+ " " +:+ member_name));
       Block None
         [request_new;
          Code emit_blank;
          Code (Emit ("return this." +:+ member_name +:+ "(" +:+
                      join ", " ([request_arg]
                                 ++ if upload then ["body"] else [])
                      +:+ ");"))];
       Code emit_blank;
       Code (DocComment
               ([begin_summary]
                ++ map (fun item => EmitWrappedText (arg_doc item)) ctor_args
                ++ [EmitXml (Some ("The method to be called when the " +:+
                                   "asynchronous send is completed."))
                      "param" [("name", "callback")];
                    EmitXml (Some ("A user provided object that " +:+
                                   "distinguished this send from other " +:+
                                   "send requests."))
                      "param" [("name", "callbackState")];
                    EmitXml (Some ("An object that represents the " +:+
                                   "asynchronous send request."))
                      "returns" []]));
       Code (GenerateMultilineList
               (arg_list
                ++ [if existsb has_equals arg_list
                    then "sys.AsyncCallback callback = null"
                    else "sys.AsyncCallback callback";
                    "object callbackState = null"])
               ("public sys.IAsyncResult Begin" +:+ public_name));
       Block None
         [request_new;
          Code emit_blank;
          Code (Emit ("return this.Begin" +:+ public_name +:+ "(" +:+
                      join ", " ([request_arg]
                                 ++ (if upload then ["body"] else [])
                                 ++ ["callback"; "callbackState"])
                      +:+ ");"))]]
    else [] in
  Ok ([Code emit_blank;
       Code (DocComment
               ([route_summary]
                ++ (if request_is_void then []
                    else [EmitXml (Some "The request parameters") "param"
                            [("name", request_arg)]])
                ++ (if upload
                    then [EmitXml (Some "The content to upload.") "param"
                            [("name", "body")]]
                    else [])
                ++ [returns_doc response_is_void]
                ++ exception_doc error_is_void error_type));
       Code (CsBlock (Some async_fn)
               [Emit ("return this.Transport.Send" +:+
                      _public_name route_style +:+ "RequestAsync<" +:+
                      join ", " type_args +:+ ">(" +:+
                      join ", " send_args +:+ ");")]);
       Code emit_blank;
       Code (DocComment
               ([begin_summary]
                ++ (if request_is_void then []
                    else [EmitXml (Some "The request parameters.") "param"
                            [("name", request_arg)]])
                ++ (if upload
                    then [EmitXml (Some "The content to upload.") "param"
                            [("name", "body")]]
                    else [])
                ++ [EmitXml (Some ("The method to be called when the " +:+
                                   "asynchronous send is completed."))
                      "param" [("name", "callback")];
                    EmitXml (Some ("A user provided object that " +:+
                                   "distinguished this send from other " +:+
                                   "send requests."))
                      "param" [("name", "state")];
                    EmitXml (Some ("An object that represents the " +:+
                                   "asynchronous send request."))
                      "returns" []]));
       Code (CsBlock (Some apm_fn)
               [Emit ("var task = this." +:+ member_name +:+ "(" +:+
                      join ", " async_args +:+ ");");
                emit_blank;
                Emit "return enc.Util.ToApm(task, callback, state);"])]
      ++ overloads
      ++ [Code emit_blank;
          Code (DocComment
                  ([EmitSummary ("Waits for the pending asynchronous send " +:+
                                 "to the " +:+
                                 _name_words (route_name route) +:+
                                 " route to complete");
                    EmitXml (Some ("The reference to the pending " +:+
                                   "asynchronous send request"))
                      "param" [("name", "asyncResult")]]
                   ++ (if response_is_void then []
                       else [EmitXml (Some "The response to the send request")
                               "returns" []])
                   ++ exception_doc error_is_void error_type));
          Code (CsBlock (Some ("public " +:+ apm_response_type +:+ " End" +:+
                               public_name +:+
                               "(sys.IAsyncResult asyncResult)"))
                  (end_body task_type response_is_void))]).

Definition _generate_routes (self : CSharpGenerator) (ns : ApiNamespace)
    (routes : list ApiRoute) : result (string * list unit_code) :=
  let ns_name := _public_name (namespace_name ns) in
  let class_name := ns_name +:+ "Routes" in
  let* members := for_each (_generate_route self ns) routes in
  Ok (path_join ns_name (class_name +:+ ".cs"),
      auto_generated
      ++ [namespace_ (join "." [ns_name; "Routes"])
            [Code (Emit "using sys = System;");
             Code (Emit "using io = System.IO;");
             Code (Emit "using col = System.Collections.Generic;");
             Code (Emit "using t = System.Threading.Tasks;");
             Code (Emit "using enc = Dropbox.Api.Babel;");
             Code emit_blank;
             Code (DocComment
                     [EmitSummary ("The routes for the <see cref=" +:+
                                   quoted ("N:" +:+ DEFAULT_NAMESPACE +:+
                                           ns_name) +:+
                                   "/> namespace")]);
             class_ class_name [] "public"
               ([Code (DocComment
                         [emit_ctor_summary class_name;
                          EmitXml (Some "The transport to use") "param"
                            [("name", "transport")]]);
                 Code (CsBlock (Some ("internal " +:+ class_name +:+
                                      "(enc.ITransport transport)"))
                         [Emit "this.Transport = transport;"]);
                 Code emit_blank;
                 Code (DocComment
                         [EmitSummary
                            "Gets the transport used for these routes"]);
                 Code (Emit ("internal enc.ITransport Transport " +:+
                             "{ get; private set; }"))]
                ++ concat members)]]).

(** *** The overloads of a route *)

(** The test that decides on the overloads. *)
Lemma overloads_condition self route ctor_args (upload : bool) body_arg :
  (if is_void_type (route_data_type (request_data_type route))
   then Ok []
   else match request_data_type route with
        | OfStruct struct => _make_struct_constructor_args self struct
        | OfOther _ => Ok []
        end) = Ok ctor_args ->
  Nat.ltb (if upload then 1 else 0)
    (length (ctor_args ++ if upload then [body_arg] else [])) = true
  <-> exists struct,
        request_data_type route = OfStruct struct
        /\ all_fields struct <> [].
Proof.
  intros H. rewrite Nat.ltb_lt, length_app.
  assert (Hargs : (0 < length ctor_args)%nat
                  <-> exists struct,
                        request_data_type route = OfStruct struct
                        /\ all_fields struct <> []).
  { destruct (request_data_type route) as [struct|other]; cbn in H.
    - apply for_each_length in H. rewrite H. split.
      + intros Hpos. exists struct. split; [reflexivity|].
        intros Hnil. rewrite Hnil in Hpos. cbn in Hpos. lia.
      + intros (struct' & Heq & Hne). injection Heq as <-.
        destruct (all_fields struct); [contradiction|cbn; lia].
    - assert (ctor_args = []) as ->
        by (destruct (is_void_type other); inv_ok H; subst; reflexivity).
      split; [cbn; lia|]. intros (struct & Heq & _). discriminate Heq. }
  rewrite <- Hargs. destruct upload; cbn [length]; lia.
Qed.

(** X16. Next to the method that takes the request object, a route gets
    the overloads that take the request's fields as arguments exactly when
    the request type is a struct with at least one field; the request of
    a route that takes nothing, a union or a struct without fields is
    never spread into arguments. *)
Theorem route_overloads (self : CSharpGenerator) (ns : ApiNamespace)
    (route : ApiRoute) (emitted : list unit_code) :
  _generate_route self ns route = Ok emitted ->
  (exists items before, Code (GenerateMultilineList items before) ∈ emitted)
  <-> exists struct,
        request_data_type route = OfStruct struct
        /\ all_fields struct <> [].
Proof.
  unfold _generate_route. intros H. inv_ok H. subst emitted.
  rename v3 into ctor_args.
  match goal with
  | |- context [Nat.ltb ?a ?b] => destruct (Nat.ltb a b) eqn:Hlt
  end.
  - split; [intros _; exact (proj1 (overloads_condition _ _ _ _ _ Hv3) Hlt)|].
    intros _. eexists _, _. do 6 apply list_elem_of_further.
    apply elem_of_app. left.
    do 2 apply list_elem_of_further. apply list_elem_of_here.
  - split.
    + intros (items & before & Hin). exfalso. cbn [app] in Hin.
      repeat (apply elem_of_cons in Hin as [Hin|Hin]; [discriminate Hin|]).
      inversion Hin.
    + intros Hs. exfalso.
      exact (eq_true_false_abs _
               (proj2 (overloads_condition _ _ _ _ _ Hv3) Hs) Hlt).
Qed.

(** An upload route that takes a [file_info]. *)
Definition upload_route : ApiRoute :=
  {| route_name := "upload"; route_doc := None;
     attrs := {["style" := "upload"]};
     request_data_type := OfStruct file_info;
     response_data_type := OfOther (StructRef "file_info" "files");
     error_data_type := OfOther Void |}.

Lemma route_overloads_witness :
  exists emitted,
    _generate_route files_generator files_namespace upload_route = Ok emitted
    /\ exists items before,
         Code (GenerateMultilineList items before) ∈ emitted.
Proof.
  assert (H : {emitted |
               _generate_route files_generator files_namespace upload_route
               = Ok emitted}) by (eexists; vm_compute; reflexivity).
  destruct H as [emitted H]. exists emitted. split; [exact H|].
  apply (proj2 (route_overloads _ _ _ _ H)).
  exists file_info. split; [reflexivity|discriminate].
Defined.

(** *** The End method of a route *)

(** X17. The last thing emitted for a route is its End method.  It is
    declared [public R End<Name>(sys.IAsyncResult asyncResult)] and casts
    the asynchronous result to the route's task type: [t.Task] with [R]
    void when the response is void, and otherwise [t.Task<R>] where [R] is
    the response type, wrapped in [enc.IDownloadResponse<>] for a download
    route.  It raises the invalid-state error when the result is no such
    task; otherwise it returns the task's result, or nothing when the
    response is void. *)
Theorem route_end_method (env : environment) (self : CSharpGenerator)
    (ns : ApiNamespace) (route : ApiRoute) (emitted : list unit_code) :
  _generate_route self ns route = Ok emitted ->
  exists response_type returned task_type body,
    _typename_full self (route_data_type (response_data_type route))
      (Some "enc.Empty") false = Ok response_type
    /\ returned
       = (if is_void_type (route_data_type (response_data_type route))
          then "void"
          else if bool_decide (attr route "style" "rpc" = "download")
               then "enc.IDownloadResponse<" +:+ response_type +:+ ">"
               else response_type)
    /\ task_type
       = (if is_void_type (route_data_type (response_data_type route))
          then "t.Task"
          else "t.Task<" +:+ returned +:+ ">")
    /\ last emitted
       = Some (Code (CsBlock
                       (Some ("public " +:+ returned +:+ " End" +:+
                              _public_name (route_name route) +:+
                              "(sys.IAsyncResult asyncResult)")) body))
    /\ (holds env "task == null" = true ->
        run_body env body
        = {| executed := ["var task = asyncResult as " +:+ task_type +:+ ";";
                          "throw new sys.InvalidOperationException();"];
             state := Thrown; chain_open := false |})
    /\ (holds env "task == null" = false ->
        run_body env body
        = if is_void_type (route_data_type (response_data_type route))
          then {| executed := ["var task = asyncResult as " +:+ task_type
                               +:+ ";"];
                  state := Running; chain_open := true |}
          else {| executed := ["var task = asyncResult as " +:+ task_type
                               +:+ ";"; "return task.Result;"];
                  state := Returned; chain_open := false |}).
Proof.
  unfold _generate_route. intros H. inv_ok H. subst emitted.
  match goal with
  | Hresponse : _typename_full self
                  (route_data_type (response_data_type route)) _ _
                = Ok ?r |- context [end_body ?t ?void] =>
      exists r; eexists _, t, (end_body t void);
      split; [exact Hresponse|]
  end.
  split; [reflexivity|]. split.
  { destruct (is_void_type (route_data_type (response_data_type route)));
      [reflexivity|].
    destruct (bool_decide (attr route "style" "rpc" = "download"));
      rewrite ?append_assoc; reflexivity. }
  split.
  - rewrite !last_cons, last_app. reflexivity.
  - unfold end_body. rewrite run_body_eq, run_list_app.
    rewrite !run_list_cons, run_list_nil.
    rewrite run_Emit_plain by (try reflexivity; plain_text).
    rewrite run_If by reflexivity.
    split; intros ->.
    + rewrite run_list_cons, run_list_nil. unfold throw_invalid_operation.
      rewrite run_Emit_throw by reflexivity.
      destruct (is_void_type (route_data_type (response_data_type route)));
        [reflexivity|].
      rewrite run_list_stopped by reflexivity. reflexivity.
    + destruct (is_void_type (route_data_type (response_data_type route)));
        [reflexivity|].
      rewrite run_list_cons, run_list_cons, run_list_nil, run_Emit_blank.
      rewrite run_Emit_return by reflexivity. reflexivity.
Qed.

(** The upload route of [files] answers with a [file_info]. *)
Lemma route_end_method_witness :
  exists emitted body,
    _generate_route files_generator files_namespace upload_route = Ok emitted
    /\ last emitted
       = Some (Code (CsBlock
                       (Some ("public FileInfo EndUpload" +:+
                              "(sys.IAsyncResult asyncResult)")) body))
    /\ run_body (instance_with "task == null") body
       = {| executed := ["var task = asyncResult as t.Task<FileInfo>;";
                         "throw new sys.InvalidOperationException();"];
            state := Thrown; chain_open := false |}.
Proof.
  assert (H : {emitted |
               _generate_route files_generator files_namespace upload_route
               = Ok emitted}) by (eexists; vm_compute; reflexivity).
  destruct H as [emitted H]. exists emitted.
  destruct (route_end_method (instance_with "task == null") _ _ _ _ H)
    as (response_type & returned & task_type & body & Hresponse & -> & ->
        & Hlast & Hnull & _).
  vm_compute in Hresponse. injection Hresponse as <-.
  exists body. split; [exact H|]. split; [exact Hlast|].
  rewrite Hnull by reflexivity. reflexivity.
Defined.

(** *** Optional arguments of the overloads *)

Lemma has_equals_app s t :
  has_equals (s +:+ t) = has_equals s || has_equals t.
Proof. apply has_char_app. Qed.

(** The argument of a field that has a default or is nullable carries a
    default value. *)
Lemma make_args_optional self struct ctor_args field :
  _make_struct_constructor_args self struct = Ok ctor_args ->
  field ∈ all_fields struct ->
  has_default field = true \/ is_nullable_type (data_type field) = true ->
  existsb (fun c => has_equals (arg c)) ctor_args = true.
Proof.
  unfold _make_struct_constructor_args. intros H Hin Hoptional.
  apply for_each_Forall2 in H.
  induction H as [|f c fields args Hc _ IH]; [inversion Hin|].
  cbn [existsb]. apply orb_true_iff.
  apply elem_of_cons in Hin as [<-|Hin]; [left|right; exact (IH Hin)].
  clear IH. inv_ok Hc. subst c. cbn [arg].
  unfold has_default in Hoptional.
  destruct (default field) as [literal|].
  - destruct (is_composite_type (data_type field));
      rewrite !has_equals_app; cbn; rewrite ?orb_true_r; reflexivity.
  - destruct Hoptional as [Hd|Hn]; [discriminate Hd|]. rewrite Hn.
    rewrite !has_equals_app. cbn. rewrite ?orb_true_r. reflexivity.
Qed.

(** X18. When a field of the request struct has a default or is nullable,
    so that its argument is optional, the arguments the route generator
    adds after the fields are optional as well: the stream of an upload
    route is declared [io.Stream body = null] and the callback of the
    Begin overload [sys.AsyncCallback callback = null]. *)
Theorem route_optional_arguments (self : CSharpGenerator)
    (ns : ApiNamespace) (route : ApiRoute) (struct : Struct) (field : Field)
    (emitted : list unit_code) :
  _generate_route self ns route = Ok emitted ->
  request_data_type route = OfStruct struct ->
  field ∈ all_fields struct ->
  has_default field = true \/ is_nullable_type (data_type field) = true ->
  exists items before,
    Code (GenerateMultilineList
            (items ++ ["sys.AsyncCallback callback = null";
                       "object callbackState = null"]) before) ∈ emitted
    /\ (attr route "style" "rpc" = "upload" ->
        last items = Some "io.Stream body = null").
Proof.
  unfold _generate_route. intros H Hrequest Hin Hoptional. inv_ok H.
  subst emitted. rename v3 into ctor_args.
  rewrite Hrequest in Hv3. cbn [route_data_type is_void_type] in Hv3.
  pose proof (make_args_optional _ _ _ _ Hv3 Hin Hoptional) as Hequals.
  assert (Hlt : forall (upload : bool) body_arg,
            Nat.ltb (if upload then 1 else 0)
              (length (ctor_args ++ if upload then [body_arg] else []))
            = true).
  { intros upload body_arg. apply Nat.ltb_lt.
    apply for_each_length in Hv3. rewrite length_app, Hv3.
    destruct (all_fields struct); [inversion Hin|].
    destruct upload; cbn [length]; lia. }
  rewrite Hlt.
  assert (Hlist : existsb has_equals
                    (map arg
                       (ctor_args
                        ++ if bool_decide (attr route "style" "rpc" = "upload")
                           then [body_constructor_arg ctor_args] else []))
                  = true).
  { rewrite map_app, existsb_app. apply orb_true_iff. left.
    clear -Hequals. induction ctor_args as [|c args IH]; [discriminate Hequals|].
    cbn [existsb map] in *. apply orb_true_iff in Hequals as [Hc|Hrest];
      [rewrite Hc; reflexivity|rewrite (IH Hrest), orb_true_r; reflexivity]. }
  rewrite Hlist.
  eexists _, _. split.
  - do 6 apply list_elem_of_further. apply elem_of_app. left.
    do 6 apply list_elem_of_further. apply list_elem_of_here.
  - intros Hupload. rewrite (bool_decide_eq_true_2 _ Hupload).
    rewrite map_app, last_app. unfold body_constructor_arg.
    rewrite Hequals. reflexivity.
Qed.

Lemma route_optional_arguments_witness :
  exists emitted items before,
    _generate_route files_generator files_namespace upload_route = Ok emitted
    /\ Code (GenerateMultilineList
               (items ++ ["sys.AsyncCallback callback = null";
                          "object callbackState = null"]) before) ∈ emitted
    /\ last items = Some "io.Stream body = null".
Proof.
  assert (H : {emitted |
               _generate_route files_generator files_namespace upload_route
               = Ok emitted}) by (eexists; vm_compute; reflexivity).
  destruct H as [emitted H]. exists emitted.
  destruct (route_optional_arguments files_generator files_namespace
              upload_route file_info
              (field "count" (Nullable (Numeric UInt64 (Some (Int 0)) None))
                 None) emitted H eq_refl)
    as (items & before & Hin & Hbody).
  - in_list.
  - right. reflexivity.
  - exists items, before. split; [exact H|]. split; [exact Hin|].
    apply Hbody. vm_compute. reflexivity.
Defined.

(** * The generator run *)

(** The API handed to [generate]: its namespaces, in the order in which
    [api.namespaces.itervalues()] yields them. *)
Record Api := {
  namespaces : list ApiNamespace;
}.

(** A file the generator writes: a unit of emitted code, a project file
    whose text [make_csproj_file] (csproj.py) makes from the list of
    files, or a text written as it is. *)
Inductive output_file :=
| Unit (filename : string) (body : list unit_code)
| Project (filename : string) (files : list string) (is_doc link : bool)
| Raw (filename : string) (text : string).

Definition filename_of (file : output_file) : string :=
  match file with
  | Unit filename _ | Project filename _ _ _ | Raw filename _ => filename
  end.

(** [s[:-1]] *)
Fixpoint drop_last (s : string) : string :=
  match s with
  | EmptyString => EmptyString
  | String c EmptyString => EmptyString
  | String c rest => String c (drop_last rest)
  end.

(** ** The client classes *)

(** [get_auth_type(ns)]: the auth attribute of the first route. *)
Definition get_auth_type (ns : ApiNamespace) : option string :=
  match routes ns with
  | [] => None
  | route :: _ => Some (attr route "auth" "user")
  end.

(** The statement that declares the routes of a namespace in a client, and
    the one that initializes them. *)
Definition routes_property (ns_name : string) : string :=
  "public " +:+ ns_name +:+ "Routes " +:+ ns_name +:+ " { get; private set; }".

Definition routes_initializer (ns_name : string) : string :=
  "this." +:+ ns_name +:+ " = new " +:+ ns_name +:+ "Routes(transport);".

Definition _generate_dropbox_client (api : Api)
    (client_name auth_type : string) : output_file :=
  let ns_names :=
    map (fun ns => _public_name (namespace_name ns))
      (filter (fun ns => get_auth_type ns = Some auth_type)
         (namespaces api)) in
  Unit (client_name +:+ ".cs")
    (auto_generated
     ++ [Block (Some ("namespace " +:+ drop_last DEFAULT_NAMESPACE))
           ([Code (Emit "using sys = System;");
             Code emit_blank;
             Code (Emit "using Dropbox.Api.Babel;")]
            ++ map (fun ns_name =>
                      Code (Emit ("using " +:+ DEFAULT_NAMESPACE +:+ ns_name
                                  +:+ ".Routes;")))
                 ns_names
            ++ [Code emit_blank;
                class_ client_name [] "public sealed partial"
                  (concat
                     (imap (fun index ns_name =>
                              (match index with
                               | O => []
                               | _ => [Code emit_blank]
                               end)
                              ++ [Code (DocComment
                                          [EmitSummary
                                             ("Gets the " +:+ ns_name +:+
                                              " routes.")]);
                                  Code (Emit (routes_property ns_name))])
                        ns_names)
                   ++ [Code emit_blank;
                       Code (DocComment
                               [EmitSummary "Initializes the routes.";
                                EmitXml (Some "The transport.") "returns" []]);
                       Code (CsBlock
                               (Some ("private void InitializeRoutes(" +:+
                                      "ITransport transport)"))
                               (map (fun ns_name =>
                                       Emit (routes_initializer ns_name))
                                  ns_names))])])]).

(** ** Data types and namespaces *)

Definition composite_name (data_type : Composite) : string :=
  match data_type with
  | AStruct struct => struct_name struct
  | AUnion union => union_name union
  end.

Definition _generate_data_type (ns_name : string) (data_type : Composite)
    (self : CSharpGenerator) : result (output_file * CSharpGenerator) :=
  let class_name := _public_name (composite_name data_type) in
  let* (emitted, self) :=
    match data_type with
    | AStruct struct =>
        let* emitted := _generate_struct self struct in
        Ok (emitted, self)
    | AUnion union => _generate_union union self
    end in
  Ok (Unit (path_join ns_name (class_name +:+ ".cs"))
        (auto_generated
         ++ [namespace_ ns_name
               ([Code (Emit "using sys = System;");
                 Code (Emit "using col = System.Collections.Generic;");
                 Code (Emit "using re = System.Text.RegularExpressions;");
                 Code emit_blank;
                 Code (Emit "using enc = Dropbox.Api.Babel;");
                 Code emit_blank]
                ++ map Code emitted)]),
      self).

(** A loop whose body changes the generator. *)
Fixpoint for_each_with {A B} (f : A -> CSharpGenerator ->
                                  result (B * CSharpGenerator))
    (xs : list A) (self : CSharpGenerator)
  : result (list B * CSharpGenerator) :=
  match xs with
  | [] => Ok ([], self)
  | x :: rest =>
      let* (y, self) := f x self in
      let* (ys, self) := for_each_with f rest self in
      Ok (y :: ys, self)
  end.

Definition set_ns (ns_name : string) (self : CSharpGenerator)
  : CSharpGenerator :=
  {| _ns := ns_name;
     _name_list := _name_list self;
     _prevent_collisions := _prevent_collisions self;
     _related_types := _related_types self |}.

Definition _generate_namespace (ns : ApiNamespace) (self : CSharpGenerator)
  : result (list output_file * CSharpGenerator) :=
  let ns_name := _public_name (namespace_name ns) in
  let self := set_ns ns_name self in
  let* (files, self) :=
    for_each_with (_generate_data_type ns_name) (data_types ns) self in
  match routes ns with
  | [] => Ok (files, self)
  | _ =>
      let* (filename, body) := _generate_routes self ns (routes ns) in
      Ok (files ++ [Unit filename body], self)
  end.

(** ** The namespace summaries *)

(** [self.emit_summary(doc)] in a unit. *)
Definition summary (doc : string) : unit_code := Code (EmitSummary doc).

Definition _generate_xml_doc (api : Api) : output_file :=
  Unit "namespace_summaries.xml"
    [Code (Emit ("<?xml version=" +:+ quoted "1.0" +:+ "?>"));
     XmlBlock "doc" []
       [XmlBlock "assembly" []
          [Code (EmitXml (Some "_NamespaceSummaries_") "name" [])];
        XmlBlock "members" []
          (XmlBlock "member" [("name", "N:" +:+ drop_last DEFAULT_NAMESPACE)]
             [summary ("Contains the dropbox client - <see cref=" +:+
                       quoted ("T:" +:+ DEFAULT_NAMESPACE +:+ "DropboxClient")
                       +:+ "/>.")]
           :: concat
                (map (fun namespace =>
                        let ns_name := _public_name (namespace_name namespace) in
                        [XmlBlock "member"
                           [("name", "N:" +:+ DEFAULT_NAMESPACE +:+ ns_name)]
                           [summary
                              (or_else (namespace_doc namespace)
                                 ("Contains the types used by the routes " +:+
                                  "declared in <see cref=" +:+
                                  quoted ("T:" +:+ DEFAULT_NAMESPACE +:+
                                          ns_name +:+ ".Routes." +:+ ns_name
                                          +:+ "Routes") +:+ " />."))];
                         XmlBlock "member"
                           [("name", "N:" +:+ DEFAULT_NAMESPACE +:+ ns_name
                                     +:+ ".Routes")]
                           [summary
                              ("Contains the routes for the <see cref=" +:+
                               quoted ("N:" +:+ DEFAULT_NAMESPACE +:+ ns_name)
                               +:+ " /> namespace.")]])
                   (namespaces api)))]].

(** ** Project files and common files *)

(** [_generate_csproj]: both project files list the files generated so
    far whose name ends in [.cs]. *)
Definition _generate_csproj (_generated_files : list string) (link : bool)
  : list output_file :=
  let files := filter (fun f => ends_with ".cs" f = true) _generated_files in
  [Project "Dropbox.Api.csproj" files false link;
   Project "Dropbox.Api.Doc.csproj" files true link].

(** [_copy_common_files]: [common] lists the files found under the
    [common] directory, by their path relative to it, with their text. *)
Definition _copy_common_files (common : list (string * string))
  : list output_file :=
  map (fun '(dest_path, doc) =>
         Raw dest_path
           (if ends_with (String "010" EmptyString) doc then doc
            else doc +:+ String "010" EmptyString))
    common.

Definition generate (api : Api) (link : bool)
    (common : list (string * string)) (self : CSharpGenerator)
  : result (list output_file * CSharpGenerator) :=
  let* (files, self) :=
    for_each_with (fun namespace self =>
                     _generate_namespace namespace
                       (_compute_related_types namespace self))
      (namespaces api) self in
  let files :=
    concat files
    ++ [_generate_dropbox_client api "DropboxClient" "user";
        _generate_dropbox_client api "DropboxTeamClient" "team";
        _generate_xml_doc api] in
  let files := files ++ _generate_csproj (map filename_of files) link in
  Ok (files ++ _copy_common_files common, self).

(** ** Which routes a client exposes *)

(** The lines a unit emits as they are, through all its blocks. *)
Fixpoint unit_lines (u : unit_code) : list string :=
  let all_lines :=
    fix all_lines (us : list unit_code) : list string :=
      match us with
      | [] => []
      | u :: rest => unit_lines u ++ all_lines rest
      end in
  match u with
  | Code (Emit text) => [text]
  | Code _ | MultilineList _ _ _ => []
  | Block _ body | Prefix _ body | XmlBlock _ _ body => all_lines body
  end.

Definition lines_of (us : list unit_code) : list string :=
  concat (map unit_lines us).

Lemma all_lines_eq us :
  (fix all_lines (us : list unit_code) : list string :=
     match us with
     | [] => []
     | u :: rest => unit_lines u ++ all_lines rest
     end) us = lines_of us.
Proof. induction us as [|u us IH]; [reflexivity|]. cbn. rewrite IH. reflexivity. Qed.

Lemma unit_lines_block before body :
  unit_lines (Block before body) = lines_of body.
Proof. cbn. apply all_lines_eq. Qed.

Lemma lines_of_app us1 us2 : lines_of (us1 ++ us2) = lines_of us1 ++ lines_of us2.
Proof. unfold lines_of. rewrite map_app, concat_app. reflexivity. Qed.

Lemma lines_of_cons u us : lines_of (u :: us) = unit_lines u ++ lines_of us.
Proof. reflexivity. Qed.

(** The lines of a file. *)
Definition file_lines (file : output_file) : list string :=
  match file with
  | Unit _ body => lines_of body
  | _ => []
  end.

Fixpoint length_of (s : string) : nat :=
  match s with
  | EmptyString => O
  | String _ rest => S (length_of rest)
  end.

Lemma length_of_app s t : length_of (s +:+ t) = (length_of s + length_of t)%nat.
Proof.
  induction s as [|c s IH]; rewrite ?append_nil, ?append_cons; cbn;
    [reflexivity|]. rewrite IH. reflexivity.
Qed.

Lemma append_same_length s s' t t' :
  s +:+ t = s' +:+ t' -> length_of s = length_of s' -> s = s'.
Proof.
  revert s'; induction s as [|c s IH]; intros [|c' s'] H Hlen;
    try discriminate Hlen; [reflexivity|].
  rewrite !append_cons in H. injection H as -> H. f_equal.
  apply (IH s' H). injection Hlen as Hlen. exact Hlen.
Qed.

Lemma routes_property_inj a b : routes_property a = routes_property b -> a = b.
Proof.
  unfold routes_property. intros H.
  assert (Hlen : length_of a = length_of b).
  { apply (f_equal length_of) in H. rewrite !length_of_app in H.
    cbn in H. lia. }
  change ("public " +:+ a +:+ "Routes " +:+ a +:+ " { get; private set; }")
    with (String "p" (String "u" (String "b" (String "l" (String "i"
           (String "c" (String " "
              (a +:+ "Routes " +:+ a +:+ " { get; private set; }"))))))))
    in H.
  change ("public " +:+ b +:+ "Routes " +:+ b +:+ " { get; private set; }")
    with (String "p" (String "u" (String "b" (String "l" (String "i"
           (String "c" (String " "
              (b +:+ "Routes " +:+ b +:+ " { get; private set; }"))))))))
    in H.
  injection H as H. exact (append_same_length _ _ _ _ H Hlen).
Qed.

Lemma property_lines (h : nat -> nat) ns_names ns_name :
  routes_property ns_name
  ∈ lines_of
      (concat
         (imap (fun index name =>
                  (match h index with
                   | O => []
                   | _ => [Code emit_blank]
                   end)
                  ++ [Code (DocComment
                              [EmitSummary ("Gets the " +:+ name +:+
                                            " routes.")]);
                      Code (Emit (routes_property name))])
            ns_names))
  <-> ns_name ∈ ns_names.
Proof.
  revert h; induction ns_names as [|name names IH]; intros h.
  - cbn. split; intros H; inversion H.
  - rewrite imap_cons. cbn [concat]. rewrite !lines_of_app, !elem_of_app.
    rewrite (IH (fun i => h (S i))), elem_of_cons.
    split.
    + intros [[Hin|Hin]|Hin]; [| |right; exact Hin].
      * exfalso. destruct (h 0%nat); [inversion Hin|].
        apply list_elem_of_singleton in Hin. discriminate Hin.
      * left. cbn in Hin. apply list_elem_of_singleton in Hin.
        apply routes_property_inj, Hin.
    + intros [->|Hin]; [left; right; cbn; left|right; exact Hin].
Qed.

Lemma client_property_lines ns_names ns_name :
  routes_property ns_name
  ∈ lines_of
      (concat
         (imap (fun index name =>
                  (match index with
                   | O => []
                   | _ => [Code emit_blank]
                   end)
                  ++ [Code (DocComment
                              [EmitSummary ("Gets the " +:+ name +:+
                                            " routes.")]);
                      Code (Emit (routes_property name))])
            ns_names))
  <-> ns_name ∈ ns_names.
Proof. exact (property_lines (fun i => i) ns_names ns_name). Qed.

(** The namespaces whose routes a client is given. *)
Definition client_namespaces (api : Api) (auth_type : string) : list string :=
  map (fun ns => _public_name (namespace_name ns))
    (filter (fun ns => get_auth_type ns = Some auth_type) (namespaces api)).

Lemma client_namespaces_spec api auth_type ns_name :
  ns_name ∈ client_namespaces api auth_type
  <-> exists ns route rest,
        ns ∈ namespaces api
        /\ _public_name (namespace_name ns) = ns_name
        /\ routes ns = route :: rest
        /\ attr route "auth" "user" = auth_type.
Proof.
  unfold client_namespaces. rewrite list_elem_of_fmap. split.
  - intros (ns & -> & Hin). apply list_elem_of_filter in Hin as [Hauth Hin].
    unfold get_auth_type in Hauth.
    destruct (routes ns) as [|route rest] eqn:Hroutes; [discriminate Hauth|].
    injection Hauth as Hauth. exists ns, route, rest. auto.
  - intros (ns & route & rest & Hin & <- & Hroutes & Hauth).
    exists ns. split; [reflexivity|]. apply list_elem_of_filter.
    split; [|exact Hin]. unfold get_auth_type. rewrite Hroutes, Hauth.
    reflexivity.
Qed.

Lemma client_lines_names api client_name auth_type ns_name :
  routes_property ns_name
  ∈ file_lines (_generate_dropbox_client api client_name auth_type)
  <-> ns_name ∈ client_namespaces api auth_type.
Proof.
  unfold _generate_dropbox_client, file_lines, class_.
  fold (client_namespaces api auth_type).
  generalize (client_namespaces api auth_type). intros ns_names.
  rewrite lines_of_app, lines_of_cons, unit_lines_block.
  rewrite !lines_of_app.
  rewrite (lines_of_cons (Code emit_blank) [Block _ _]).
  rewrite (lines_of_cons (Block _ _) []), unit_lines_block, lines_of_app.
  rewrite !elem_of_app, client_property_lines.
  assert (Hfixed : forall texts : list string,
            Forall (fun text => starts_with "public " text = false) texts ->
            routes_property ns_name ∉ texts).
  { intros texts Htexts Hin. rewrite Forall_forall in Htexts.
    specialize (Htexts _ Hin). discriminate Htexts. }
  assert (H1 : routes_property ns_name ∉ lines_of auto_generated)
    by (apply Hfixed; repeat constructor).
  assert (H2 : routes_property ns_name
               ∉ lines_of [Code (Emit "using sys = System;"); Code emit_blank;
                           Code (Emit "using Dropbox.Api.Babel;")])
    by (apply Hfixed; repeat constructor).
  assert (H3 : routes_property ns_name
               ∉ lines_of
                   (map (fun name =>
                           Code (Emit ("using " +:+ DEFAULT_NAMESPACE +:+ name
                                       +:+ ".Routes;"))) ns_names)).
  { apply Hfixed. clear.
    induction ns_names as [|name names IH]; constructor;
      [reflexivity|exact IH]. }
  assert (H4 : routes_property ns_name ∉ unit_lines (Code emit_blank))
    by (apply Hfixed; repeat constructor).
  assert (H5 : routes_property ns_name
               ∉ lines_of
                   [Code emit_blank;
                    Code (DocComment
                            [EmitSummary "Initializes the routes.";
                             EmitXml (Some "The transport.") "returns" []]);
                    Code (CsBlock
                            (Some ("private void InitializeRoutes(" +:+
                                   "ITransport transport)"))
                            (map (fun name => Emit (routes_initializer name))
                               ns_names))])
    by (apply Hfixed; repeat constructor).
  assert (H6 : routes_property ns_name ∉ lines_of [])
    by (apply Hfixed; constructor).
  tauto.
Qed.

(** X19. A client exposes the routes of a namespace exactly when the
    namespace has at least one route and the auth attribute of its first
    route (user when the route has none) is the auth type of the client;
    the attributes of the later routes are not looked at, and a namespace
    without routes is exposed by no client. *)
Theorem client_exposes_routes (api : Api)
    (client_name auth_type ns_name : string) :
  routes_property ns_name
  ∈ file_lines (_generate_dropbox_client api client_name auth_type)
  <-> exists ns route rest,
        ns ∈ namespaces api
        /\ _public_name (namespace_name ns) = ns_name
        /\ routes ns = route :: rest
        /\ attr route "auth" "user" = auth_type.
Proof. rewrite client_lines_names. apply client_namespaces_spec. Qed.

(** ** The files of a run *)

Lemma ends_with_append suffix s : ends_with suffix (s +:+ suffix) = true.
Proof.
  induction s as [|c s IH]; rewrite ?append_nil, ?append_cons.
  - destruct suffix; cbn; rewrite bool_decide_eq_true_2 by reflexivity;
      reflexivity.
  - cbn [ends_with]. rewrite IH. apply orb_true_r.
Qed.

(** A path made for a C# file ends in [.cs]. *)
Lemma path_join_cs directory name :
  ends_with ".cs" (path_join directory (name +:+ ".cs")) = true.
Proof.
  unfold path_join. destruct (startswith _ _); [apply ends_with_append|].
  destruct (_ || _).
  - rewrite <- append_assoc. apply ends_with_append.
  - rewrite <- !append_assoc. apply ends_with_append.
Qed.

(** A C# source file of the run. *)
Definition is_source (file : output_file) : Prop :=
  exists body,
    file = Unit (filename_of file) body
    /\ ends_with ".cs" (filename_of file) = true.

Lemma data_type_source ns_name data_type self file self' :
  _generate_data_type ns_name data_type self = Ok (file, self') ->
  is_source file.
Proof.
  unfold _generate_data_type. intros H. inv_ok H.
  destruct v as [emitted self0]. inv_ok H. subst file.
  eexists. split; [reflexivity|]. apply path_join_cs.
Qed.

Lemma for_each_with_Forall {A B} (P : B -> Prop)
    (f : A -> CSharpGenerator -> result (B * CSharpGenerator)) xs :
  (forall x self y self', f x self = Ok (y, self') -> P y) ->
  forall self ys self',
    for_each_with f xs self = Ok (ys, self') -> Forall P ys.
Proof.
  intros Hf. induction xs as [|x xs IH]; intros self ys self' H;
    cbn [for_each_with] in H.
  - inv_ok H. subst ys. constructor.
  - inv_ok H. destruct v as [y self1]. inv_ok H. destruct v as [ys' self2].
    inv_ok H. subst ys. constructor; eauto.
Qed.

Lemma for_each_with_elem {A B}
    (f : A -> CSharpGenerator -> result (B * CSharpGenerator)) xs x :
  x ∈ xs ->
  forall self ys self',
    for_each_with f xs self = Ok (ys, self') ->
    exists self1 y self2, f x self1 = Ok (y, self2) /\ y ∈ ys.
Proof.
  induction xs as [|x' xs IH]; intros Hin self ys self' H;
    [inversion Hin|].
  cbn [for_each_with] in H. inv_ok H. destruct v as [y self1]. inv_ok H.
  destruct v as [ys' self2]. inv_ok H. subst ys.
  apply elem_of_cons in Hin as [->|Hin].
  - exists self, y, self1. split; [assumption|left].
  - destruct (IH Hin _ _ _ Hv0) as (s1 & y' & s2 & Hy & Hin').
    exists s1, y', s2. split; [exact Hy|right; exact Hin'].
Qed.

Lemma routes_filename self ns routes filename body :
  _generate_routes self ns routes = Ok (filename, body) ->
  filename
  = path_join (_public_name (namespace_name ns))
      ((_public_name (namespace_name ns) +:+ "Routes") +:+ ".cs").
Proof.
  unfold _generate_routes. intros H. inv_ok H. subst filename. reflexivity.
Qed.

Lemma namespace_sources ns self files self' :
  _generate_namespace ns self = Ok (files, self') ->
  Forall is_source files.
Proof.
  unfold _generate_namespace. intros H. inv_ok H.
  destruct v as [units self1].
  assert (Hunits : Forall is_source units).
  { eapply for_each_with_Forall; [|exact Hv].
    intros x s y s'. apply data_type_source. }
  destruct (routes ns) as [|route rest]; inv_ok H.
  - subst files. exact Hunits.
  - destruct v as [filename body]. inv_ok H. subst files.
    apply Forall_app. split; [exact Hunits|]. constructor; [|constructor].
    eexists. split; [reflexivity|]. cbn [filename_of].
    apply routes_filename in Hv0. rewrite Hv0. apply path_join_cs.
Qed.

Lemma filter_sources files :
  Forall is_source files ->
  filter (fun f => ends_with ".cs" f = true) (map filename_of files)
  = map filename_of files.
Proof.
  induction 1 as [|file files (body & _ & Hcs) _ IH]; [reflexivity|].
  cbn [map]. rewrite filter_cons_True by exact Hcs. rewrite IH. reflexivity.
Qed.

(** X20. Both project files of a run list the same files: the units
    written before the namespace summaries, in the order in which they
    were written, each of them a C# file.  These are the files of the
    data types and routes of the namespaces followed by the two clients;
    the summaries and the files copied from the common directory, which
    are written after the project files, are not in the list. *)
Theorem project_lists_sources (api : Api) (link : bool)
    (common : list (string * string)) (self self' : CSharpGenerator)
    (files : list output_file) :
  generate api link common self = Ok (files, self') ->
  exists generated,
    files
    = generated
      ++ [_generate_xml_doc api;
          Project "Dropbox.Api.csproj" (map filename_of generated) false link;
          Project "Dropbox.Api.Doc.csproj" (map filename_of generated) true
            link]
      ++ _copy_common_files common
    /\ Forall is_source generated
    /\ exists units,
         generated
         = units ++ [_generate_dropbox_client api "DropboxClient" "user";
                     _generate_dropbox_client api "DropboxTeamClient" "team"].
Proof.
  unfold generate. intros H. inv_ok H. destruct v as [units self1].
  inv_ok H. subst files.
  assert (Hunits : Forall is_source (concat units)).
  { apply Forall_concat. eapply for_each_with_Forall; [|exact Hv].
    intros ns s ys s'. apply namespace_sources. }
  set (generated := concat units
                    ++ [_generate_dropbox_client api "DropboxClient" "user";
                        _generate_dropbox_client api "DropboxTeamClient"
                          "team"]).
  assert (Hgenerated : Forall is_source generated).
  { apply Forall_app. split; [exact Hunits|].
    repeat constructor; (eexists; split; [reflexivity|]);
      vm_compute; reflexivity. }
  exists generated. split; [|split; [exact Hgenerated|eexists; reflexivity]].
  unfold _generate_csproj.
  replace (concat units
           ++ [_generate_dropbox_client api "DropboxClient" "user";
               _generate_dropbox_client api "DropboxTeamClient" "team";
               _generate_xml_doc api])
    with (generated ++ [_generate_xml_doc api])
    by (unfold generated; rewrite <- app_assoc; reflexivity).
  rewrite map_app, filter_app, (filter_sources _ Hgenerated).
  cbn [map filename_of _generate_xml_doc].
  rewrite filter_cons_False by (vm_compute; discriminate).
  rewrite filter_nil, app_nil_r, <- !app_assoc. reflexivity.
Qed.

(** An API with the one namespace [files]: two data types and a route. *)
Definition files_api : Api :=
  {| namespaces :=
       [{| namespace_name := "files"; namespace_doc := None;
           data_types := [AStruct file_info; AUnion color];
           routes := [upload_route] |}] |}.

Lemma project_lists_sources_witness :
  exists files self' generated,
    generate files_api false [("README.md", "Common files.")] files_generator
    = Ok (files, self')
    /\ Project "Dropbox.Api.csproj" (map filename_of generated) false false
       ∈ files
    /\ Forall is_source generated.
Proof.
  assert (H : {result |
               generate files_api false [("README.md", "Common files.")]
                 files_generator = Ok result})
    by (eexists; vm_compute; reflexivity).
  destruct H as [[files self'] H]. exists files, self'.
  destruct (project_lists_sources _ _ _ _ _ _ H)
    as (generated & -> & Hsources & _).
  exists generated. split; [exact H|]. split; [|exact Hsources].
  apply elem_of_app. right. apply list_elem_of_further, list_elem_of_here.
Defined.

Example files_api_run :
  exists files self',
    generate files_api false [("README.md", "Common files.")] files_generator
    = Ok (files, self')
    /\ map filename_of files
       = ["Files/FileInfo.cs"; "Files/Color.cs"; "Files/FilesRoutes.cs";
          "DropboxClient.cs"; "DropboxTeamClient.cs";
          "namespace_summaries.xml"; "Dropbox.Api.csproj";
          "Dropbox.Api.Doc.csproj"; "README.md"].
Proof. eexists _, _. split; vm_compute; reflexivity. Qed.

Lemma namespace_routes_file ns self files self' route rest :
  _generate_namespace ns self = Ok (files, self') ->
  routes ns = route :: rest ->
  exists body,
    Unit (path_join (_public_name (namespace_name ns))
            ((_public_name (namespace_name ns) +:+ "Routes") +:+ ".cs"))
      body ∈ files.
Proof.
  unfold _generate_namespace. intros H Hroutes. rewrite Hroutes in H.
  inv_ok H. destruct v as [units self1]. inv_ok H.
  destruct v as [filename body]. inv_ok H. subst files self'.
  exists body. apply routes_filename in Hv0 as <-.
  apply elem_of_app. right. left.
Qed.

(** X21. Every routes class that a client of a run exposes is written by
    the run: when a client declares the routes of a namespace, the file of
    that namespace's routes class is among the files. *)
Theorem exposed_routes_generated (api : Api) (link : bool)
    (common : list (string * string)) (self self' : CSharpGenerator)
    (files : list output_file) (client_name auth_type ns_name : string) :
  generate api link common self = Ok (files, self') ->
  routes_property ns_name
  ∈ file_lines (_generate_dropbox_client api client_name auth_type) ->
  exists body,
    Unit (path_join ns_name ((ns_name +:+ "Routes") +:+ ".cs")) body ∈ files.
Proof.
  intros H Hin. apply client_lines_names, client_namespaces_spec in Hin
    as (ns & route & rest & Hns & <- & Hroutes & _).
  unfold generate in H. inv_ok H. destruct v as [units self1]. inv_ok H.
  subst files.
  destruct (for_each_with_elem _ _ _ Hns _ _ _ Hv)
    as (s1 & written & s2 & Hwritten & Hin).
  destruct (namespace_routes_file _ _ _ _ _ _ Hwritten Hroutes)
    as (body & Hbody).
  exists body. rewrite <- !app_assoc. apply elem_of_app. left.
  exact (elem_of_concat _ _ _ Hbody Hin).
Qed.

Lemma exposed_routes_generated_witness :
  exists files self' body,
    generate files_api false [] files_generator = Ok (files, self')
    /\ Unit "Files/FilesRoutes.cs" body ∈ files.
Proof.
  assert (H : {result |
               generate files_api false [] files_generator = Ok result})
    by (eexists; vm_compute; reflexivity).
  destruct H as [[files self'] H]. exists files, self'.
  destruct (exposed_routes_generated files_api false [] files_generator self'
              files "DropboxClient" "user" "Files" H) as (body & Hbody).
  - apply client_lines_names. vm_compute. left.
  - exists body. split; [exact H|exact Hbody].
Defined.

(** ** The checks of a constructor argument at run time *)

(** The texts of the two errors a constructor raises. *)
Definition null_error (name : string) : string :=
  "throw new sys.ArgumentNullException(" +:+ quoted name +:+ ");".

Definition range_error (name : string) : string :=
  "throw new sys.ArgumentOutOfRangeException(" +:+ quoted name +:+ ");".

(** The test of each bound that the type of a string or list argument
    declares: the minimum and maximum length and the pattern of a string,
    the minimum and maximum count of a list (taken on the copy
    [<name>List]).  Composite types declare no bounds. *)
Definition bound_tests (name : string) (data_type : DataType) : list string :=
  match data_type with
  | String_ min_length max_length pattern =>
      optional_check (format_int <$> min_length)
        (fun v => name +:+ ".Length < " +:+ v)
      ++ optional_check (format_int <$> max_length)
           (fun v => name +:+ ".Length > " +:+ v)
      ++ optional_check (_verbatim_string <$> pattern)
           (fun v => "!re.Regex.IsMatch(" +:+ name +:+ ", " +:+ v +:+ ")")
  | List _ min_items max_items =>
      optional_check (format_int <$> min_items)
        (fun v => (name +:+ "List") +:+ ".Count < " +:+ v)
      ++ optional_check (format_int <$> max_items)
           (fun v => (name +:+ "List") +:+ ".Count > " +:+ v)
  | _ => []
  end.

(** The out-of-range test of an argument: the disjunction of the tests of
    its declared bounds, if it declares any. *)
Definition range_test (name : string) (data_type : DataType)
  : option string :=
  match bound_tests name data_type with
  | [] => None
  | tests => Some (join " || " tests)
  end.

(** The copy that is made of a list argument before it is checked. *)
Definition list_copy (name element_type : string) : string :=
  "var " +:+ (name +:+ "List") +:+ " = new col.List<" +:+ element_type +:+
  ">(" +:+ name +:+ " ?? new " +:+ element_type +:+ "[0]);".

Lemma append_nil_r (s : string) : s +:+ EmptyString = s.
Proof.
  induction s as [|c s IH]; [reflexivity|]. rewrite append_cons, IH.
  reflexivity.
Qed.

(** What is emitted for an argument of a reference type that is not
    nullable and has no null check yet. *)
Lemma check_constraints_reference self name data_type emitted :
  _check_constraints self name data_type false = Ok emitted ->
  is_nullable_type data_type = false ->
  _could_be_null data_type = true ->
  exists declared,
    emitted = declared ++ [If_ (name +:+ " == null") [throw_null name]]
              ++ match range_test name data_type with
                 | Some test => [ElseIf test [throw_out_of_range name]]
                 | None => []
                 end
              ++ [emit_blank]
    /\ if is_list_type data_type
       then exists element_type,
              _typename self (inner_type data_type) = Ok element_type
              /\ declared = [Emit (list_copy name element_type); emit_blank]
       else declared = [].
Proof.
  unfold _check_constraints, range_test. intros H Hn Hnull. inv_ok H.
  destruct v as [declared checks]. inv_ok H. subst emitted.
  destruct data_type; try discriminate Hn; try discriminate Hnull;
    cbn in Hv; inv_ok Hv; subst;
    repeat match goal with
    | |- context [_could_be_null ?t] => change (_could_be_null t) with true
    end;
    cbn [is_nullable_type is_list_type inner_type bound_tests negb andb orb];
    cbv iota;
    try match goal with
    | |- context [match ?l with [] => _ | _ => _ end] =>
        generalize l; intros checks
    end.
  - exists []. split; [|reflexivity].
    destruct checks as [|check checks]; [reflexivity|].
    rewrite append_nil, append_nil_r. reflexivity.
  - eexists [_; _]. split.
    + destruct checks as [|check checks]; [reflexivity|].
      rewrite append_nil, append_nil_r. reflexivity.
    + eexists. split; [eassumption|reflexivity].
  - exists []. split; reflexivity.
  - exists []. split; reflexivity.
Qed.

(** X22. The checks emitted for a constructor argument of a reference type
    that is not nullable (a string, a list or a composite without default)
    reject null first: when the argument is null the null-argument error is
    raised and no bound is tested.  The out-of-range test is the [else if]
    of the null test; it is emitted exactly when the type declares a bound
    and is the disjunction of the tests of the declared bounds.  When the
    argument is not null and that test holds the out-of-range error is
    raised; in every other case the constructor goes on.  A list argument
    is copied before it is checked. *)
Theorem null_rejected_first (env : environment) (self : CSharpGenerator)
    (name : string) (data_type : DataType) (emitted : list code) :
  _check_constraints self name data_type false = Ok emitted ->
  is_nullable_type data_type = false ->
  _could_be_null data_type = true ->
  exists declared : list string,
    (if is_list_type data_type
     then exists element_type,
            _typename self (inner_type data_type) = Ok element_type
            /\ declared = [list_copy name element_type]
     else declared = [])
    /\ (forall test, range_test name data_type = Some test
                     <-> ElseIf test [throw_out_of_range name] ∈ emitted)
    /\ executed (run_body env emitted)
       = declared
         ++ (if holds env (name +:+ " == null") then [null_error name]
             else match range_test name data_type with
                  | Some test =>
                      if holds env test then [range_error name] else []
                  | None => []
                  end)
    /\ state (run_body env emitted)
       = (if holds env (name +:+ " == null") then Thrown
          else match range_test name data_type with
               | Some test => if holds env test then Thrown else Running
               | None => Running
               end).
Proof.
  intros H Hn Hnull.
  destruct (check_constraints_reference _ _ _ _ H Hn Hnull)
    as (declared & -> & Hdeclared).
  assert (Hprelude : exists texts,
            (if is_list_type data_type
             then exists element_type,
                    _typename self (inner_type data_type) = Ok element_type
                    /\ texts = [list_copy name element_type]
             else texts = [])
            /\ run_list env declared start
               = {| executed := texts; state := Running;
                    chain_open := false |}
            /\ forall test, ElseIf test [throw_out_of_range name] ∉ declared).
  { destruct (is_list_type data_type).
    - destruct Hdeclared as (element_type & Helement & ->).
      exists [list_copy name element_type]. split; [eauto|]. split.
      + rewrite !run_list_cons, run_list_nil, run_Emit_blank.
        unfold list_copy.
        rewrite run_Emit_plain by (try reflexivity; plain_text). reflexivity.
      + intros test Hin.
        repeat (apply elem_of_cons in Hin as [Hin|Hin]; [discriminate Hin|]).
        inversion Hin.
    - subst declared. exists []. split; [reflexivity|].
      split; [reflexivity|]. intros test Hin. inversion Hin. }
  destruct Hprelude as (texts & Htexts & Hprelude & Hnone).
  exists texts. split; [exact Htexts|]. split.
  - intros test. rewrite !elem_of_app. split.
    + intros ->. right. right. left. left.
    + intros [Hin|[Hin|[Hin|Hin]]].
      * exfalso. exact (Hnone _ Hin).
      * apply list_elem_of_singleton in Hin. discriminate Hin.
      * destruct (range_test name data_type) as [test'|]; [|inversion Hin].
        apply list_elem_of_singleton in Hin. f_equal. congruence.
      * apply list_elem_of_singleton in Hin. discriminate Hin.
  - rewrite run_body_eq, run_list_app, Hprelude. cbn [app].
    rewrite run_list_cons, run_If by reflexivity.
    destruct (holds env (name +:+ " == null")).
    + rewrite run_list_cons, run_list_nil. unfold throw_null.
      rewrite run_Emit_throw by reflexivity.
      rewrite run_list_stopped by reflexivity. split; reflexivity.
    + destruct (range_test name data_type) as [test|].
      * cbn [app].
        rewrite !run_list_cons, run_list_nil, run_ElseIf by reflexivity.
        change (chain_open (open_chain _)) with true. cbv iota.
        destruct (holds env test).
        -- rewrite run_list_cons, run_list_nil. unfold throw_out_of_range.
           rewrite run_Emit_throw by reflexivity.
           rewrite run_stopped by reflexivity. split; reflexivity.
        -- rewrite run_Emit_blank.
           split; [symmetry; apply app_nil_r|reflexivity].
      * cbn [app]. rewrite run_list_cons, run_list_nil, run_Emit_blank.
        split; [symmetry; apply app_nil_r|reflexivity].
Qed.

(** The name of [file_info], a string of one to ten lower-case letters:
    handed over as null it is rejected as null, and otherwise by its
    bounds. *)
Lemma null_rejected_first_witness :
  exists emitted,
    _check_constraints files_generator "displayName"
      (String_ (Some 1%Z) (Some 10%Z) (Some "^[a-z]+$")) false = Ok emitted
    /\ range_test "displayName"
         (String_ (Some 1%Z) (Some 10%Z) (Some "^[a-z]+$"))
       = Some ("displayName.Length < 1 || displayName.Length > 10 || " +:+
               "!re.Regex.IsMatch(displayName, @" +:+ quoted "^[a-z]+$" +:+
               ")")
    /\ state (run_body (instance_with "displayName == null") emitted)
       = Thrown.
Proof.
  assert (H : {emitted |
               _check_constraints files_generator "displayName"
                 (String_ (Some 1%Z) (Some 10%Z) (Some "^[a-z]+$")) false
               = Ok emitted}) by (eexists; vm_compute; reflexivity).
  destruct H as [emitted H]. exists emitted. split; [exact H|].
  split; [vm_compute; reflexivity|].
  destruct (null_rejected_first (instance_with "displayName == null")
              files_generator _ _ _ H eq_refl eq_refl)
    as (declared & _ & _ & _ & ->).
  reflexivity.
Defined.

(** * The writer

    The methods of the generator's emission interface, run on the tree of
    writer calls.  The generator keeps a stack of prefixes and their
    concatenation; everything else is done by babelapi's [CodeGenerator],
    whose methods are recorded as the calls they receive.  Writing is ended
    by an exception of the tag processing; the context managers of the
    generator have no [finally], so what they do on exit is then left
    undone.  The tag context that [doc_comment] sets is read by
    [_tag_handler] alone, which takes it as an argument here. *)

(** The calls that reach the base class: [emit], [emit_wrapped_text],
    [generate_multiline_list] and the entry and the normal exit of its
    context managers [block] (entered with [allman=True]) and [indent].
    When an exception passes through such a context no exit is recorded. *)
Inductive base_call :=
| BaseEmit (text : string)
| BaseEmitWrappedText (s : string) (prefix : string) (width : nat)
| BaseMultilineList (items : list string) (before after : string)
| BlockEnter (before : option string)
| BlockExit
| IndentEnter
| IndentExit.

Record Writer := {
  _prefixes : list string;
  _prefix : string;
  calls : list base_call;
}.

(** The writer as [__init__] leaves it. *)
Definition new_writer : Writer :=
  {| _prefixes := []; _prefix := EmptyString; calls := [] |}.

(** How a piece of writing ends: the exception that ended it, if any, and
    the writer as it is left. *)
Definition written : Type := option exn * Writer.

(** A step that cannot fail. *)
Definition ok (step : Writer -> Writer) (w : Writer) : written :=
  (None, step w).

(** One piece of writing after another. *)
Definition and_then (f g : Writer -> written) (w : Writer) : written :=
  match f w with
  | (None, w) => g w
  | raised => raised
  end.

Notation "f +> g" := (and_then f g) (at level 65, right associativity).

Definition base (c : base_call) (w : Writer) : Writer :=
  {| _prefixes := _prefixes w; _prefix := _prefix w;
     calls := calls w ++ [c] |}.

(** The truth value of a string. *)
Definition truth (s : string) : bool :=
  match s with
  | EmptyString => false
  | String _ _ => true
  end.

Definition emit (text : string) (w : Writer) : Writer :=
  if truth text && truth (_prefix w)
  then base (BaseEmit (_prefix w +:+ text)) w
  else base (BaseEmit text) w.

(** [with self.indent(): body] *)
Definition indent (body : Writer -> written) : Writer -> written :=
  ok (base IndentEnter) +> body +> ok (base IndentExit).

Definition cs_block (before : option string) (body : Writer -> written)
  : Writer -> written :=
  ok (base (BlockEnter before)) +> body +> ok (base BlockExit).

Definition region (label : string) (body : Writer -> written)
  : Writer -> written :=
  ok (emit ("#region " +:+ label)) +> ok (emit EmptyString) +> body +>
  ok (emit EmptyString) +> ok (emit "#endregion").

Definition set_prefixes (prefixes : list string) (w : Writer) : Writer :=
  {| _prefixes := prefixes; _prefix := join EmptyString prefixes;
     calls := calls w |}.

(** [self._prefixes.pop()], which raises [IndexError] on an empty list,
    and the prefix set anew. *)
Definition pop_prefix (w : Writer) : written :=
  match _prefixes w with
  | [] => (Some IndexError, w)
  | _ :: _ => (None, set_prefixes (removelast (_prefixes w)) w)
  end.

Definition prefix (prefix : string) (body : Writer -> written)
  : Writer -> written :=
  ok (fun w => set_prefixes (_prefixes w ++ [prefix]) w) +> body +>
  pop_prefix.

Definition doc_comment (body : Writer -> written) : Writer -> written :=
  prefix "/// " body.

Definition switch (expression : string) (body : Writer -> written)
  : Writer -> written :=
  ok (emit ("switch (" +:+ expression +:+ ")")) +> ok (emit "{") +> body +>
  ok (emit "}").

Definition case (constant : option string) (needs_break : bool)
    (body : Writer -> written) : Writer -> written :=
  ok (emit (match constant with
            | Some (String c rest) => "case " +:+ String c rest +:+ ":"
            | _ => "default:"
            end)) +>
  indent (body +> if needs_break then ok (emit "break;") else ok id).

(** [' '.join('{0}="{1}"'.format(k, v) for k, v in attrs.iteritems())] *)
Definition attributes (attrs : list (string * string)) : string :=
  join " " (map (fun '(k, v) => k +:+ "=" +:+ quoted v) attrs).

(** [for x in xs: f(x)] *)
Definition sequence {A} (f : A -> Writer -> written)
  : list A -> Writer -> written :=
  fix sequence (xs : list A) : Writer -> written :=
    match xs with
    | [] => ok id
    | x :: rest => f x +> sequence rest
    end.

Section Writing.

(** [doc.splitlines()], for which Python has more line boundaries than the
    line feed. *)
Variable splitlines : string -> list string.

(** [self.process_doc(s, self._tag_handler)]: the tag substitution of
    babelapi with the handler of the generator, which raises for a tag it
    cannot resolve.  What it gives depends on the tag context and on the
    generator at the time of the call, which the writer does not hold; it
    is given the writer, and so may depend on all that was written
    before. *)
Variable process_doc : Writer -> string -> result string.

(** Called without keyword arguments, or with [process=self._tag_handler]
    by [emit_xml]. *)
Definition emit_wrapped_text (s : string) (process : bool) (w : Writer)
  : written :=
  let prefix := _prefix w +:+ EmptyString in
  match (if process then process_doc w s else Ok s) with
  | Ok s => (None, base (BaseEmitWrappedText s prefix 95) w)
  | Raise e => (Some e, w)
  end.

Definition emit_xml (doc : option string) (tag : string)
    (attrs : list (string * string)) : Writer -> written :=
  let tag_start := "<" +:+ tag in
  let tag_start :=
    if is_empty attrs then tag_start
    else tag_start +:+ " " +:+ attributes attrs in
  match doc with
  | None => ok (emit (tag_start +:+ " />"))
  | Some doc =>
      emit_wrapped_text (tag_start +:+ ">" +:+ doc +:+ "</" +:+ tag +:+ ">")
        true
  end.

Definition xml_block (tag : string) (attrs : list (string * string))
    (body : Writer -> written) : Writer -> written :=
  ok (emit (if is_empty attrs then "<" +:+ tag +:+ ">"
            else "<" +:+ tag +:+ " " +:+ attributes attrs +:+ ">")) +>
  (fun w => if is_empty (_prefixes w) then indent body w else body w) +>
  ok (emit ("</" +:+ tag +:+ ">")).

Definition emit_summary (doc : string) : Writer -> written :=
  let lines := splitlines doc in
  if is_empty lines then emit_xml (Some doc) "summary" []
  else xml_block "summary" []
         (sequence (fun line => emit_xml (Some line) "para" []) lines).

(** What a recorded writer call does. *)
Fixpoint write (c : code) : Writer -> written :=
  match c with
  | Emit text => ok (emit text)
  | EmitWrappedText text => emit_wrapped_text text false
  | EmitSummary doc => emit_summary doc
  | EmitXml doc tag attrs => emit_xml doc tag attrs
  | GenerateMultilineList items before =>
      ok (base (BaseMultilineList items before EmptyString))
  | CsBlock _ body | If_ _ body | ElseIf _ body | Else_ body
  | Using _ body | Class_ _ _ _ body =>
      cs_block (before_text c) (sequence write body)
  | Indent body => indent (sequence write body)
  | Region label body => region label (sequence write body)
  | DocComment body => doc_comment (sequence write body)
  | Switch expression body => switch expression (sequence write body)
  | Case constant needs_break body =>
      case constant needs_break (sequence write body)
  end.

Fixpoint write_unit (u : unit_code) : Writer -> written :=
  match u with
  | Code c => write c
  | MultilineList items before after =>
      ok (base (BaseMultilineList items before after))
  | Block before body => cs_block before (sequence write_unit body)
  | Prefix p body => prefix p (sequence write_unit body)
  | XmlBlock tag attrs body =>
      xml_block tag attrs (sequence write_unit body)
  end.

End Writing.

(** ** What the writer keeps *)

(** The current prefix is the concatenation of the stack. *)
Definition consistent (w : Writer) : Prop :=
  _prefix w = join EmptyString (_prefixes w).

(** A call carries the prefix [p]: an emitted line is blank or starts with
    it, wrapped text is handed over with a prefix that starts with it. *)
Definition prefixed (p : string) (c : base_call) : Prop :=
  match c with
  | BaseEmit text => text = EmptyString \/ exists rest, text = p +:+ rest
  | BaseEmitWrappedText _ prefix _ => exists rest, prefix = p +:+ rest
  | _ => True
  end.

Inductive opened := InBlock | InIndent.

(** The contexts of the base class left open by a run of calls made with
    [open] open, the innermost first; [None] when an exit meets no entry of
    its kind. *)
Fixpoint nesting (cs : list base_call) (open : list opened)
  : option (list opened) :=
  match cs with
  | [] => Some open
  | BlockEnter _ :: rest => nesting rest (InBlock :: open)
  | IndentEnter :: rest => nesting rest (InIndent :: open)
  | BlockExit :: rest =>
      match open with
      | InBlock :: open => nesting rest open
      | _ => None
      end
  | IndentExit :: rest =>
      match open with
      | InIndent :: open => nesting rest open
      | _ => None
      end
  | _ :: rest => nesting rest open
  end.

(** The tag processing raises nowhere. *)
Definition never_raises (process_doc : Writer -> string -> result string)
  : Prop :=
  forall w s, exists s', process_doc w s = Ok s'.

Section Kept.

Variable process_doc : Writer -> string -> result string.

(** What every piece of writing keeps.  It adds calls and never removes
    one; it exits no context but those it entered, and has exited them all
    when it completes; it pops no prefix but those it pushed, and has
    popped them all when it completes; from a consistent writer it leaves a
    consistent one, and all its calls carry the prefix it started with; it
    is ended by an exception only when the tag processing raises. *)
Definition sound (f : Writer -> written) : Prop :=
  forall w, exists e w' new pushed pending,
    f w = (e, w')
    /\ calls w' = calls w ++ new
    /\ _prefixes w' = _prefixes w ++ pushed
    /\ (forall open, nesting new open = Some (pending ++ open))
    /\ (e = None -> pushed = [] /\ pending = [])
    /\ (consistent w ->
        consistent w' /\ Forall (prefixed (_prefix w)) new)
    /\ (never_raises process_doc -> e = None).

Lemma nesting_app cs1 cs2 : forall open,
  nesting (cs1 ++ cs2) open
  = match nesting cs1 open with
    | Some open' => nesting cs2 open'
    | None => None
    end.
Proof.
  induction cs1 as [|c cs1 IH]; intros open; [reflexivity|].
  destruct c; cbn [app nesting]; try apply IH;
    destruct open as [|[] open]; try reflexivity; apply IH.
Qed.

Lemma join_snoc prefixes p :
  join EmptyString (prefixes ++ [p]) = join EmptyString prefixes +:+ p.
Proof.
  induction prefixes as [|q prefixes IH]; [reflexivity|].
  destruct prefixes as [|q' prefixes].
  - cbn. rewrite append_nil. reflexivity.
  - change ((q :: q' :: prefixes) ++ [p]) with (q :: q' :: (prefixes ++ [p])).
    rewrite !join_cons, !append_nil, append_assoc. f_equal. exact IH.
Qed.

Lemma prefixed_weaken p q c : prefixed (p +:+ q) c -> prefixed p c.
Proof.
  destruct c; cbn; try exact id.
  - intros [H|[rest ->]]; [left; exact H|right].
    exists (q +:+ rest). apply append_assoc.
  - intros [rest ->]. exists (q +:+ rest). apply append_assoc.
Qed.

Lemma emit_base text w :
  emit text w
  = base (BaseEmit (if truth text && truth (_prefix w)
                    then _prefix w +:+ text else text)) w.
Proof. unfold emit. destruct (truth text && truth (_prefix w)); reflexivity. Qed.

Lemma emit_prefixed text w : prefixed (_prefix w) (BaseEmit
  (if truth text && truth (_prefix w) then _prefix w +:+ text else text)).
Proof.
  destruct text as [|c text]; [left; reflexivity|]. right.
  destruct (_prefix w) as [|c' p] eqn:E; [exists (String c text)|eexists];
    reflexivity.
Qed.

(** One call to the base class that opens and closes nothing. *)
Lemma sound_base (c : Writer -> base_call) :
  (forall w open, nesting [c w] open = Some open) ->
  (forall w, prefixed (_prefix w) (c w)) ->
  sound (fun w => (None, base (c w) w)).
Proof.
  intros Hclosed Hprefixed w. exists None, (base (c w) w), [c w], [], [].
  split; [reflexivity|]. split; [reflexivity|].
  split; [symmetry; apply app_nil_r|]. split; [apply Hclosed|].
  split; [intros _; split; reflexivity|].
  split; [|intros _; reflexivity].
  intros Hw. split; [exact Hw|]. constructor; [apply Hprefixed|constructor].
Qed.

Lemma sound_ext f g : (forall w, f w = g w) -> sound g -> sound f.
Proof.
  intros E H w. destruct (H w) as (e & w' & new & pushed & pending & H').
  exists e, w', new, pushed, pending. rewrite E. exact H'.
Qed.

Lemma sound_emit text : sound (ok (emit text)).
Proof.
  apply sound_ext with (g := fun w => (None, base (BaseEmit
    (if truth text && truth (_prefix w) then _prefix w +:+ text else text))
    w)).
  - intros w. unfold ok. rewrite emit_base. reflexivity.
  - apply sound_base; [intros w open; reflexivity|].
    intros w. apply emit_prefixed.
Qed.

Lemma sound_multiline_list items before after :
  sound (ok (base (BaseMultilineList items before after))).
Proof.
  apply (sound_base (fun _ => BaseMultilineList items before after)).
  - intros w open. reflexivity.
  - intros w. exact I.
Qed.

Lemma sound_skip : sound (ok id).
Proof.
  intros w. exists None, w, [], [], [].
  split; [reflexivity|]. split; [symmetry; apply app_nil_r|].
  split; [symmetry; apply app_nil_r|]. split; [intros open; reflexivity|].
  split; [intros _; split; reflexivity|].
  split; [|intros _; reflexivity].
  intros Hw. split; [exact Hw|constructor].
Qed.

Lemma sound_emit_wrapped_text s process :
  sound (emit_wrapped_text process_doc s process).
Proof.
  intros w. unfold emit_wrapped_text.
  destruct (if process then process_doc w s else Ok s) as [s'|e] eqn:E.
  - exists None, (base (BaseEmitWrappedText s' (_prefix w +:+ EmptyString) 95)
                   w),
      [BaseEmitWrappedText s' (_prefix w +:+ EmptyString) 95], [], [].
    split; [reflexivity|]. split; [reflexivity|].
    split; [symmetry; apply app_nil_r|]. split; [intros open; reflexivity|].
    split; [intros _; split; reflexivity|].
    split; [|intros _; reflexivity].
    intros Hw. split; [exact Hw|].
    constructor; [exists EmptyString; reflexivity|constructor].
  - exists (Some e), w, [], [], [].
    split; [reflexivity|]. split; [symmetry; apply app_nil_r|].
    split; [symmetry; apply app_nil_r|]. split; [intros open; reflexivity|].
    split; [intros H; discriminate H|].
    split; [intros Hw; split; [exact Hw|constructor]|].
    intros Hnever. destruct process; [|discriminate E].
    destruct (Hnever w s) as [s' Hs']. congruence.
Qed.

Lemma sound_emit_xml doc tag attrs :
  sound (emit_xml process_doc doc tag attrs).
Proof.
  unfold emit_xml. destruct doc as [doc|];
    [apply sound_emit_wrapped_text|apply sound_emit].
Qed.

Lemma sound_seq f g : sound f -> sound g -> sound (f +> g).
Proof.
  intros Hf Hg w. unfold and_then.
  destruct (Hf w)
    as (e1 & w1 & new1 & pushed1 & pending1 & E1 & Hc1 & Hs1 & Hn1 & Hd1
        & Hp1 & Hr1).
  rewrite E1. destruct e1 as [e1|].
  - exists (Some e1), w1, new1, pushed1, pending1.
    split; [reflexivity|]. split; [exact Hc1|]. split; [exact Hs1|].
    split; [exact Hn1|]. split; [intros H; discriminate H|].
    split; [exact Hp1|exact Hr1].
  - destruct (Hd1 eq_refl) as [-> ->]. rewrite app_nil_r in Hs1.
    destruct (Hg w1)
      as (e2 & w2 & new2 & pushed2 & pending2 & E2 & Hc2 & Hs2 & Hn2 & Hd2
          & Hp2 & Hr2).
    exists e2, w2, (new1 ++ new2), pushed2, pending2.
    split; [exact E2|]. split; [rewrite Hc2, Hc1; symmetry; apply app_assoc|].
    split; [congruence|].
    split; [intros open; rewrite nesting_app, Hn1; apply Hn2|].
    split; [exact Hd2|]. split; [|exact Hr2]. intros Hw.
    destruct (Hp1 Hw) as [Hw1 Hl1]. destruct (Hp2 Hw1) as [Hw2 Hl2].
    split; [exact Hw2|]. apply Forall_app. split; [exact Hl1|].
    replace (_prefix w) with (_prefix w1); [exact Hl2|].
    unfold consistent in *. congruence.
Qed.

Lemma sound_sequence {A} (f : A -> Writer -> written) xs :
  Forall (fun x => sound (f x)) xs -> sound (sequence f xs).
Proof.
  induction 1 as [|x xs Hx _ IH]; [exact sound_skip|].
  exact (sound_seq _ _ Hx IH).
Qed.

(** A context of the base class around a piece of writing. *)
Lemma sound_context (enter exit : base_call) (kind : opened) body :
  (forall open, nesting [enter] open = Some (kind :: open)) ->
  (forall open, nesting [exit] (kind :: open) = Some open) ->
  sound body ->
  sound (ok (base enter) +> body +> ok (base exit)).
Proof.
  intros Henter Hexit Hbody w. unfold and_then, ok.
  destruct (Hbody (base enter w))
    as (e & w1 & new & pushed & pending & E & Hc & Hs & Hn & Hd & Hp & Hr).
  rewrite E. cbn [base calls _prefixes _prefix] in Hc, Hs, Hp.
  destruct e as [e|].
  - exists (Some e), w1, (enter :: new), pushed, (pending ++ [kind]).
    split; [reflexivity|].
    split; [rewrite Hc, <- app_assoc; reflexivity|]. split; [exact Hs|].
    split.
    { intros open. change (enter :: new) with ([enter] ++ new).
      rewrite nesting_app, Henter, Hn, <- app_assoc. reflexivity. }
    split; [intros H; discriminate H|]. split; [|exact Hr]. intros Hw.
    destruct (Hp Hw) as [Hw1 Hl]. split; [exact Hw1|].
    constructor; [|exact Hl].
    specialize (Henter []). destruct enter; try exact I; discriminate Henter.
  - destruct (Hd eq_refl) as [-> ->].
    exists None, (base exit w1), (enter :: new ++ [exit]), [], [].
    split; [reflexivity|].
    split; [cbn [base calls]; rewrite Hc, <- !app_assoc; reflexivity|].
    split; [exact Hs|]. split.
    { intros open. change (enter :: new ++ [exit])
        with ([enter] ++ new ++ [exit]).
      rewrite nesting_app, Henter, nesting_app, Hn. apply Hexit. }
    split; [intros _; split; reflexivity|].
    split; [|intros _; reflexivity]. intros Hw.
    destruct (Hp Hw) as [Hw1 Hl]. split; [exact Hw1|].
    specialize (Henter []). specialize (Hexit []).
    constructor; [destruct enter; try exact I; discriminate Henter|].
    apply Forall_app. split; [exact Hl|].
    constructor; [|constructor].
    destruct exit; try exact I; discriminate Hexit.
Qed.

Lemma sound_cs_block before body : sound body -> sound (cs_block before body).
Proof.
  apply sound_context with (kind := InBlock); intros open; reflexivity.
Qed.

Lemma sound_indent body : sound body -> sound (indent body).
Proof.
  apply sound_context with (kind := InIndent); intros open; reflexivity.
Qed.

(** What is written under one more prefix carries it; the prefix is popped
    when the writing completes and stays on the stack when it raises. *)
Lemma prefix_lines p body w :
  sound body ->
  exists e w' new pushed pending,
    prefix p body w = (e, w')
    /\ calls w' = calls w ++ new
    /\ _prefixes w' = _prefixes w ++ pushed
    /\ (forall open, nesting new open = Some (pending ++ open))
    /\ (e = None -> pushed = [] /\ pending = [])
    /\ (e <> None -> exists deeper, pushed = p :: deeper)
    /\ (consistent w ->
        consistent w' /\ Forall (prefixed (_prefix w +:+ p)) new)
    /\ (never_raises process_doc -> e = None).
Proof.
  intros Hbody. unfold prefix, and_then, ok.
  destruct (Hbody (set_prefixes (_prefixes w ++ [p]) w))
    as (e & w1 & new & pushed & pending & E & Hc & Hs & Hn & Hd & Hp & Hr).
  rewrite E. cbn [set_prefixes _prefixes _prefix calls] in Hc, Hs, Hp.
  destruct e as [e|].
  - exists (Some e), w1, new, (p :: pushed), pending.
    split; [reflexivity|]. split; [exact Hc|].
    split; [rewrite Hs, <- app_assoc; reflexivity|]. split; [exact Hn|].
    split; [intros H; discriminate H|]. split; [intros _; eauto|].
    split; [|exact Hr]. intros Hw. destruct (Hp eq_refl) as [Hw1 Hl].
    split; [exact Hw1|]. rewrite join_snoc, <- Hw in Hl. exact Hl.
  - destruct (Hd eq_refl) as [-> ->]. rewrite app_nil_r in Hs.
    assert (Epop : pop_prefix w1 = (None, set_prefixes (_prefixes w) w1)).
    { unfold pop_prefix. rewrite Hs.
      destruct (_prefixes w ++ [p]) as [|q rest] eqn:El;
        [destruct (_prefixes w); discriminate El|].
      rewrite <- El, removelast_last. reflexivity. }
    rewrite Epop.
    exists None, (set_prefixes (_prefixes w) w1), new, [], [].
    split; [reflexivity|]. split; [exact Hc|].
    split; [symmetry; apply app_nil_r|]. split; [exact Hn|].
    split; [intros _; split; reflexivity|].
    split; [intros H; contradiction H; reflexivity|].
    split; [|intros _; reflexivity]. intros Hw.
    split; [reflexivity|]. destruct (Hp eq_refl) as [_ Hl].
    rewrite join_snoc, <- Hw in Hl. exact Hl.
Qed.

Lemma sound_prefix p body : sound body -> sound (prefix p body).
Proof.
  intros Hbody w.
  destruct (prefix_lines p body w Hbody)
    as (e & w' & new & pushed & pending & E & Hc & Hs & Hn & Hd & _ & Hp
        & Hr).
  exists e, w', new, pushed, pending. split; [exact E|]. split; [exact Hc|].
  split; [exact Hs|]. split; [exact Hn|]. split; [exact Hd|].
  split; [|exact Hr]. intros Hw. destruct (Hp Hw) as [Hw' Hl].
  split; [exact Hw'|].
  apply (Forall_impl _ _ _ Hl). intros c. apply prefixed_weaken.
Qed.

Lemma sound_region label body : sound body -> sound (region label body).
Proof.
  intros Hbody.
  exact (sound_seq _ _ (sound_emit _)
           (sound_seq _ _ (sound_emit _)
              (sound_seq _ _ Hbody
                 (sound_seq _ _ (sound_emit _) (sound_emit _))))).
Qed.

Lemma sound_switch expression body :
  sound body -> sound (switch expression body).
Proof.
  intros Hbody.
  exact (sound_seq _ _ (sound_emit _)
           (sound_seq _ _ (sound_emit _)
              (sound_seq _ _ Hbody (sound_emit _)))).
Qed.

Lemma sound_case constant needs_break body :
  sound body -> sound (case constant needs_break body).
Proof.
  intros Hbody.
  refine (sound_seq _ _ (sound_emit _) (sound_indent _ _)).
  refine (sound_seq _ _ Hbody _).
  destruct needs_break; [apply sound_emit|apply sound_skip].
Qed.

Lemma sound_xml_block tag attrs body :
  sound body -> sound (xml_block tag attrs body).
Proof.
  intros Hbody.
  refine (sound_seq _ _ (sound_emit _) (sound_seq _ _ _ (sound_emit _))).
  intros w. destruct (is_empty (_prefixes w));
    [apply sound_indent, Hbody|apply Hbody].
Qed.

Lemma sound_emit_summary splitlines doc :
  sound (emit_summary splitlines process_doc doc).
Proof.
  unfold emit_summary. destruct (is_empty (splitlines doc)).
  - apply sound_emit_xml.
  - apply sound_xml_block, sound_sequence, Forall_forall.
    intros line _. apply sound_emit_xml.
Qed.

Lemma code_nested_ind (P : code -> Prop) :
  (forall c, Forall P (body_of c) -> P c) -> forall c, P c.
Proof.
  intros H. fix IH 1. intros c. apply H.
  destruct c; cbn [body_of]; try (constructor; fail);
    match goal with
    | |- Forall P ?body =>
        induction body as [|c cs IHcs];
        [constructor|constructor; [apply IH|exact IHcs]]
    end.
Qed.

Lemma sound_write splitlines c : sound (write splitlines process_doc c).
Proof.
  induction c as [c Hbody] using code_nested_ind.
  apply (sound_sequence (write splitlines process_doc)) in Hbody.
  destruct c; cbn [write body_of before_text] in *.
  - apply sound_emit.
  - apply sound_emit_wrapped_text.
  - apply sound_emit_summary.
  - apply sound_emit_xml.
  - apply sound_multiline_list.
  - apply sound_cs_block, Hbody.
  - apply sound_indent, Hbody.
  - apply sound_cs_block, Hbody.
  - apply sound_cs_block, Hbody.
  - apply sound_cs_block, Hbody.
  - apply sound_cs_block, Hbody.
  - apply sound_cs_block, Hbody.
  - apply sound_region, Hbody.
  - apply sound_prefix, Hbody.
  - apply sound_switch, Hbody.
  - apply sound_case, Hbody.
Qed.





End Kept.



(** X24. Inside a documentation comment every line carries the comment
    marker: whatever is written in [doc_comment], and whether the writing
    completes or is ended by an exception, each line handed to the base
    class's [emit] is either blank (a blank line is emitted bare) or starts
    with the enclosing prefix followed by the marker "/// ", and each text
    handed to its [emit_wrapped_text] is given a prefix that starts so.
    The marker is popped when the comment completes and is still on the
    stack when an exception ends it. *)
Theorem doc_comment_lines (splitlines : string -> list string)
    (process_doc : Writer -> string -> result string)
    (body : list code) (w : Writer) :
  consistent w ->
  exists e w' new pushed,
    write splitlines process_doc (DocComment body) w = (e, w')
    /\ calls w' = calls w ++ new
    /\ Forall (prefixed (_prefix w +:+ "/// ")) new
    /\ _prefixes w' = _prefixes w ++ pushed
    /\ (e = None -> pushed = [])
    /\ (e <> None -> exists deeper, pushed = "/// " :: deeper).
Proof.
  intros Hw.
  assert (Hbody : sound process_doc
                    (sequence (write splitlines process_doc) body)).
  { apply sound_sequence, Forall_forall. intros c _. apply sound_write. }
  destruct (prefix_lines process_doc "/// " _ w Hbody)
    as (e & w' & new & pushed & pending & E & Hc & Hs & _ & Hd & Hraised
        & Hp & _).
  exists e, w', new, pushed. split; [exact E|]. split; [exact Hc|].
  split; [apply Hp, Hw|]. split; [exact Hs|].
  split; [intros He; apply Hd, He|exact Hraised].
Qed.

(** The comment of a constructor, with a blank line. *)
Lemma doc_comment_lines_witness :
  consistent new_writer
  /\ exists e w' new pushed,
       write (split "010"%char) (fun _ s => Ok s)
         (DocComment [emit_ctor_summary "Metadata"; emit_blank]) new_writer
       = (e, w')
       /\ calls w' = calls new_writer ++ new
       /\ Forall (prefixed (_prefix new_writer +:+ "/// ")) new
       /\ _prefixes w' = _prefixes new_writer ++ pushed
       /\ (e = None -> pushed = [])
       /\ (e <> None -> exists deeper, pushed = "/// " :: deeper).
Proof.
  split; [reflexivity|].
  apply (doc_comment_lines (split "010"%char) (fun _ s => Ok s)
           [emit_ctor_summary "Metadata"; emit_blank] new_writer).
  reflexivity.
Defined.


(** A tag that cannot be resolved, in the summary of a method: the
    exception passes through the summary element, the comment and the
    block; the marker stays on the stack, the element and the block stay
    open. *)
Example raise_leaves_contexts :
  sequence (write_unit (split "010"%char) (fun _ _ => Raise AssertionError))
    [Block (Some "public void Run()")
       [Code (DocComment [EmitSummary "Runs :unknown:`tag`."])]]
    new_writer
  = (Some AssertionError,
     {| _prefixes := ["/// "]; _prefix := "/// ";
        calls := [BlockEnter (Some "public void Run()");
                  BaseEmit "/// <summary>"] |}).
Proof. reflexivity. Qed.

(** * Memoised methods *)

Section MemoOne.

Context {Self K V : Type} `{Countable K}.

(** The decorated method; a value of [None] is Python's [None]. *)
Variable fn : Self -> K -> result (option V).

(** [cache.get(arg)] *)
Definition cache_get (cache : gmap K (option V)) (arg : K) : option V :=
  match cache !! arg with
  | Some value => value
  | None => None
  end.

(** [wrapper(self, arg)] of [memo_one(fn)], on the cache of the decorated
    method. *)
Definition wrapper (self : Self) (arg : K) (cache : gmap K (option V))
  : result (option V) * gmap K (option V) :=
  match cache_get cache arg with
  | Some value => (Ok (Some value), cache)
  | None =>
      match fn self arg with
      | Ok value => (Ok value, <[arg := value]> cache)
      | Raise e => (Raise e, cache)
      end
  end.

(** The results of a series of calls. *)
Fixpoint wrapper_calls (cache : gmap K (option V)) (cs : list (Self * K))
  : list (result (option V)) :=
  match cs with
  | [] => []
  | (self, arg) :: rest =>
      let (value, cache) := wrapper self arg cache in
      value :: wrapper_calls cache rest
  end.

(** Every value of the cache is the method's. *)
Definition cached (cache : gmap K (option V)) : Prop :=
  forall arg value self,
    cache !! arg = Some (Some value) -> fn self arg = Ok (Some value).

Lemma wrapper_calls_cached cs : forall cache,
  (forall self self' arg, fn self arg = fn self' arg) ->
  cached cache ->
  wrapper_calls cache cs = map (fun '(self, arg) => fn self arg) cs.
Proof.
  induction cs as [|[self arg] cs IH]; intros cache Hself Hcache;
    [reflexivity|].
  cbn [wrapper_calls map]. unfold wrapper, cache_get.
  destruct (cache !! arg) as [[value|]|] eqn:E.
  - rewrite (Hcache _ _ self E). f_equal. apply IH; assumption.
  - destruct (fn self arg) as [value|e] eqn:Efn.
    + f_equal. apply IH; [assumption|]. intros arg' value' self' E'.
      destruct (decide (arg' = arg)) as [->|Hne].
      * rewrite lookup_insert_eq in E'. injection E' as ->.
        rewrite (Hself self' self). exact Efn.
      * rewrite lookup_insert_ne in E' by congruence.
        exact (Hcache _ _ self' E').
    + f_equal. apply IH; assumption.
  - destruct (fn self arg) as [value|e] eqn:Efn.
    + f_equal. apply IH; [assumption|]. intros arg' value' self' E'.
      destruct (decide (arg' = arg)) as [->|Hne].
      * rewrite lookup_insert_eq in E'. injection E' as ->.
        rewrite (Hself self' self). exact Efn.
      * rewrite lookup_insert_ne in E' by congruence.
        exact (Hcache _ _ self' E').
    + f_equal. apply IH; assumption.
Qed.

End MemoOne.

(** X26. [memo_one] is transparent for a method that does not depend on the
    instance: starting with the empty cache, every call of the wrapper, in
    any series of calls on any instances, gives what the method itself
    gives for that argument, whether it returns a value, returns [None]
    (which is never served from the cache) or raises (which caches
    nothing). *)
Theorem memo_one_transparent {Self K V : Type} `{Countable K}
    (fn : Self -> K -> result (option V)) (cs : list (Self * K)) :
  (forall self self' arg, fn self arg = fn self' arg) ->
  wrapper_calls fn ∅ cs = map (fun '(self, arg) => fn self arg) cs.
Proof.
  intros Hself. apply wrapper_calls_cached; [exact Hself|].
  intros arg value self E. rewrite lookup_empty in E. discriminate E.
Qed.

(** [_arg_name] as the decorator receives it. *)
Definition arg_name_method (_ : CSharpGenerator) (name : string)
  : result (option string) :=
  let* value := _arg_name name in Ok (Some value).

(** [_arg_name], asked twice for a name and once for the empty name. *)
Lemma memo_one_transparent_witness :
  (forall self self' arg,
     arg_name_method self arg = arg_name_method self' arg)
  /\ wrapper_calls arg_name_method ∅
       [(files_generator, "shared_folder"); (files_generator, "");
        (files_generator, "shared_folder")]
     = map (fun '(self, arg) => arg_name_method self arg)
         [(files_generator, "shared_folder"); (files_generator, "");
          (files_generator, "shared_folder")].
Proof.
  split; [intros self self' arg; reflexivity|].
  apply (memo_one_transparent arg_name_method). intros self self' arg.
  reflexivity.
Defined.

(** ** Types are generated independently *)

(** The generator as a namespace's types and routes find it in a run that
    was started from [self]. *)
Definition namespace_scope (ns : ApiNamespace) (self : CSharpGenerator)
  : CSharpGenerator :=
  set_ns (_public_name (namespace_name ns)) (_compute_related_types ns self).

(** No local names are in scope. *)
Definition no_names (self : CSharpGenerator) : Prop :=
  _name_list self = [] /\ _prevent_collisions self = ∅.

Lemma generate_data_type_scope ns_name data_type self file self' :
  no_names self ->
  _generate_data_type ns_name data_type self = Ok (file, self') ->
  self' = self.
Proof.
  intros [Hlist Hset] H. unfold _generate_data_type in H. inv_ok H.
  destruct v as [emitted self1]. inv_ok H. subst self1.
  destruct data_type as [struct|union].
  - inv_ok Hv. inv_ok Hv. congruence.
  - apply generate_union_scope in Hv as [_ ->].
    unfold pop_names, push_names. cbn [_name_list _ns _related_types].
    rewrite removelast_last. destruct self as [ns names set related].
    cbn in *. subst. reflexivity.
Qed.

Lemma for_each_with_fixed {A B} (I : CSharpGenerator -> Prop)
    (f : A -> CSharpGenerator -> result (B * CSharpGenerator)) xs :
  (forall x self y self', I self -> f x self = Ok (y, self') -> self' = self) ->
  forall self ys self',
    I self ->
    for_each_with f xs self = Ok (ys, self') ->
    self' = self
    /\ forall x, x ∈ xs -> exists y, y ∈ ys /\ f x self = Ok (y, self).
Proof.
  intros Hf. induction xs as [|x xs IH]; intros self ys self' Hself H;
    cbn [for_each_with] in H.
  - inv_ok H. split; [congruence|]. intros x Hin. inversion Hin.
  - inv_ok H. destruct v as [y self1]. inv_ok H. destruct v as [ys' self2].
    inv_ok H. subst ys self2.
    assert (self1 = self) as -> by exact (Hf _ _ _ _ Hself Hv).
    destruct (IH _ _ _ Hself Hv0) as [-> Hrest]. split; [reflexivity|].
    intros x' Hin. apply elem_of_cons in Hin as [->|Hin].
    + exists y. split; [left|exact Hv].
    + destruct (Hrest _ Hin) as (y' & Hy' & E).
      exists y'. split; [right; exact Hy'|exact E].
Qed.

Lemma for_each_with_kept {A B} (I : CSharpGenerator -> Prop)
    (f : A -> CSharpGenerator -> result (B * CSharpGenerator)) xs :
  (forall x self y self', I self -> f x self = Ok (y, self') -> I self') ->
  forall self ys self',
    I self ->
    for_each_with f xs self = Ok (ys, self') ->
    forall x, x ∈ xs ->
      exists self1 y self2, I self1 /\ f x self1 = Ok (y, self2) /\ y ∈ ys.
Proof.
  intros Hf. induction xs as [|x xs IH]; intros self ys self' Hself H x' Hin;
    [inversion Hin|].
  cbn [for_each_with] in H. inv_ok H. destruct v as [y self1]. inv_ok H.
  destruct v as [ys' self2]. inv_ok H. subst ys.
  apply elem_of_cons in Hin as [->|Hin].
  - exists self, y, self1. split; [exact Hself|]. split; [exact Hv|left].
  - destruct (IH _ _ _ (Hf _ _ _ _ Hself Hv) Hv0 _ Hin)
      as (s1 & y' & s2 & Hs1 & E & Hy').
    exists s1, y', s2. split; [exact Hs1|]. split; [exact E|right; exact Hy'].
Qed.

Lemma namespace_scope_names ns self :
  no_names self -> no_names (namespace_scope ns self).
Proof. intros H. exact H. Qed.

Lemma namespace_scope_eq ns self self' :
  no_names self -> no_names self' ->
  namespace_scope ns self' = namespace_scope ns self.
Proof.
  intros [Hlist Hset] [Hlist' Hset'].
  unfold namespace_scope, set_ns, _compute_related_types.
  cbn [_name_list _prevent_collisions _related_types].
  rewrite Hlist, Hset, Hlist', Hset'. reflexivity.
Qed.

Lemma generate_namespace_scope ns self files self' :
  no_names self ->
  _generate_namespace ns (_compute_related_types ns self) = Ok (files, self') ->
  self' = namespace_scope ns self
  /\ forall data_type, data_type ∈ data_types ns ->
       exists file,
         file ∈ files
         /\ _generate_data_type (_public_name (namespace_name ns)) data_type
              (namespace_scope ns self)
            = Ok (file, namespace_scope ns self).
Proof.
  intros Hself H. unfold _generate_namespace in H.
  fold (namespace_scope ns self) in H. inv_ok H.
  destruct v as [units self1].
  destruct (for_each_with_fixed no_names _ _
              (fun x s y s' Hs => generate_data_type_scope _ x s y s' Hs)
              _ _ _ (namespace_scope_names ns self Hself) Hv)
    as [-> Hunits].
  destruct (routes ns) as [|route rest]; inv_ok H.
  - subst. split; [reflexivity|exact Hunits].
  - destruct v as [filename body]. inv_ok H. subst. split; [reflexivity|].
    intros data_type Hin. destruct (Hunits _ Hin) as (file & Hfile & E).
    exists file. split; [apply elem_of_app; left; exact Hfile|exact E].
Qed.

(** X27. The types of a run are generated independently of one another: in
    a run started with no local names in scope, the file of every data type
    of every namespace is the one [_generate_data_type] writes from the
    scope of its namespace alone (the namespace's public name, its related
    types, no local names), and it leaves that scope as it found it.  The
    variant names of a union are therefore never in scope for a later type,
    and nothing of an earlier namespace is. *)
Theorem types_generated_independently (api : Api) (link : bool)
    (common : list (string * string)) (self self' : CSharpGenerator)
    (files : list output_file) (ns : ApiNamespace) (data_type : Composite) :
  generate api link common self = Ok (files, self') ->
  _name_list self = [] ->
  _prevent_collisions self = ∅ ->
  ns ∈ namespaces api ->
  data_type ∈ data_types ns ->
  exists file,
    file ∈ files
    /\ _generate_data_type (_public_name (namespace_name ns)) data_type
         (namespace_scope ns self)
       = Ok (file, namespace_scope ns self).
Proof.
  intros H Hlist Hset Hns Hin. unfold generate in H. inv_ok H.
  destruct v as [units self1]. inv_ok H. subst files.
  assert (Hself : no_names self) by (split; assumption).
  destruct (for_each_with_kept no_names _ _
              (fun x s y s' Hs E =>
                 eq_ind_r no_names (namespace_scope_names x s Hs)
                   (proj1 (generate_namespace_scope x s y s' Hs E)))
              _ _ _ Hself Hv _ Hns)
    as (s1 & written & s2 & Hs1 & E & Hwritten).
  destruct (generate_namespace_scope _ _ _ _ Hs1 E) as [_ Hfiles].
  destruct (Hfiles _ Hin) as (file & Hfile & Efile).
  exists file. rewrite (namespace_scope_eq ns self s1 Hself Hs1) in Efile.
  split; [|exact Efile].
  rewrite <- !app_assoc. apply elem_of_app. left.
  exact (elem_of_concat _ _ _ Hfile Hwritten).
Qed.

(** The union [color] of the namespace [files], generated after the struct
    [file_info]. *)
Lemma types_generated_independently_witness :
  exists files self' file,
    generate files_api false [] files_generator = Ok (files, self')
    /\ file ∈ files
    /\ _generate_data_type "Files" (AUnion color)
         (namespace_scope
            {| namespace_name := "files"; namespace_doc := None;
               data_types := [AStruct file_info; AUnion color];
               routes := [upload_route] |} files_generator)
       = Ok (file,
             namespace_scope
               {| namespace_name := "files"; namespace_doc := None;
                  data_types := [AStruct file_info; AUnion color];
                  routes := [upload_route] |} files_generator).
Proof.
  assert (H : {result |
               generate files_api false [] files_generator = Ok result})
    by (eexists; vm_compute; reflexivity).
  destruct H as [[files self'] H]. exists files, self'.
  destruct (types_generated_independently files_api false [] files_generator
              self' files
              {| namespace_name := "files"; namespace_doc := None;
                 data_types := [AStruct file_info; AUnion color];
                 routes := [upload_route] |} (AUnion color) H eq_refl eq_refl)
    as (file & Hfile & E).
  - left.
  - right. left.
  - exists file. split; [exact H|]. split; [exact Hfile|exact E].
Defined.

(** ** Defaults of composite fields *)

Lemma generate_struct_init_ctor self struct emitted :
  _generate_struct self struct = Ok emitted ->
  exists init_ctor,
    _generate_struct_init_ctor self struct (_public_name (struct_name struct))
      (enumerating_parent struct) (parent_type_fields struct) = Ok init_ctor.
Proof.
  unfold _generate_struct. intros H. inv_ok H. eexists. eassumption.
Qed.

(** A struct of the namespace [files] whose field [access] is of the union
    [access_level] and defaults to its tag [owner]. *)
Definition member : Struct :=
  plain_struct "member"
    [field "access" (UnionRef "access_level" "files")
       (Some (TagRef "access_level" "owner" "owner"))].

(** X28. A class is generated only for supported defaults: when
    [_generate_struct] succeeds, every field of the struct that the class
    implements itself and that has a composite type and a default is of a
    union type and its default is a reference to a tag.  A default on a
    field of struct type, or a default of a union-typed field that is no tag
    reference, makes the generation of the struct raise instead. *)
Theorem composite_defaults_supported (self : CSharpGenerator)
    (struct : Struct) (emitted : list code) (field : Field) :
  _generate_struct self struct = Ok emitted ->
  field ∈ all_fields struct ->
  name field ∉ parent_type_fields struct ->
  has_default field = true ->
  is_composite_type (data_type field) = true ->
  is_union_type (data_type field) = true
  /\ is_tag_ref (default field) = true.
Proof.
  intros H Hin Hown Hdefault Hcomposite.
  apply generate_struct_init_ctor in H as (init_ctor & H).
  apply init_ctor_block in H as (body & H & _).
  destruct (init_ctor_body_checks _ _ _ _ _ H Hin) as (checks & Hchecks & _).
  unfold init_ctor_field_checks in Hchecks.
  rewrite bool_decide_eq_false_2 in Hchecks by exact Hown.
  rewrite Hdefault, Hcomposite in Hchecks. cbn [andb] in Hchecks.
  inv_ok Hchecks.
  match goal with
  | Hdefaulting : bind (_process_composite_default _ _ _) _ = Ok _ |- _ =>
      inv_ok Hdefaulting
  end.
  match goal with
  | Hshape : _process_composite_default _ _ _ = Ok _ |- _ =>
      unfold _process_composite_default, _process_union_default in Hshape;
      destruct (is_struct_type (data_type field)); [discriminate Hshape|];
      destruct (is_union_type (data_type field)); [|discriminate Hshape];
      destruct (default field) as [[| | | |union tag repr]|];
      try discriminate Hshape
  end.
  split; reflexivity.
Qed.

Lemma composite_defaults_supported_witness :
  exists emitted,
    _generate_struct files_generator member = Ok emitted
    /\ is_union_type (UnionRef "access_level" "files") = true
    /\ is_tag_ref (Some (TagRef "access_level" "owner" "owner")) = true.
Proof.
  assert (H : {emitted | _generate_struct files_generator member = Ok emitted})
    by (eexists; vm_compute; reflexivity).
  destruct H as [emitted H]. exists emitted. split; [exact H|].
  apply (composite_defaults_supported files_generator member emitted
           (field "access" (UnionRef "access_level" "files")
              (Some (TagRef "access_level" "owner" "owner"))) H).
  - left.
  - apply not_elem_of_empty.
  - reflexivity.
  - reflexivity.
Defined.
